(** * logserver: the request engine (engine/engine.go)

    A shallow embedding of the engine's handlers.  Every goroutine of a
    request is a function from its own view of the effects (when the
    context is seen cancelled, what the wall clock reads) to the list of
    what it sends or adds; what the request emits is a merge of these lists
    under a schedule, so a statement for every schedule is a statement for
    every interleaving.  Objects reached through Go pointers ([*File],
    [*Response]) live in an explicit store. *)

From Stdlib Require Import ZArith String Ascii List Bool Lia Permutation Sorted.
From stdpp Require Import base option list gmap strings.
Import ListNotations.

Local Open Scope string_scope.
Local Open Scope list_scope.
Local Open Scope Z_scope.

(** ** Go's standard library, as far as the engine uses it *)
Module Go.

(** [int] is 64 bits wide on the platforms the server is built for;
    additions wrap around in two's complement. *)
Definition wrap (z : Z) : Z := (z + 2 ^ 63) mod 2 ^ 64 - 2 ^ 63.
Definition add (a b : Z) : Z := wrap (a + b).
Definition maxInt : Z := 2 ^ 63 - 1.

(** [len] of a slice or of a byte string, as an [int]. *)
Definition len {A} (l : list A) : Z := Z.of_nat (List.length l).
Definition lenBytes (s : string) : Z := Z.of_nat (String.length s).

(** [time.Time] is an instant, counted in nanoseconds; [time.Duration] is
    an [int64] of nanoseconds and [Sub] saturates. *)
Definition After (t u : Z) : bool := u <? t.
Definition Before (t u : Z) : bool := t <? u.
Definition Sub (t u : Z) : Z := Z.max (- 2 ^ 63) (Z.min (2 ^ 63 - 1) (t - u)).

Definition isSep (c : ascii) : bool := Ascii.eqb c "/".

(** [strings.Split(s, "/")] *)
Fixpoint Split (s : string) : list string :=
  match s with
  | EmptyString => [EmptyString]
  | String c s' =>
      if isSep c then EmptyString :: Split s'
      else match Split s' with
           | x :: xs => String c x :: xs
           | [] => [String c EmptyString]
           end
  end.

Fixpoint TrimLeft (s : string) : string :=
  match s with
  | EmptyString => EmptyString
  | String c s' => if isSep c then TrimLeft s' else s
  end.

Fixpoint TrimRight (s : string) : string :=
  match s with
  | EmptyString => EmptyString
  | String c s' =>
      match TrimRight s' with
      | EmptyString => if isSep c then EmptyString else String c EmptyString
      | r => String c r
      end
  end.

(** [strings.Trim(s, "/")] *)
Definition Trim (s : string) : string := TrimRight (TrimLeft s).

Definition isEmpty (s : string) : bool :=
  match s with EmptyString => true | _ => false end.

Fixpoint hasSep (s : string) : bool :=
  match s with
  | EmptyString => false
  | String c s' => isSep c || hasSep s'
  end.

(** [filepath.Base] *)
Definition Base (path : string) : string :=
  if isEmpty path then "."
  else let p := TrimRight path in
       if isEmpty p then "/" else List.last (Split p) EmptyString.

(** [filepath.Ext]: from the last dot of the last element on. *)
Fixpoint Ext (path : string) : string :=
  match path with
  | EmptyString => EmptyString
  | String c s' =>
      if negb (isEmpty (Ext s')) then Ext s'
      else if hasSep s' then EmptyString
      else if Ascii.eqb c "." then path
      else EmptyString
  end.

End Go.

(** ** The data model *)

(** [Path]: each directory or file is an item of the slice. *)
Definition Path := list string.

(** [Meta], the metadata of a request and of a response. *)
Record Meta := mkMeta {
  Meta_ID : Z;
  Meta_Action : string;
  Meta_FS : string;
  Meta_Path : Path }.

(** [parse.Log] *)
Record Log := mkLog {
  Log_Msg : string;
  Log_Level : string;
  Log_Time : option Z;
  Log_FS : string;
  Log_FileName : string;
  Log_Line : Z;
  Log_Offset : Z }.

Record TimeRange := mkTimeRange {
  Start : option Z;
  End_ : option Z }.

(** [Request]; [filterSourceMap] is what [Init] fills in. *)
Record Request := mkRequest {
  Request_Meta : Meta;
  Request_Path : Path;
  Request_Regexp : string;
  FilterSource : list string;
  FilterTime : TimeRange;
  filterSourceMap : gmap string bool }.

Record FileInstance := mkFileInstance {
  Size : Z;
  FileInstance_FS : string }.

(** [File]: a file in several file systems. *)
Record File := mkFile {
  Key : string;
  File_Path : Path;
  IsDir : bool;
  Instances : list FileInstance }.

(** A [*File] or a [*Response] is an index into the store. *)
Abbreviation loc := nat (only parsing).

(** [Response]; [Files] is a slice of pointers. *)
Record Response := mkResponse {
  Response_Meta : Meta;
  Lines : list Log;
  Files : list loc;
  Error : string;
  Finished : bool }.

#[global] Instance Meta_inhabited : Inhabited Meta :=
  populate (mkMeta 0 "" "" []).
#[global] Instance File_inhabited : Inhabited File :=
  populate (mkFile "" [] false []).
#[global] Instance Response_inhabited : Inhabited Response :=
  populate (mkResponse inhabitant [] [] "" false).

(** [Config], the global configuration. *)
Record Config := mkConfig {
  ContentBatchSize : Z;
  ContentBatchTime : Z;
  SearchMaxSize : Z;
  CacheExpiration : Z;
  ExcludeExtensions : list string;
  ExcludeDirs : list string }.

Definition defaultContentBatchSize : Z := 2000.
Definition defaultContentBatchTime : Z := 2 * 1000000000.
Definition defaultSearchMaxSize : Z := 5000.

(** Maps from names to [bool], as [sourceSet] and [list2Map] build them. *)
Definition sourceSet (sourceList : list string) : gmap string bool :=
  foldl (fun m node => <[node := true]> m) ∅ sourceList.

Definition list2Map (l : list string) : gmap string bool :=
  foldl (fun m s => <[s := true]> m) ∅ l.

(** [m[k]] on a [map[string]bool]: [false] when the key is missing. *)
Definition mapGet (m : gmap string bool) (k : string) : bool :=
  default false (m !! k).

(** [_, ok := m[k]] *)
Definition mapHas (m : gmap string bool) (k : string) : bool :=
  bool_decide (is_Some (m !! k)).

(** [len(m) == 0] *)
Definition mapIsEmpty (m : gmap string bool) : bool :=
  bool_decide (m = ∅).

Definition Init (r : Request) : Request :=
  mkRequest (Request_Meta r) (Request_Path r) (Request_Regexp r)
            (FilterSource r) (FilterTime r) (sourceSet (FilterSource r)).

(** [filterOutTime]: the start bound is looked at first, and decides alone
    when it is set. *)
Definition filterOutTime (line : Log) (timeRange : TimeRange) : bool :=
  match Start timeRange with
  | Some start =>
      match Log_Time line with
      | None => true
      | Some t => Go.After start t
      end
  | None =>
      match End_ timeRange with
      | Some e =>
          match Log_Time line with
          | None => true
          | Some t => Go.Before e t
          end
      | None => false
      end
  end.

(** ** Collaborators

    The regular expressions of Go's [regexp] package, [filepath.Join], and
    the memory a parser keeps between the lines of one file
    ([parse.Memory]) are taken as given. *)
Class Collaborators := {
  Memory : Type;
  newMemory : Memory;
  Regexp : Type;
  regexp_Compile : string -> Regexp + string;
  MatchString : Regexp -> string -> bool;
  filepath_Join : list string -> string }.

(** ** Sources *)

(** What [Lstat] tells of a path. *)
Record FileInfo := mkFileInfo {
  fi_Size : Z;
  fi_IsDir : bool }.

(** What a [bufio.Scanner] delivers from an opened file: the lines it
    yields one [Scan] after the other, and whether [Err] is set once
    [Scan] has returned false (a read error, or a line beyond the buffer's
    limit of 1 MiB). *)
Record Scanned := mkScanned {
  scan_lines : list string;
  scan_err : bool }.

(** What the walker of [github.com/kr/fs] finds below a root: an item
    with its path, its [FileInfo] ([None]: the item carries an error) and,
    for a directory, what [ReadDir] lists in it ([None]: [ReadDir]
    failed). *)
#[warnings="-register-all"]
Inductive WalkTree :=
| WItem (path : string) (info : option FileInfo)
        (entries : option (list WalkTree)).

(** The capabilities of a source's file system. *)
Record FileSystem := mkFileSystem {
  FS_Join : list string -> string;
  FS_Lstat : string -> option FileInfo;
  FS_Open : string -> option Scanned;
  FS_Walk : string -> WalkTree }.

Record Source := mkSource {
  Name : string;
  Source_FS : FileSystem }.

(** ** A goroutine's view of the effects

    [cancelAfter = Some n]: the context is seen cancelled from the
    [n+1]-st call of [ctx.Err()] on; [None]: never.  [clock] lists what
    [time.Now()] reads, call after call. *)
Record Task := mkTask {
  cancelAfter : option nat;
  clock : nat -> Z;
  tick : nat }.

(** [ctx.Err() != nil] *)
Definition ctxErr (t : Task) : bool * Task :=
  match cancelAfter t with
  | None => (false, t)
  | Some O => (true, t)
  | Some (S n) => (false, mkTask (Some n) (clock t) (tick t))
  end.

(** [time.Now()] *)
Definition timeNow (t : Task) : Z * Task :=
  (clock t (tick t), mkTask (cancelAfter t) (clock t) (S (tick t))).

(** ** The handler *)
Section Engine.
Context `{Collaborators}.

Record handler := mkHandler {
  h_Config : Config;
  h_source : list Source;
  h_parse : string -> string -> Memory -> Log * Memory;
  excludeDirs : gmap string bool;
  excludeExtensions : gmap string bool }.

(** [New]: the defaults of the configuration. *)
Definition New (c : Config) (source : list Source)
    (parser : string -> string -> Memory -> Log * Memory) : handler :=
  let c1 := if ContentBatchSize c =? 0
            then mkConfig defaultContentBatchSize (ContentBatchTime c)
                   (SearchMaxSize c) (CacheExpiration c)
                   (ExcludeExtensions c) (ExcludeDirs c)
            else c in
  let c2 := if ContentBatchTime c1 =? 0
            then mkConfig (ContentBatchSize c1) defaultContentBatchTime
                   (SearchMaxSize c1) (CacheExpiration c1)
                   (ExcludeExtensions c1) (ExcludeDirs c1)
            else c1 in
  let c3 := if SearchMaxSize c2 =? 0
            then mkConfig (ContentBatchSize c2) (ContentBatchTime c2)
                   defaultSearchMaxSize (CacheExpiration c2)
                   (ExcludeExtensions c2) (ExcludeDirs c2)
            else c2 in
  mkHandler c3 source parser (list2Map (ExcludeDirs c3))
            (list2Map (ExcludeExtensions c3)).

(** *** The reader *)

(** The variables of [read]. *)
Record reader := mkReader {
  logLines : list Log;
  lastRespTime : Z;
  lineNumber : Z;
  fileOffset : Z;
  sentAny : bool;
  parserMemory : Memory }.

(** How an iteration of a loop ends: with the next one, or by returning
    from the function. *)
Inductive flow := Next | Return.

(** [re != nil && !re.MatchString(msg)] *)
Definition noMatch (re : option Regexp) (msg : string) : bool :=
  match re with
  | Some r => negb (MatchString r msg)
  | None => false
  end.

(** The body of the loop of [read], for one line the scanner yields. *)
Definition scanLine (h : handler) (req : Request) (nodeName path : string)
    (respMeta : Meta) (re : option Regexp) (bytes : string)
    (r : reader) (t : Task) : flow * reader * Task * list Response :=
  let '(cancelled, t) := ctxErr t in
  if cancelled then (Return, r, t, [])
  else
    let '(parsed, mem) := h_parse h path bytes (parserMemory r) in
    if noMatch re (Log_Msg parsed) then
      (Next,
       mkReader (logLines r) (lastRespTime r) (Go.add (lineNumber r) 1)
                (Go.add (fileOffset r) (Go.lenBytes bytes)) (sentAny r) mem,
       t, [])
    else
      let line := mkLog (Log_Msg parsed) (Log_Level parsed) (Log_Time parsed)
                        nodeName path (lineNumber r) (fileOffset r) in
      if filterOutTime line (FilterTime req) then
        (Next,
         mkReader (logLines r) (lastRespTime r) (lineNumber r) (fileOffset r)
                  (sentAny r) mem,
         t, [])
      else
        let lines := logLines r ++ [line] in
        let n := Go.add (lineNumber r) 1 in
        let off := Go.add (fileOffset r) (Go.lenBytes bytes) in
        let '(due, t) :=
          if ContentBatchSize (h_Config h) <? Go.len lines then (true, t)
          else let '(now, t) := timeNow t in
               (ContentBatchTime (h_Config h) <? Go.Sub now (lastRespTime r),
                t) in
        let '(r', t, out) :=
          if due : bool then
            let '(now, t) := timeNow t in
            (mkReader [] now n off true mem, t,
             [mkResponse respMeta lines [] "" false])
          else
            (mkReader lines (lastRespTime r) n off (sentAny r) mem, t, []) in
        if bool_decide (is_Some re)
           && (SearchMaxSize (h_Config h) <? Go.len (logLines r'))
        then (Return, r', t, out)
        else (Next, r', t, out).

(** [for scanner.Scan() { ... }] over the lines the scanner yields. *)
Fixpoint scanLoop (h : handler) (req : Request) (nodeName path : string)
    (respMeta : Meta) (re : option Regexp) (lines : list string)
    (r : reader) (t : Task) : flow * reader * Task * list Response :=
  match lines with
  | [] => (Next, r, t, [])
  | bytes :: rest =>
      let '(f, r1, t1, out1) :=
        scanLine h req nodeName path respMeta re bytes r t in
      match f with
      | Return => (Return, r1, t1, out1)
      | Next =>
          let '(f2, r2, t2, out2) :=
            scanLoop h req nodeName path respMeta re rest r1 t1 in
          (f2, r2, t2, out1 ++ out2)
      end
  end.

(** The [Meta] of the responses of [read]. *)
Definition readMeta (req : Request) (nodeName path : string) : Meta :=
  let p := Go.Split path in
  mkMeta (Meta_ID (Request_Meta req)) (Meta_Action (Request_Meta req))
         nodeName
         (match p with
          | first :: rest => if Go.isEmpty first then rest else p
          | [] => p
          end).

(** What [read] does once the scanner is exhausted. *)
Definition readEnd (respMeta : Meta) (re : option Regexp) (err : bool)
    (r : reader) : list Response :=
  if err then []
  else if (Go.len (logLines r) =? 0)
          && (sentAny r || bool_decide (is_Some re))
  then []
  else [mkResponse respMeta (logLines r) [] "" false].

(** [read]: the responses it sends, in order. *)
Definition read (h : handler) (req : Request) (node : Source)
    (path : string) (re : option Regexp) (t : Task)
    : list Response * Task :=
  match FS_Lstat (Source_FS node) path with
  | None => ([], t)
  | Some stat =>
      if fi_IsDir stat then ([], t)
      else
        match FS_Open (Source_FS node) path with
        | None => ([], t)
        | Some sc =>
            let '(now, t) := timeNow t in
            let respMeta := readMeta req (Name node) path in
            let r0 := mkReader [] now 1 0 false newMemory in
            let '(f, r, t, out) :=
              scanLoop h req (Name node) path respMeta re (scan_lines sc)
                       r0 t in
            match f with
            | Return => (out, t)
            | Next => (out ++ readEnd respMeta re (scan_err sc) r, t)
            end
        end
  end.

(** *** Walking a source *)

(** [recurseTree]: the loop over [walker.Step()], by recursion on what the
    walker finds.  The walker yields the items in preorder and descends
    into a directory unless the item carries an error or [SkipDir] was
    called on it; a directory whose [ReadDir] fails is yielded a second
    time, with the error.  [f] is the function called on the items that
    pass the exclusion policy. *)
Fixpoint recurseItem {Out : Type} (h : handler)
    (f : string -> FileInfo -> Task -> list Out * Task)
    (w : WalkTree) (t : Task) {struct w} : flow * Task * list Out :=
  match w with
  | WItem p info entries =>
      let '(cancelled, t) := ctxErr t in
      if cancelled then (Return, t, [])
      else
        match info with
        | None => (Next, t, [])
        | Some st =>
            if fi_IsDir st then
              if mapHas (excludeDirs h) (Go.Base p) then (Next, t, [])
              else
                let '(out, t) := f p st t in
                match entries with
                | None =>
                    let '(cancelled, t) := ctxErr t in
                    if cancelled then (Return, t, out) else (Next, t, out)
                | Some l =>
                    let '(fl, t, out') :=
                      (fix recurseItems (l : list WalkTree) (t : Task)
                         : flow * Task * list Out :=
                         match l with
                         | [] => (Next, t, [])
                         | w' :: l' =>
                             let '(fl1, t1, out1) := recurseItem h f w' t in
                             match fl1 with
                             | Return => (Return, t1, out1)
                             | Next =>
                                 let '(fl2, t2, out2) := recurseItems l' t1 in
                                 (fl2, t2, out1 ++ out2)
                             end
                         end) l t in
                    (fl, t, out ++ out')
                end
            else
              if mapHas (excludeExtensions h) (Go.Ext p) then (Next, t, [])
              else let '(out, t) := f p st t in (Next, t, out)
        end
  end.

(** The loop over the entries of a directory, as [recurseItem] runs it. *)
Definition recurseItems {Out : Type} (h : handler)
    (f : string -> FileInfo -> Task -> list Out * Task)
    : list WalkTree -> Task -> flow * Task * list Out :=
  fix recurseItems (l : list WalkTree) (t : Task) : flow * Task * list Out :=
    match l with
    | [] => (Next, t, [])
    | w' :: l' =>
        let '(fl1, t1, out1) := recurseItem h f w' t in
        match fl1 with
        | Return => (Return, t1, out1)
        | Next =>
            let '(fl2, t2, out2) := recurseItems l' t1 in
            (fl2, t2, out1 ++ out2)
        end
    end.

Definition recurseTree {Out : Type} (h : handler) (path : string)
    (src : Source) (f : string -> FileInfo -> Task -> list Out * Task)
    (t : Task) : list Out * Task :=
  let '(_, t', out) := recurseItem h f (FS_Walk (Source_FS src) path) t in
  (out, t').

(** The function [srcTree] passes to [recurseTree]: the call of [c.add]
    it makes, if any. *)
Definition srcTreeVisit (src : Source) (p : string) (st : FileInfo)
    (t : Task) : list (File * FileInstance) * Task :=
  let key := Go.Trim p in
  if Go.isEmpty key then ([], t)
  else ([(mkFile key (Go.Split key) (fi_IsDir st) [],
          mkFileInstance (fi_Size st) (Name src))], t).

(** [srcTree]: the calls of [c.add] one source makes, in order. *)
Definition srcTree (h : handler) (req : Request) (src : Source) (t : Task)
    : list (File * FileInstance) * Task :=
  recurseTree h (FS_Join (Source_FS src) (Request_Path req)) src
              (srcTreeVisit src) t.

(** *** Interleaving

    [merge sched ls]: the goroutine [i] of [sched] takes its next step, for
    every [i] in turn; what is left when the schedule ends runs to the end,
    one goroutine after the other. *)
Fixpoint merge {A : Type} (sched : list nat) (ls : list (list A)) : list A :=
  match sched with
  | [] => concat ls
  | i :: sched' =>
      match ls !! i with
      | Some (x :: xs) => x :: merge sched' (<[i := xs]> ls)
      | _ => merge sched' ls
      end
  end.

(** The interleavings of the steps of the goroutines: at every point one
    goroutine that has a step left takes it. *)
Inductive Interleaving {A : Type} : list (list A) -> list A -> Prop :=
| Interleaving_done ls :
    Forall (fun l => l = []) ls -> Interleaving ls []
| Interleaving_step ls i x xs l :
    ls !! i = Some (x :: xs) ->
    Interleaving (<[i := xs]> ls) l ->
    Interleaving ls (x :: l).

(** What the goroutines of one request see and how they are scheduled. *)
Record Env := mkEnv {
  tasks : nat -> Task;
  sched : list nat }.

(** *** The combiner and the store *)

(** The objects behind the pointers, and the tree cache (a key is live
    while it has an entry). *)
Record Store := mkStore {
  files : list File;
  responses : list Response;
  cache : gmap string loc }.

Record combiner := mkCombiner {
  c_files : list loc;
  c_index : gmap string loc }.

Definition newCombiner : combiner := mkCombiner [] ∅.

Definition appendInstance (instance : FileInstance) (f : File) : File :=
  mkFile (Key f) (File_Path f) (IsDir f) (Instances f ++ [instance]).

(** [combiner.add], on the heap of [File] objects. *)
Definition add (f : File) (instance : FileInstance)
    (ch : combiner * list File) : combiner * list File :=
  let '(c, heap) := ch in
  let '(c1, heap1) :=
    match c_index c !! Key f with
    | None =>
        let l := length heap in
        (mkCombiner (c_files c ++ [l]) (<[Key f := l]> (c_index c)),
         heap ++ [f])
    | Some _ => (c, heap)
    end in
  match c_index c1 !! Key f with
  | Some l => (c1, alter (appendInstance instance) l heap1)
  | None => (c1, heap1)
  end.

Definition addAll (ops : list (File * FileInstance))
    (ch : combiner * list File) : combiner * list File :=
  foldl (fun ch op => add (fst op) (snd op) ch) ch ops.

(** [File.FilterSources]: the receiver is a copy; [None] is [nil]. *)
Definition File_FilterSources (f : File) (sources : gmap string bool)
    : option File :=
  let instances :=
    List.filter (fun i => mapGet sources (FileInstance_FS i)) (Instances f) in
  if Go.len instances =? 0 then None
  else Some (mkFile (Key f) (File_Path f) (IsDir f) instances).

(** The loop of [Response.FilterSources]: every file that is kept is a
    new object. *)
Fixpoint filterFiles (sources : gmap string bool) (ptrs : list loc)
    (heap : list File) : list loc * list File :=
  match ptrs with
  | [] => ([], heap)
  | p :: rest =>
      match File_FilterSources (heap !!! p) sources with
      | Some f =>
          let l := length heap in
          let '(ls, heap') := filterFiles sources rest (heap ++ [f]) in
          (l :: ls, heap')
      | None => filterFiles sources rest heap
      end
  end.

(** [Response.FilterSources]: the receiver is a copy, and the copy is what
    the result points to. *)
Definition Response_FilterSources (r : Response)
    (sources : gmap string bool) (heap : list File)
    : Response * list File :=
  if mapIsEmpty sources then (r, heap)
  else
    let '(fs, heap') := filterFiles sources (Files r) heap in
    (mkResponse (Response_Meta r) (Lines r) fs (Error r) (Finished r),
     heap').

Definition withID (id : Z) (r : Response) : Response :=
  mkResponse (mkMeta id (Meta_Action (Response_Meta r))
                     (Meta_FS (Response_Meta r)) (Meta_Path (Response_Meta r)))
             (Lines r) (Files r) (Error r) (Finished r).

(** *** The handlers of the three actions *)

(** [serveTree].  [cache.Get] succeeds on the keys that have an entry;
    [cache.Set] stores the pointer. *)
Definition serveTree (h : handler) (req : Request) (env : Env) (st : Store)
    : list Response * Store :=
  let cacheKey := filepath_Join (Request_Path req) in
  let '(resp, st1) :=
    match cache st !! cacheKey with
    | Some l => (l, st)
    | None =>
        let ops :=
          merge (sched env)
                (imap (fun i src => fst (srcTree h req src (tasks env i)))
                      (h_source h)) in
        let '(c, heap) := addAll ops (newCombiner, files st) in
        let l := length (responses st) in
        (l, mkStore heap
                    (responses st
                       ++ [mkResponse (Request_Meta req) [] (c_files c) ""
                                      false])
                    (<[cacheKey := l]> (cache st)))
    end in
  let '(r, heap) :=
    Response_FilterSources (responses st1 !!! resp) (filterSourceMap req)
                           (files st1) in
  let r := withID (Meta_ID (Request_Meta req)) r in
  ([r], mkStore heap (responses st1 ++ [r]) (cache st1)).

(** [filterSources] *)
Definition filterSources (sources : list Source)
    (filter : gmap string bool) : list Source :=
  if mapIsEmpty filter then sources
  else List.filter (fun src => mapGet filter (Name src)) sources.

Definition serveContent (h : handler) (req : Request) (env : Env)
    : list Response :=
  let sources := filterSources (h_source h) (filterSourceMap req) in
  merge (sched env)
        (imap (fun i src =>
                 fst (read h req src
                           (FS_Join (Source_FS src) (Request_Path req))
                           None (tasks env i)))
              sources).

Definition searchNode (h : handler) (req : Request) (node : Source)
    (path : string) (re : Regexp) (t : Task) : list Response * Task :=
  recurseTree h path node (fun p _ t => read h req node p (Some re) t) t.

(** [fmt.Sprintf("Bad regexp %s: %s", req.Regexp, err)] *)
Definition badRegexp (re err : string) : string :=
  ("Bad regexp " ++ re ++ ": " ++ err)%string.

Definition search (h : handler) (req : Request) (env : Env)
    : list Response :=
  match regexp_Compile (Request_Regexp req) with
  | inr err =>
      [mkResponse (Request_Meta req) [] []
                  (badRegexp (Request_Regexp req) err) false]
  | inl re =>
      let nodes := filterSources (h_source h) (filterSourceMap req) in
      merge (sched env)
            (imap (fun i node =>
                     fst (searchNode h req node
                            (FS_Join (Source_FS node) (Request_Path req))
                            re (tasks env i)))
                  nodes)
  end.

(** The terminal marker. *)
Definition finishedResponse (req : Request) : Response :=
  mkResponse (Request_Meta req) [] [] "" true.

(** [serve]: what the handler of one request sends, in order, and the
    store it leaves. *)
Definition serve (h : handler) (req : Request) (env : Env) (st : Store)
    : list Response * Store :=
  let '(out, st') :=
    if String.eqb (Meta_Action (Request_Meta req)) "get-file-tree"
    then serveTree h req env st
    else if String.eqb (Meta_Action (Request_Meta req)) "get-content"
    then (serveContent h req env, st)
    else if String.eqb (Meta_Action (Request_Meta req)) "search"
    then (search h req env, st)
    else ([], st) in
  (out ++ [finishedResponse req], st').

End Engine.

(** ** Reference definitions, to state the properties against *)
Section Reference.
Context `{Collaborators}.

(** One line of a file for a reader without batching, cancellation and
    clock: the record it keeps, if the line passes the regular expression
    and the time filter, and the parser's memory, the line number and the
    offset for the next line. *)
Definition keepLine (h : handler) (req : Request) (nodeName path : string)
    (re : option Regexp) (bytes : string) (mem : Memory) (n off : Z)
    : option Log * (Memory * Z * Z) :=
  let '(parsed, mem') := h_parse h path bytes mem in
  if noMatch re (Log_Msg parsed) then
    (None, (mem', Go.add n 1, Go.add off (Go.lenBytes bytes)))
  else
    let line := mkLog (Log_Msg parsed) (Log_Level parsed) (Log_Time parsed)
                      nodeName path n off in
    if filterOutTime line (FilterTime req) then (None, (mem', n, off))
    else (Some line, (mem', Go.add n 1, Go.add off (Go.lenBytes bytes))).

(** The records such a reader keeps of the lines of a file. *)
Fixpoint keptLines (h : handler) (req : Request) (nodeName path : string)
    (re : option Regexp) (lines : list string) (mem : Memory)
    (n off : Z) : list Log :=
  match lines with
  | [] => []
  | bytes :: rest =>
      let '(kept, (mem', n', off')) :=
        keepLine h req nodeName path re bytes mem n off in
      option_list kept
        ++ keptLines h req nodeName path re rest mem' n' off'
  end.

(** What the parser returns for the lines of a file, one after the other. *)
Fixpoint parsedLines (h : handler) (path : string) (lines : list string)
    (mem : Memory) : list Log :=
  match lines with
  | [] => []
  | bytes :: rest =>
      let '(parsed, mem') := h_parse h path bytes mem in
      parsed :: parsedLines h path rest mem'
  end.

(** The lines of all the responses of a trace, in order. *)
Definition allLines (out : list Response) : list Log :=
  concat (map Lines out).

(** The items of a walk that pass the exclusion policy, in the walker's
    order: an item with an error is skipped and not entered, a directory
    whose base name is excluded is pruned, a file whose extension is
    excluded is skipped. *)
Fixpoint visited (h : handler) (w : WalkTree) {struct w}
    : list (string * FileInfo) :=
  match w with
  | WItem p info entries =>
      match info with
      | None => []
      | Some st =>
          if fi_IsDir st then
            if mapHas (excludeDirs h) (Go.Base p) then []
            else (p, st) ::
                 match entries with
                 | None => []
                 | Some l =>
                     (fix visitedAll (l : list WalkTree) :=
                        match l with
                        | [] => []
                        | w' :: l' => visited h w' ++ visitedAll l'
                        end) l
                 end
          else if mapHas (excludeExtensions h) (Go.Ext p) then []
          else [(p, st)]
      end
  end.

(** The visited items of the entries of a directory, as [visited] lists
    them. *)
Definition visitedAll (h : handler) : list WalkTree -> list (string * FileInfo) :=
  fix visitedAll (l : list WalkTree) :=
    match l with
    | [] => []
    | w' :: l' => visited h w' ++ visitedAll l'
    end.

(** The keys one source contributes to the tree below the request's path,
    with the instance of each: the visited items whose key is not empty. *)
Definition walked (h : handler) (req : Request) (src : Source)
    : list (string * FileInstance) :=
  omap (fun it : string * FileInfo =>
          let key := Go.Trim (fst it) in
          if Go.isEmpty key then None
          else Some (key, mkFileInstance (fi_Size (snd it)) (Name src)))
       (visited h (FS_Walk (Source_FS src)
                           (FS_Join (Source_FS src) (Request_Path req)))).

Definition walkedKeys (h : handler) (req : Request) (src : Source)
    : list string :=
  map fst (walked h req src).

(** The calls of [c.add] one source makes when it is not cancelled: one
    for every visited item whose key is not empty. *)
Definition walkedOps (h : handler) (req : Request) (src : Source)
    : list (File * FileInstance) :=
  concat (map (fun it : string * FileInfo =>
                 fst (srcTreeVisit src (fst it) (snd it)
                                   (mkTask None (fun _ => 0) 0)))
              (visited h (FS_Walk (Source_FS src)
                                  (FS_Join (Source_FS src)
                                           (Request_Path req))))).

(** The combiner on values: where the file with a key is, the file with a
    key, and the list of files after one call of [add] and after all. *)
Fixpoint position (k : string) (fl : list File) : option nat :=
  match fl with
  | [] => None
  | f :: fl' =>
      if String.eqb (Key f) k then Some 0%nat else S <$> position k fl'
  end.

Definition fileOf (k : string) (fl : list File) : option File :=
  match position k fl with
  | Some j => fl !! j
  | None => None
  end.

Definition addPure (fl : list File) (op : File * FileInstance) : list File :=
  match position (Key (fst op)) fl with
  | Some j => alter (appendInstance (snd op)) j fl
  | None => fl ++ [appendInstance (snd op) (fst op)]
  end.

Definition combine (ops : list (File * FileInstance)) : list File :=
  foldl addPure [] ops.

(** The combiner on the heap and the combiner on values: the files of the
    combiner are the objects allocated since it was made, in order. *)
Definition represents (heap0 : list File) (ch : combiner * list File)
    (fl : list File) : Prop :=
  snd ch = heap0 ++ fl
  /\ c_files (fst ch) = seq (length heap0) (length fl)
  /\ forall k, c_index (fst ch) !! k
               = (fun j => (length heap0 + j)%nat) <$> position k fl.

(** The instances added under a key, in the order of the calls. *)
Definition instancesOf (k : string) (ops : list (File * FileInstance))
    : list FileInstance :=
  map snd (List.filter (fun op => String.eqb (Key (fst op)) k) ops).

(** The instances a source has for a key. *)
Definition instancesIn (k : string) (w : list (string * FileInstance))
    : list FileInstance :=
  map snd (List.filter (fun e => String.eqb (fst e) k) w).

(** [Response.FilterSources] on values. *)
Definition filterTree (sources : gmap string bool) (fl : list File)
    : list File :=
  if mapIsEmpty sources then fl
  else omap (fun f => File_FilterSources f sources) fl.

(** The time filter with both bounds applied: a line is dropped when
    [start] is set and the line has no time or is before it, and when [end]
    is set and the line has no time or is after it. *)
Definition outsideBounds (line : Log) (timeRange : TimeRange) : bool :=
  match Start timeRange with
  | Some s =>
      match Log_Time line with None => true | Some t => t <? s end
  | None => false
  end
  || match End_ timeRange with
     | Some e =>
         match Log_Time line with None => true | Some t => e <? t end
     | None => false
     end.

(** A source passes [filter_fs] when the filter is empty or names it. *)
Definition passes (filter : gmap string bool) (name : string) : bool :=
  mapIsEmpty filter || mapGet filter name.

(** A response as it is written to the client: the files behind the
    pointers, read from the store. *)
Definition tree (st : Store) (r : Response) : list File :=
  map (fun p => files st !!! p) (Files r).

(** The invariant of the store: what the cache points to is a response of
    [serveTree] (no lines, no error, not the terminal marker) whose files
    are in the store. *)
Definition StoreOK (st : Store) : Prop :=
  forall k l, cache st !! k = Some l ->
    exists r, responses st !! l = Some r
              /\ Finished r = false /\ Lines r = [] /\ Error r = ""
              /\ Forall (fun p => (p < length (files st))%nat) (Files r).

(** A response of [read]: a batch of lines under the [Meta] of the file and
    nothing else. *)
Definition ofRead (req : Request) (node : Source) (path : string)
    (x : Response) : Prop :=
  exists batch,
    x = mkResponse (readMeta req (Name node) path) batch [] "" false.

(** A task that is never cancelled. *)
Definition neverCancelled (t : Task) : Prop := cancelAfter t = None.

(** The bytes of the lines of a file. *)
Definition totalBytes (lines : list string) : Z :=
  fold_right (fun s acc => Go.lenBytes s + acc) 0 lines.

End Reference.

(** ** The connection and the program around the engine *)
Section Connection.
Context `{Collaborators}.

(** One request of a connection as [ServeHTTP] serves it: the request as
    it is read, what the goroutines of its handler see, and the store its
    handler finds when it looks into the cache (the objects the cache leads
    to are not written to once they are in the cache, so what a handler
    sends depends on the store at that moment only). *)
Record Serving := mkServing {
  sv_request : Request;
  sv_env : Env;
  sv_store : Store }.

(** [ServeHTTP]: the loop reads the requests one after the other, calls
    [Init] on each and serves it in a goroutine of its own, without waiting
    for the handlers of the requests before; all handlers send on the one
    channel, which is closed when all of them are done.  What is written
    to the connection is a merge of what the handlers send. *)
Definition ServeHTTP (h : handler) (servings : list Serving)
    (schedule : list nat) : list Response :=
  merge schedule
        (map (fun s => fst (serve h (Init (sv_request s)) (sv_env s)
                                  (sv_store s)))
             servings).

(** A function for [recurseTree] that records the items it is called
    on. *)
Definition recordItem (p : string) (st : FileInfo) (t : Task)
    : list (string * FileInfo) * Task :=
  ([(p, st)], t).

(** The exclusion policy, for one item. *)
Definition allowed (h : handler) (it : string * FileInfo) : bool :=
  if fi_IsDir (snd it)
  then negb (mapHas (excludeDirs h) (Go.Base (fst it)))
  else negb (mapHas (excludeExtensions h) (Go.Ext (fst it))).

End Connection.

(** ** The program (main.go) *)
Module Main.

(** Of [source.Config] and [dynamic.Config] the program reads the field
    [OpenJournal] only. *)
Record source_Config := mkSourceConfig {
  src_OpenJournal : string }.

Record dynamic_Config := mkDynamicConfig {
  dyn_OpenJournal : string }.

Record config := mkMainConfig {
  Global : Config;
  Sources : list source_Config;
  Dynamic : dynamic_Config }.

(** The loop of [journal] over the sources. *)
Fixpoint sourcesJournal (srcs : list source_Config) : string :=
  match srcs with
  | [] => ""
  | src :: rest =>
      if negb (Go.isEmpty (src_OpenJournal src)) then src_OpenJournal src
      else sourcesJournal rest
  end.

(** [config.journal] *)
Definition journal (c : config) : string :=
  if negb (Go.isEmpty (dyn_OpenJournal (Dynamic c)))
  then dyn_OpenJournal (Dynamic c)
  else sourcesJournal (Sources c).

End Main.

(** ** A small installation, to run the handlers on *)
Module Example.

(** Patterns are matched as substrings; the pattern "(" does not compile. *)
Definition compile (s : string) : string + string :=
  if String.eqb s "(" then inr "missing closing )" else inl s.

Definition matches (re msg : string) : bool :=
  match String.index 0 re msg with Some _ => true | None => false end.

Definition collaborators : Collaborators :=
  {| Memory := unit;
     newMemory := tt;
     Regexp := string;
     regexp_Compile := compile;
     MatchString := matches;
     filepath_Join := String.concat "/" |}.

(** A parser that takes the line as the message, and a leading digit as
    the time of the line. *)
Definition digit (c : ascii) : option Z :=
  let n := Z.of_nat (nat_of_ascii c) in
  if (48 <=? n) && (n <=? 57) then Some (n - 48) else None.

Definition parser (path bytes : string) (m : unit) : Log * unit :=
  (mkLog bytes ""
         (match bytes with String c _ => digit c | EmptyString => None end)
         "" "" 0 0, m).

Definition config : Config := mkConfig 0 0 0 0 [".gz"] [".git"].

Definition file (size : Z) : option FileInfo := Some (mkFileInfo size false).
Definition dir : option FileInfo := Some (mkFileInfo 4096 true).

(** A source with the files [a.log] (two lines) and [b.log] (empty). *)
Definition fs1 : FileSystem :=
  {| FS_Join := String.concat "/";
     FS_Lstat := fun p =>
       if String.eqb p "a.log" then file 7
       else if String.eqb p "b.log" then file 0
       else if String.eqb p "" then dir
       else None;
     FS_Open := fun p =>
       if String.eqb p "a.log" then Some (mkScanned ["1 up"; "5 down"] false)
       else if String.eqb p "b.log" then Some (mkScanned [] false)
       else None;
     FS_Walk := fun p =>
       WItem "" dir (Some [WItem "a.log" (file 7) None;
                           WItem "b.log" (file 0) None]) |}.

(** A source with [a.log] (one line) only. *)
Definition fs2 : FileSystem :=
  {| FS_Join := String.concat "/";
     FS_Lstat := fun p =>
       if String.eqb p "a.log" then file 3
       else if String.eqb p "" then dir
       else None;
     FS_Open := fun p =>
       if String.eqb p "a.log" then Some (mkScanned ["3 up"] false)
       else None;
     FS_Walk := fun p => WItem "" dir (Some [WItem "a.log" (file 3) None]) |}.

(** A source of plain files: [c.log], whose third line is beyond the
    scanner's limit, [big.log], of 6000 lines, and [five.log], of five. *)
Definition lstat3 (p : string) : option FileInfo :=
  if String.eqb p "c.log" then file 2000000
  else if String.eqb p "big.log" then file 12000
  else if String.eqb p "five.log" then file 10
  else None.

Definition fs3 : FileSystem :=
  {| FS_Join := String.concat "/";
     FS_Lstat := lstat3;
     FS_Open := fun p =>
       if String.eqb p "c.log" then Some (mkScanned ["a"; "b"] true)
       else if String.eqb p "big.log"
       then Some (mkScanned (repeat "x" (Z.to_nat 6000)) false)
       else if String.eqb p "five.log"
       then Some (mkScanned (repeat "x" 5) false)
       else None;
     FS_Walk := fun p => WItem p (lstat3 p) None |}.

Definition node1 : Source := mkSource "node1" fs1.
Definition node3 : Source := mkSource "node3" fs3.
Definition node2 : Source := mkSource "node2" fs2.

Definition h : handler (H := collaborators) :=
  New (H := collaborators) config [node1; node2] parser.

Definition h3 : handler (H := collaborators) :=
  New (H := collaborators) config [node3] parser.

(** A configuration whose batches are larger than the cap of a search. *)
Definition configCap : Config := mkConfig 10 0 3 0 [] [].

Definition hCap : handler (H := collaborators) :=
  New (H := collaborators) configCap [node3] parser.

Definition free : Task := mkTask None (fun _ => 0) 0.
Definition cancelled : Task := mkTask (Some 0%nat) (fun _ => 0) 0.

Definition env : Env := mkEnv (fun _ => free) [].
Definition envCancelled : Env := mkEnv (fun _ => cancelled) [].

Definition emptyStore : Store := mkStore [] [] ∅.

Definition request (id : Z) (action : string) (path : Path) (re : string)
    (filter : list string) (range : TimeRange) : Request :=
  Init (mkRequest (mkMeta id action "" []) path re filter range ∅).

Definition noRange : TimeRange := mkTimeRange None None.
Definition from3 : TimeRange := mkTimeRange (Some 3) None.

(** The reader at the start of a file opened at time 0. *)
Definition reader0 : reader (H := collaborators) :=
  mkReader (H := collaborators) [] 0 1 0 false tt.

(** A task that is cancelled after its second check, and tasks that are
    cancelled after their first. *)
Definition late : Task := mkTask (Some 2%nat) (fun _ => 0) 0.
Definition envLate : Env := mkEnv (fun _ => late) [1%nat; 0%nat].
Definition early : Task := mkTask (Some 1%nat) (fun _ => 0) 0.

(** A task that is cancelled after its 2500th check, and a task that is
    never cancelled and whose clock advances by three seconds at every
    reading. *)
Definition cancelledLate : Task :=
  mkTask (Some (Z.to_nat 2500)) (fun _ => 0) 0.
Definition ticking : Task :=
  mkTask None (fun n => Z.of_nat n * 3000000000) 0.

(** A heap with the files of a tree, and a response that points to
    them. *)
Definition heap2 : list File :=
  [mkFile "a.log" ["a.log"] false
          [mkFileInstance 7 "node1"; mkFileInstance 3 "node2"];
   mkFile "b.log" ["b.log"] false [mkFileInstance 0 "node1"]].

Definition treeResponse : Response :=
  mkResponse (mkMeta 1 "get-file-tree" "" []) [] [0%nat; 1%nat] "" false.

(** Calls of [add], as two sources make them. *)
Definition ops2 : list (File * FileInstance) :=
  [(mkFile "a.log" ["a.log"] false [], mkFileInstance 7 "node1");
   (mkFile "a.log" ["a.log"] false [], mkFileInstance 3 "node2");
   (mkFile "b.log" ["b.log"] false [], mkFileInstance 0 "node1")].

(** Two requests on one connection. *)
Definition servings : list Serving :=
  [mkServing (mkRequest (mkMeta 1 "search" "" []) [] "up" [] noRange ∅)
             envCancelled emptyStore;
   mkServing (mkRequest (mkMeta 2 "get-content" "" []) ["a.log"] "" []
                        noRange ∅)
             env emptyStore].

End Example.

(** * Properties *)

(** ** Go's integers *)

Lemma wrap_small z : - 2 ^ 63 <= z < 2 ^ 63 -> Go.wrap z = z.
Proof.
  intros Hz. unfold Go.wrap.
  rewrite Z.mod_small by lia. lia.
Qed.

Lemma wrap_add_l a b : Go.wrap (Go.wrap a + b) = Go.wrap (a + b).
Proof.
  unfold Go.wrap. f_equal.
  replace (((a + 2 ^ 63) mod 2 ^ 64 - 2 ^ 63) + b + 2 ^ 63)
    with ((a + 2 ^ 63) mod 2 ^ 64 + b) by lia.
  rewrite Zplus_mod_idemp_l. f_equal. lia.
Qed.

Lemma add_wrap_l a b : Go.add (Go.wrap a) b = Go.wrap (a + b).
Proof. apply wrap_add_l. Qed.

(** ** The effects of a task *)

Lemma ctxErr_never t : neverCancelled t -> ctxErr t = (false, t).
Proof. unfold neverCancelled, ctxErr. intros ->. reflexivity. Qed.

Lemma timeNow_never t : neverCancelled t -> neverCancelled (snd (timeNow t)).
Proof. unfold neverCancelled, timeNow. simpl. auto. Qed.

Lemma ctxErr_false t t' :
  ctxErr t = (false, t') -> neverCancelled t -> neverCancelled t'.
Proof.
  intros He Hn. rewrite (ctxErr_never t Hn) in He. congruence.
Qed.

(** ** [filterOutTime] *)

Lemma filterOutTime_time l1 l2 range :
  Log_Time l1 = Log_Time l2 ->
  filterOutTime l1 range = filterOutTime l2 range.
Proof. unfold filterOutTime. intros ->. reflexivity. Qed.

Lemma filterOutTime_unset l : filterOutTime l (mkTimeRange None None) = false.
Proof. reflexivity. Qed.

Lemma filterOutTime_start l s e :
  filterOutTime l (mkTimeRange (Some s) e)
  = match Log_Time l with None => true | Some t => t <? s end.
Proof. reflexivity. Qed.

Lemma filterOutTime_end l e :
  filterOutTime l (mkTimeRange None (Some e))
  = match Log_Time l with None => true | Some t => e <? t end.
Proof. reflexivity. Qed.

(** ** The reader *)
Section ReaderProofs.
Context `{Collaborators}.
Variables (h : handler) (req : Request) (nodeName path : string).
Variables (respMeta : Meta) (re : option Regexp).

Lemma ctxErr_cases t :
  (ctxErr t = (true, t) /\ cancelAfter t = Some 0%nat)
  \/ (exists t', ctxErr t = (false, t')
                 /\ clock t' = clock t /\ tick t' = tick t
                 /\ (neverCancelled t -> neverCancelled t')).
Proof.
  unfold ctxErr, neverCancelled. destruct t as [[[|n]|] c k]; simpl.
  - left. auto.
  - right. eexists. split; [reflexivity|]. simpl. intuition congruence.
  - right. eexists. split; [reflexivity|]. simpl. auto.
Qed.

(** One iteration of the loop: either the context is seen cancelled and
    nothing happens, or the line is handled as [keepLine] says and at most
    one batch is sent. *)
Lemma scanLine_spec bytes r t f r1 t1 out :
  scanLine h req nodeName path respMeta re bytes r t = (f, r1, t1, out) ->
  (f = Return /\ r1 = r /\ t1 = t /\ out = []
   /\ cancelAfter t = Some 0%nat)
  \/ (exists kept,
        keepLine h req nodeName path re bytes (parserMemory r)
                 (lineNumber r) (fileOffset r)
        = (kept, (parserMemory r1, lineNumber r1, fileOffset r1))
        /\ allLines out ++ logLines r1 = logLines r ++ option_list kept
        /\ ((out = [] /\ sentAny r1 = sentAny r)
            \/ (exists batch, out = [mkResponse respMeta batch [] "" false]
                              /\ batch <> [] /\ sentAny r1 = true
                              /\ logLines r1 = []))
        /\ (f = Return ->
            re <> None
            /\ SearchMaxSize (h_Config h) < Go.len (logLines r1))
        /\ (f = Next ->
            re = None
            \/ kept = None
            \/ Go.len (logLines r1) <= SearchMaxSize (h_Config h))
        /\ (neverCancelled t -> neverCancelled t1)).
Proof.
  unfold scanLine, keepLine.
  destruct (ctxErr_cases t) as [[-> Hc]|[t0 [-> [_ [_ Hn0]]]]].
  { intros [= <- <- <- <-]. left. auto. }
  destruct (h_parse h path bytes (parserMemory r)) as [parsed mem].
  destruct (noMatch re (Log_Msg parsed)) eqn:Hm.
  { intros [= <- <- <- <-]. right. exists None. simpl.
    rewrite app_nil_r. repeat split; auto; try discriminate. }
  destruct (filterOutTime _ (FilterTime req)) eqn:Hf.
  { intros [= <- <- <- <-]. right. exists None. simpl.
    rewrite app_nil_r. repeat split; auto; try discriminate. }
  set (line := mkLog _ _ _ _ _ _ _).
  set (due := if ContentBatchSize (h_Config h) <? _ then _ else _).
  destruct due as [d t2] eqn:Hdue.
  assert (Hn2 : neverCancelled t0 -> neverCancelled t2).
  { subst due. destruct (ContentBatchSize (h_Config h) <? _).
    - injection Hdue as _ <-. auto.
    - injection Hdue as _ <-. apply timeNow_never. }
  destruct d.
  - (* the batch is sent *)
    simpl.
    destruct (bool_decide (is_Some re) && _) eqn:Hcap;
      intros [= <- <- <- <-]; right; exists (Some line); simpl;
      unfold allLines; simpl; rewrite !app_nil_r;
      (split; [reflexivity|]); (split; [reflexivity|]);
      (split; [right; eexists; repeat split; eauto;
               intros E; apply (f_equal (@length _)) in E;
               rewrite length_app in E; simpl in E; lia|]).
    + apply andb_true_iff in Hcap as [Hre Hlt].
      apply bool_decide_eq_true in Hre. apply Z.ltb_lt in Hlt.
      split; [intros _; split; [intros ->; destruct Hre; discriminate | exact Hlt]|].
      split; [discriminate|]. intros Hn. apply timeNow_never; auto.
    + split; [discriminate|].
      split; [intros _|intros Hn; apply timeNow_never; auto].
      apply andb_false_iff in Hcap as [Hre|Hlt].
      * left. apply bool_decide_eq_false in Hre.
        destruct re; [destruct Hre; eauto | reflexivity].
      * right. right. apply Z.ltb_ge in Hlt. exact Hlt.
  - (* the line joins the batch *)
    simpl.
    destruct (bool_decide (is_Some re) && _) eqn:Hcap;
      intros [= <- <- <- <-]; right; exists (Some line); simpl;
      (split; [reflexivity|]); (split; [reflexivity|]);
      (split; [left; auto|]).
    + apply andb_true_iff in Hcap as [Hre Hlt].
      apply bool_decide_eq_true in Hre. apply Z.ltb_lt in Hlt.
      split; [intros _; split; [intros ->; destruct Hre; discriminate | exact Hlt]|].
      split; [discriminate|]. auto.
    + split; [discriminate|].
      split; [intros _|auto].
      apply andb_false_iff in Hcap as [Hre|Hlt].
      * left. apply bool_decide_eq_false in Hre.
        destruct re; [destruct Hre; eauto | reflexivity].
      * right. right. apply Z.ltb_ge in Hlt. exact Hlt.
Qed.

(** What a response of the reader looks like. *)
Lemma allLines_app (o1 o2 : list Response) :
  allLines (o1 ++ o2) = allLines o1 ++ allLines o2.
Proof. unfold allLines. rewrite map_app, concat_app. reflexivity. Qed.

(** The loop: what has been sent and what is in the batch are, together, an
    initial part of the lines [keptLines] keeps, and all of them when the
    loop runs to the end of the file. *)
Lemma scanLoop_spec lines : forall r t f r1 t1 out,
  scanLoop h req nodeName path respMeta re lines r t = (f, r1, t1, out) ->
  (exists tail,
     logLines r ++ keptLines h req nodeName path re lines (parserMemory r)
                             (lineNumber r) (fileOffset r)
     = allLines out ++ logLines r1 ++ tail
     /\ (f = Next -> tail = []))
  /\ Forall (fun x => exists batch,
                x = mkResponse respMeta batch [] "" false /\ batch <> []) out
  /\ (sentAny r1 = true <-> sentAny r = true \/ out <> [])
  /\ (neverCancelled t -> neverCancelled t1)
  /\ (f = Return -> neverCancelled t ->
      re <> None /\ SearchMaxSize (h_Config h) < Go.len (logLines r1)).
Proof.
  induction lines as [|bytes rest IH]; intros r t f r1 t1 out; simpl.
  - intros [= <- <- <- <-].
    split; [exists []; rewrite !app_nil_r; auto|].
    split; [constructor|]. split; [intuition congruence|].
    split; [auto|discriminate].
  - destruct (scanLine h req nodeName path respMeta re bytes r t)
      as [[[f1 ra] ta] outa] eqn:Hstep.
    apply scanLine_spec in Hstep.
    destruct Hstep as [(-> & -> & -> & -> & Hc)
                      |(kept & Hkeep & Hlines & Hsent & Hret & _ & Hn)].
    { (* cancelled *)
      intros [= <- <- <- <-].
      split; [eexists; split; [reflexivity|discriminate]|].
      split; [constructor|]. split; [intuition congruence|].
      split; [auto|]. intros _ Hn. unfold neverCancelled in Hn. congruence. }
    rewrite Hkeep.
    assert (Hshape : Forall (fun x => exists batch,
                x = mkResponse respMeta batch [] "" false /\ batch <> []) outa).
    { destruct Hsent as [[-> _]|(batch & -> & Hb & _)];
        [constructor|repeat constructor; eauto]. }
    assert (Hs : sentAny ra = true <-> sentAny r = true \/ outa <> []).
    { destruct Hsent as [[-> ->]|(batch & -> & _ & -> & _)];
        [intuition congruence|]. split; [right; discriminate|auto]. }
    destruct f1.
    + destruct (scanLoop h req nodeName path respMeta re rest ra ta)
        as [[[f2 rb] tb] outb] eqn:Hloop.
      apply IH in Hloop.
      destruct Hloop as ((tail & Hl & Ht) & Hshape2 & Hs2 & Hn2 & Hret2).
      intros [= <- <- <- <-].
      split.
      { exists tail. split; [|exact Ht].
        rewrite allLines_app, app_assoc, <- Hlines, <- !app_assoc.
        rewrite Hl. rewrite <- ?app_assoc. reflexivity. }
      split; [apply Forall_app; auto|].
      split.
      { rewrite Hs2, Hs. split.
        - intros [[?|Ho]|Ho]; [auto| |];
            right; intros E; apply app_eq_nil in E; tauto.
        - intros [?|Ho]; [auto|].
          destruct outa; [right; exact Ho|left; right; discriminate]. }
      split; [auto|]. intros Hf Hnt. apply Hret2; auto.
    + intros [= <- <- <- <-].
      split.
      { eexists. split; [|discriminate].
        rewrite app_assoc, <- Hlines, <- !app_assoc. reflexivity. }
      split; [exact Hshape|]. split; [exact Hs|].
      split; [auto|]. intros _ _. apply Hret. reflexivity.
Qed.

(** The batch never holds more lines than the batch size: a line that
    makes it larger is sent with the batch. *)
Lemma scanLine_batch_bound bytes r t f r1 t1 out :
  scanLine h req nodeName path respMeta re bytes r t = (f, r1, t1, out) ->
  Go.len (logLines r) <= Z.max 0 (ContentBatchSize (h_Config h)) ->
  Go.len (logLines r1) <= Z.max 0 (ContentBatchSize (h_Config h)).
Proof.
  unfold scanLine.
  destruct (ctxErr t) as [[|] t0]; [intros [= <- <- <- <-]; auto|].
  destruct (h_parse h path bytes (parserMemory r)) as [parsed mem].
  destruct (noMatch re (Log_Msg parsed)); [intros [= <- <- <- <-]; auto|].
  destruct (filterOutTime _ (FilterTime req)); [intros [= <- <- <- <-]; auto|].
  destruct (ContentBatchSize (h_Config h) <? Go.len (logLines r ++ _)) eqn:Hb.
  - destruct (timeNow t0) as [now t2].
    destruct (_ && _); intros [= <- <- <- <-]; simpl; unfold Go.len; simpl;
      lia.
  - apply Z.ltb_ge in Hb.
    destruct (timeNow t0) as [now t2].
    destruct (ContentBatchTime (h_Config h) <? _).
    + destruct (timeNow t2) as [now' t3].
      destruct (_ && _); intros [= <- <- <- <-]; simpl; unfold Go.len;
        simpl; lia.
    + destruct (_ && _); intros [= <- <- <- <-]; simpl; lia.
Qed.

(** When the batch size is not above the cap of a search, the cap is never
    reached: the loop of a task that is not cancelled runs to the end of
    the file. *)
Lemma scanLoop_cap_unreachable lines : forall r t f r1 t1 out,
  Z.max 0 (ContentBatchSize (h_Config h)) <= SearchMaxSize (h_Config h) ->
  Go.len (logLines r) <= Z.max 0 (ContentBatchSize (h_Config h)) ->
  neverCancelled t ->
  scanLoop h req nodeName path respMeta re lines r t = (f, r1, t1, out) ->
  f = Next.
Proof.
  induction lines as [|bytes rest IH]; intros r t f r1 t1 out Hcap Hlen Hn;
    simpl.
  - intros [= <- <- <- <-]. reflexivity.
  - destruct (scanLine h req nodeName path respMeta re bytes r t)
      as [[[f1 ra] ta] outa] eqn:Hstep.
    pose proof (scanLine_batch_bound _ _ _ _ _ _ _ Hstep Hlen) as Hlen'.
    apply scanLine_spec in Hstep.
    destruct Hstep as [(_ & _ & _ & _ & Hc)
                      |(kept & _ & _ & _ & Hret & _ & Hn')].
    { unfold neverCancelled in Hn. congruence. }
    destruct f1.
    + destruct (scanLoop h req nodeName path respMeta re rest ra ta)
        as [[[f2 rb] tb] outb] eqn:Hloop.
      intros [= <- <- <- <-].
      eapply IH; [exact Hcap|exact Hlen'|exact (Hn' Hn)|exact Hloop].
    + destruct (Hret eq_refl) as [_ Hlt]. lia.
Qed.

Lemma wrap_range z : - 2 ^ 63 <= Go.wrap z < 2 ^ 63.
Proof.
  unfold Go.wrap.
  pose proof (Z.mod_pos_bound (z + 2 ^ 63) (2 ^ 64) ltac:(lia)). lia.
Qed.

Lemma keepLine_cases bytes mem n off kept mem' n' off' :
  keepLine h req nodeName path re bytes mem n off = (kept, (mem', n', off')) ->
  let parsed := fst (h_parse h path bytes mem) in
  mem' = snd (h_parse h path bytes mem)
  /\ ((kept = None /\ noMatch re (Log_Msg parsed) = true
       /\ n' = Go.add n 1 /\ off' = Go.add off (Go.lenBytes bytes))
      \/ (kept = None /\ noMatch re (Log_Msg parsed) = false
          /\ filterOutTime parsed (FilterTime req) = true
          /\ n' = n /\ off' = off)
      \/ (kept = Some (mkLog (Log_Msg parsed) (Log_Level parsed)
                             (Log_Time parsed) nodeName path n off)
          /\ noMatch re (Log_Msg parsed) = false
          /\ filterOutTime parsed (FilterTime req) = false
          /\ n' = Go.add n 1 /\ off' = Go.add off (Go.lenBytes bytes))).
Proof.
  unfold keepLine. destruct (h_parse h path bytes mem) as [parsed m]. simpl.
  destruct (noMatch re (Log_Msg parsed)).
  { intros [= <- <- <- <-]. auto 10. }
  rewrite (filterOutTime_time _ parsed) by reflexivity.
  destruct (filterOutTime parsed (FilterTime req));
    intros [= <- <- <- <-]; auto 10.
Qed.

(** Every record that is kept has a message that matches. *)
Lemma keptLines_match r0 lines : forall mem n off,
  re = Some r0 ->
  Forall (fun l => MatchString r0 (Log_Msg l) = true)
         (keptLines h req nodeName path re lines mem n off).
Proof.
  induction lines as [|bytes rest IH]; intros mem n off Hre; simpl.
  - constructor.
  - destruct (keepLine h req nodeName path re bytes mem n off)
      as [kept [[mem' n'] off']] eqn:Hk.
    apply keepLine_cases in Hk. simpl in Hk.
    destruct Hk as [_ [(-> & _)|[(-> & _)|(-> & Hm & _)]]]; simpl; auto.
    constructor; auto. simpl. rewrite Hre in Hm. simpl in Hm.
    destruct (MatchString r0 _); [reflexivity|discriminate].
Qed.

(** Every record carries the source and the path of the file. *)
Lemma keptLines_origin lines : forall mem n off,
  Forall (fun l => Log_FS l = nodeName /\ Log_FileName l = path)
         (keptLines h req nodeName path re lines mem n off).
Proof.
  induction lines as [|bytes rest IH]; intros mem n off; simpl.
  - constructor.
  - destruct (keepLine h req nodeName path re bytes mem n off)
      as [kept [[mem' n'] off']] eqn:Hk.
    apply keepLine_cases in Hk. simpl in Hk.
    destruct Hk as [_ [(-> & _)|[(-> & _)|(-> & _)]]]; simpl; auto.
Qed.

(** Without a regular expression the records are numbered one after the
    other, whatever the time filter drops. *)
Lemma keptLines_numbers lines : forall mem n off i l,
  re = None ->
  - 2 ^ 63 <= n < 2 ^ 63 ->
  keptLines h req nodeName path re lines mem n off !! i = Some l ->
  Log_Line l = Go.wrap (n + Z.of_nat i).
Proof.
  induction lines as [|bytes rest IH]; intros mem n off i l Hre Hn; simpl.
  - intros E. rewrite lookup_nil in E. discriminate.
  - destruct (keepLine h req nodeName path re bytes mem n off)
      as [kept [[mem' n'] off']] eqn:Hk.
    apply keepLine_cases in Hk. simpl in Hk.
    destruct Hk as [_ [(-> & Hm & _)|[(-> & _ & _ & -> & ->)
                                     |(-> & _ & _ & -> & ->)]]]; simpl.
    + rewrite Hre in Hm. discriminate.
    + apply IH; auto.
    + destruct i as [|j]; simpl.
      * intros [= <-]. simpl. rewrite Z.add_0_r, wrap_small; auto.
      * intros E. apply IH in E; [|assumption|apply wrap_range].
        rewrite E. unfold Go.add. rewrite wrap_add_l. f_equal. lia.
Qed.

Lemma totalBytes_nonneg lines : 0 <= totalBytes lines.
Proof.
  induction lines; simpl; unfold Go.lenBytes in *; lia.
Qed.

(** The offsets stay within the bytes of the file and never decrease. *)
Lemma keptLines_offsets lines : forall mem n off,
  0 <= off -> off + totalBytes lines < 2 ^ 63 ->
  Forall (fun l => off <= Log_Offset l <= off + totalBytes lines)
         (keptLines h req nodeName path re lines mem n off)
  /\ StronglySorted Z.le
       (map Log_Offset (keptLines h req nodeName path re lines mem n off)).
Proof.
  induction lines as [|bytes rest IH]; intros mem n off H0 Hfit; simpl.
  - split; constructor.
  - pose proof (totalBytes_nonneg rest) as Hr.
    assert (Hb : 0 <= Go.lenBytes bytes) by (unfold Go.lenBytes; lia).
    simpl in Hfit.
    destruct (keepLine h req nodeName path re bytes mem n off)
      as [kept [[mem' n'] off']] eqn:Hk.
    apply keepLine_cases in Hk. simpl in Hk.
    assert (Hadd : Go.add off (Go.lenBytes bytes) = off + Go.lenBytes bytes).
    { unfold Go.add. apply wrap_small. lia. }
    destruct Hk as [_ [(-> & _ & _ & ->)|[(-> & _ & _ & _ & ->)
                                         |(-> & _ & _ & _ & ->)]]]; simpl.
    + rewrite Hadd.
      destruct (IH mem' n' (off + Go.lenBytes bytes)) as [Hin Hs]; [lia|lia|].
      split; [|exact Hs].
      eapply Forall_impl; [exact Hin|]. simpl. intros; lia.
    + destruct (IH mem' n' off) as [Hin Hs]; [lia|lia|].
      split; [|exact Hs].
      eapply Forall_impl; [exact Hin|]. simpl. intros; lia.
    + rewrite Hadd.
      destruct (IH mem' n' (off + Go.lenBytes bytes)) as [Hin Hs]; [lia|lia|].
      split.
      * constructor; [simpl; lia|].
        eapply Forall_impl; [exact Hin|]. simpl. intros; lia.
      * constructor; [exact Hs|].
        apply Forall_map. eapply Forall_impl; [exact Hin|].
        simpl. intros; lia.
Qed.

(** Without a regular expression, and when the time filter drops none of
    the parsed lines, every line is kept. *)
Lemma keptLines_all lines : forall mem n off,
  re = None ->
  Forall (fun p => filterOutTime p (FilterTime req) = false)
         (parsedLines h path lines mem) ->
  length (keptLines h req nodeName path re lines mem n off) = length lines.
Proof.
  induction lines as [|bytes rest IH]; intros mem n off Hre Hall; simpl.
  - reflexivity.
  - simpl in Hall.
    destruct (keepLine h req nodeName path re bytes mem n off)
      as [kept [[mem' n'] off']] eqn:Hk.
    apply keepLine_cases in Hk. simpl in Hk.
    destruct (h_parse h path bytes mem) as [parsed m]. simpl in Hk.
    apply Forall_cons in Hall as [Hp Hrest].
    destruct Hk as [-> [(-> & Hm & _)|[(-> & _ & Hf & _)|(-> & _)]]]; simpl.
    + rewrite Hre in Hm. discriminate.
    + congruence.
    + rewrite IH; auto.
Qed.

End ReaderProofs.


Section ReadProofs.
Context `{Collaborators}.
Variables (h : handler) (req : Request).

Lemma readEnd_shape node path re err r :
  Forall (ofRead req node path)
         (readEnd (readMeta req (Name node) path) re err r).
Proof.
  unfold readEnd. destruct err; [constructor|].
  destruct (_ && _); repeat constructor. eexists; reflexivity.
Qed.

Lemma readEnd_lines meta re r :
  allLines (readEnd meta re false r) = logLines r.
Proof.
  unfold readEnd, allLines.
  destruct (Go.len (logLines r) =? 0) eqn:E; simpl.
  - apply Z.eqb_eq in E. unfold Go.len in E.
    destruct (logLines r); [|simpl in E; lia].
    destruct (_ || _); reflexivity.
  - apply app_nil_r.
Qed.

Lemma read_shape node path re t :
  Forall (ofRead req node path) (fst (read h req node path re t)).
Proof.
  unfold read.
  destruct (FS_Lstat _ path) as [stat|]; [|constructor].
  destruct (fi_IsDir stat); [constructor|].
  destruct (FS_Open _ path) as [sc|]; [|constructor].
  destruct (timeNow t) as [now t0].
  destruct (scanLoop _ _ _ _ _ _ _ _ _) as [[[f r] t1] out] eqn:Hloop.
  apply scanLoop_spec in Hloop. destruct Hloop as (_ & Hshape & _).
  assert (Ho : Forall (ofRead req node path) out).
  { eapply Forall_impl; [exact Hshape|].
    intros x (batch & -> & _). eexists; reflexivity. }
  destruct f; simpl; [|exact Ho].
  apply Forall_app. split; [exact Ho|apply readEnd_shape].
Qed.

(** The lines [read] sends are an initial part of the lines [keptLines]
    keeps, and all of them when the scan reaches the end of the file. *)
Lemma read_lines node path re t stat sc :
  FS_Lstat (Source_FS node) path = Some stat -> fi_IsDir stat = false ->
  FS_Open (Source_FS node) path = Some sc ->
  exists tail,
    keptLines h req (Name node) path re (scan_lines sc) newMemory 1 0
    = allLines (fst (read h req node path re t)) ++ tail
    /\ (neverCancelled t -> scan_err sc = false -> re = None -> tail = []).
Proof.
  intros Hl Hd Ho. unfold read. rewrite Hl, Hd, Ho.
  destruct (timeNow t) as [now t0] eqn:Hnow.
  destruct (scanLoop _ _ _ _ _ _ _ _ _) as [[[f r] t1] out] eqn:Hloop.
  apply scanLoop_spec in Hloop.
  destruct Hloop as ((tail & Hk & Ht) & _ & _ & _ & Hret). simpl in Hk.
  destruct f; simpl.
  - specialize (Ht eq_refl). subst tail. rewrite app_nil_r in Hk.
    destruct (scan_err sc) eqn:He.
    + exists (logLines r). unfold readEnd. rewrite app_nil_r.
      split; [exact Hk|discriminate].
    + exists []. rewrite allLines_app, readEnd_lines, app_nil_r.
      split; [exact Hk|reflexivity].
  - exists (logLines r ++ tail). split; [exact Hk|].
    intros Hn _ Hre. exfalso.
    assert (Hn0 : neverCancelled t0).
    { replace t0 with (snd (timeNow t)) by (rewrite Hnow; reflexivity).
      apply timeNow_never; exact Hn. }
    destruct (Hret eq_refl Hn0) as [Hne _]. contradiction.
Qed.

(** So, with a batch size that is not above the cap (as with the defaults,
    2000 and 5000), a search that is not cancelled sends every line that
    matches and passes the time filter, however many they are. *)
Lemma read_cap_unreachable node path re t stat sc :
  FS_Lstat (Source_FS node) path = Some stat -> fi_IsDir stat = false ->
  FS_Open (Source_FS node) path = Some sc -> scan_err sc = false ->
  Z.max 0 (ContentBatchSize (h_Config h)) <= SearchMaxSize (h_Config h) ->
  neverCancelled t ->
  allLines (fst (read h req node path re t))
  = keptLines h req (Name node) path re (scan_lines sc) newMemory 1 0.
Proof.
  intros Hl Hd Ho He Hcap Hn. unfold read. rewrite Hl, Hd, Ho.
  destruct (timeNow t) as [now t0] eqn:Hnow.
  destruct (scanLoop _ _ _ _ _ _ _ _ _) as [[[f r] t1] out] eqn:Hloop.
  assert (Hn0 : neverCancelled t0).
  { replace t0 with (snd (timeNow t)) by (rewrite Hnow; reflexivity).
    apply timeNow_never; exact Hn. }
  assert (Hlen : Go.len (logLines (mkReader [] now 1 0 false newMemory))
                 <= Z.max 0 (ContentBatchSize (h_Config h)))
    by (unfold Go.len; simpl; lia).
  pose proof (scanLoop_cap_unreachable h req (Name node) path _ re _ _ _ _
                _ _ _ Hcap Hlen Hn0 Hloop) as ->.
  apply scanLoop_spec in Hloop.
  destruct Hloop as ((tail & Hk & Ht) & _). simpl in Hk.
  rewrite (Ht eq_refl), app_nil_r in Hk. simpl.
  rewrite allLines_app, He, readEnd_lines. symmetry. exact Hk.
Qed.

End ReadProofs.

(** ** Interleaving *)
Section MergeProofs.
Context {A : Type}.

Lemma Forall_insert_tail (P : A -> Prop) (ls : list (list A)) i x xs :
  Forall (Forall P) ls -> ls !! i = Some (x :: xs) ->
  P x /\ Forall (Forall P) (<[i := xs]> ls).
Proof.
  intros Hall Hi.
  assert (Hx : Forall P (x :: xs)).
  { eapply Forall_lookup_1; eauto. }
  inversion Hx; subst. split; [assumption|].
  apply Forall_insert; assumption.
Qed.

(** What holds of every step of every goroutine holds of the trace. *)
Lemma merge_Forall (P : A -> Prop) sched : forall ls,
  Forall (Forall P) ls -> Forall P (merge sched ls).
Proof.
  induction sched as [|i sched IH]; intros ls Hall; simpl.
  - apply Forall_concat. exact Hall.
  - destruct (ls !! i) as [[|x xs]|] eqn:Hi; auto.
    destruct (Forall_insert_tail P ls i x xs Hall Hi).
    constructor; auto.
Qed.

Lemma concat_insert_tail (ls : list (list A)) i x xs :
  ls !! i = Some (x :: xs) ->
  Permutation (concat ls) (x :: concat (<[i := xs]> ls)).
Proof.
  revert i. induction ls as [|l ls IH]; intros i Hi.
  - rewrite lookup_nil in Hi. discriminate.
  - destruct i as [|i]; simpl in *.
    + injection Hi as ->. reflexivity.
    + rewrite (IH i Hi). symmetry. apply Permutation_middle.
Qed.

(** A trace is a rearrangement of the steps of the goroutines. *)
Lemma merge_Permutation sched : forall ls : list (list A),
  Permutation (merge sched ls) (concat ls).
Proof.
  induction sched as [|i sched IH]; intros ls; simpl.
  - reflexivity.
  - destruct (ls !! i) as [[|x xs]|] eqn:Hi; auto.
    rewrite (concat_insert_tail ls i x xs Hi). constructor. apply IH.
Qed.

Lemma filter_all (P : A -> bool) (l : list A) :
  Forall (fun x => P x = true) l -> List.filter P l = l.
Proof.
  induction 1 as [|x l Hx _ IH]; simpl; [reflexivity|].
  rewrite Hx, IH. reflexivity.
Qed.

Lemma filter_none (P : A -> bool) (l : list A) :
  Forall (fun x => P x = false) l -> List.filter P l = [].
Proof.
  induction 1 as [|x l Hx _ IH]; simpl; [reflexivity|].
  rewrite Hx, IH. reflexivity.
Qed.

Lemma filter_concat_none (P : A -> bool) (ls : list (list A)) :
  Forall (Forall (fun x => P x = false)) ls -> List.filter P (concat ls) = [].
Proof.
  intros Hall. apply filter_none. apply Forall_concat. exact Hall.
Qed.

(** Every interleaving is the merge under some schedule. *)
Lemma merge_complete (ls : list (list A)) (l : list A) :
  Interleaving ls l -> exists sched, merge sched ls = l.
Proof.
  induction 1 as [ls Hall|ls i x xs l Hi _ [sched IH]].
  - exists []. simpl. induction Hall as [|l0 ls -> _ IH]; simpl; auto.
  - exists (i :: sched). simpl. rewrite Hi, IH. reflexivity.
Qed.

Lemma Interleaving_skip (ls : list (list A)) (l : list A) :
  Interleaving ls l -> Interleaving ([] :: ls) l.
Proof.
  induction 1 as [ls Hall|ls i x xs l Hi _ IH].
  - apply Interleaving_done. constructor; [reflexivity|exact Hall].
  - apply (Interleaving_step _ (S i) x xs); [exact Hi|exact IH].
Qed.

Lemma Interleaving_head (l0 : list A) (ls : list (list A)) (l : list A) :
  Interleaving ([] :: ls) l -> Interleaving (l0 :: ls) (l0 ++ l).
Proof.
  intros Hl. induction l0 as [|x l0 IH]; [exact Hl|].
  apply (Interleaving_step _ 0%nat x l0); [reflexivity|exact IH].
Qed.

(** Every merge is an interleaving. *)
Lemma merge_sound sched : forall ls : list (list A),
  Interleaving ls (merge sched ls).
Proof.
  induction sched as [|i sched IH]; intros ls; simpl.
  - induction ls as [|l0 ls IHls]; simpl.
    + apply Interleaving_done. constructor.
    + apply Interleaving_head, Interleaving_skip, IHls.
  - destruct (ls !! i) as [[|x xs]|] eqn:Hi; auto.
    apply (Interleaving_step _ i x xs); [exact Hi|apply IH].
Qed.

(** The steps of one goroutine, picked out of the trace by a mark that
    they alone carry, are in the order the goroutine made them. *)
Lemma merge_filter (P : A -> bool) sched : forall (ls : list (list A)) i l,
  ls !! i = Some l ->
  Forall (fun x => P x = true) l ->
  (forall j l', j <> i -> ls !! j = Some l' ->
                Forall (fun x => P x = false) l') ->
  List.filter P (merge sched ls) = l.
Proof.
  induction sched as [|k sched IH]; intros ls i l Hi Hl Hothers; simpl.
  - revert i Hi Hothers.
    induction ls as [|l0 ls IHls]; intros i Hi Hothers.
    + rewrite lookup_nil in Hi. discriminate.
    + simpl. rewrite List.filter_app. destruct i as [|i]; simpl in Hi.
      * injection Hi as ->. rewrite filter_all by exact Hl.
        rewrite filter_concat_none; [apply app_nil_r|].
        apply Forall_lookup_2. intros j l' Hj.
        apply (Hothers (S j)); [discriminate|exact Hj].
      * rewrite (filter_none P l0).
        -- simpl. apply (IHls i Hi). intros j l' Hne Hj.
           apply (Hothers (S j)); [congruence|exact Hj].
        -- apply (Hothers 0%nat); [discriminate|reflexivity].
  - destruct (ls !! k) as [[|x xs]|] eqn:Hk; eauto.
    destruct (decide (k = i)) as [->|Hne].
    + rewrite Hi in Hk. injection Hk as ->.
      inversion Hl as [|? ? Hx Hxs]; subst. simpl. rewrite Hx. f_equal.
      apply (IH _ i xs).
      * apply list_lookup_insert_eq. eapply lookup_lt_Some; eauto.
      * exact Hxs.
      * intros j l' Hj. rewrite list_lookup_insert_ne by congruence.
        apply Hothers; exact Hj.
    + pose proof (Hothers k _ Hne Hk) as Hf.
      inversion Hf as [|? ? Hx Hxs]; subst. simpl. rewrite Hx.
      apply (IH _ i l).
      * rewrite list_lookup_insert_ne by congruence. exact Hi.
      * exact Hl.
      * intros j l' Hj. destruct (decide (j = k)) as [->|Hjk].
        -- rewrite list_lookup_insert_eq by (eapply lookup_lt_Some; eauto).
           intros [= <-]. exact Hxs.
        -- rewrite list_lookup_insert_ne by congruence.
           apply Hothers; exact Hj.
Qed.

End MergeProofs.

(** ** Walking a source *)
Section WalkProofs.
Context `{Collaborators}.

Lemma WalkTree_nested_ind (P : WalkTree -> Prop) :
  (forall p info, P (WItem p info None)) ->
  (forall p info l, Forall P l -> P (WItem p info (Some l))) ->
  forall w, P w.
Proof.
  intros Hnone Hsome. fix IH 1. intros [p info [l|]].
  - apply Hsome. induction l as [|w l IHl]; constructor; auto.
  - apply Hnone.
Qed.

Lemma recurseItem_entries {Out : Type} h
    (f : string -> FileInfo -> Task -> list Out * Task) p info l t :
  recurseItem h f (WItem p info (Some l)) t
  = let '(cancelled, t) := ctxErr t in
    if cancelled then (Return, t, [])
    else
      match info with
      | None => (Next, t, [])
      | Some st =>
          if fi_IsDir st then
            if mapHas (excludeDirs h) (Go.Base p) then (Next, t, [])
            else
              let '(out, t) := f p st t in
              let '(fl, t, out') := recurseItems h f l t in
              (fl, t, out ++ out')
          else
            if mapHas (excludeExtensions h) (Go.Ext p) then (Next, t, [])
            else let '(out, t) := f p st t in (Next, t, out)
      end.
Proof. reflexivity. Qed.

Lemma visited_entries h p st l :
  visited h (WItem p (Some st) (Some l))
  = if fi_IsDir st then
      if mapHas (excludeDirs h) (Go.Base p) then []
      else (p, st) :: visitedAll h l
    else if mapHas (excludeExtensions h) (Go.Ext p) then []
    else [(p, st)].
Proof. reflexivity. Qed.

(** What holds of all that [f] puts out holds of all the walk puts out. *)
Lemma recurseItem_Forall {Out : Type} (P : Out -> Prop) h
    (f : string -> FileInfo -> Task -> list Out * Task) :
  (forall p st t, Forall P (fst (f p st t))) ->
  forall w t, Forall P (snd (recurseItem h f w t)).
Proof.
  intros Hf. induction w as [p info|p info l IHl] using WalkTree_nested_ind;
    intros t.
  - simpl. destruct (ctxErr t) as [[|] t0]; [constructor|].
    destruct info as [st|]; [|constructor].
    destruct (fi_IsDir st).
    + destruct (mapHas _ _); [constructor|].
      pose proof (Hf p st t0) as Hp. destruct (f p st t0) as [out t1].
      destruct (ctxErr t1) as [[|] t2]; exact Hp.
    + destruct (mapHas _ _); [constructor|].
      pose proof (Hf p st t0) as Hp. destruct (f p st t0) as [out t1].
      exact Hp.
  - rewrite recurseItem_entries.
    destruct (ctxErr t) as [[|] t0]; [constructor|].
    destruct info as [st|]; [|constructor].
    destruct (fi_IsDir st).
    + destruct (mapHas _ _); [constructor|].
      pose proof (Hf p st t0) as Hp. destruct (f p st t0) as [out t1].
      assert (Hl : forall t, Forall P (snd (recurseItems h f l t))).
      { clear -IHl. induction IHl as [|w l Hw _ IH]; intros t; simpl.
        - constructor.
        - specialize (Hw t).
          destruct (recurseItem h f w t) as [[fl1 t1] out1].
          destruct fl1; [|exact Hw].
          specialize (IH t1).
          destruct (recurseItems h f l t1) as [[fl2 t2] out2].
          apply Forall_app. split; assumption. }
      specialize (Hl t1).
      destruct (recurseItems h f l t1) as [[fl t2] out'].
      apply Forall_app. split; assumption.
    + destruct (mapHas _ _); [constructor|].
      pose proof (Hf p st t0) as Hp. destruct (f p st t0) as [out t1].
      exact Hp.
Qed.

Lemma recurseTree_Forall {Out : Type} (P : Out -> Prop) h path src
    (f : string -> FileInfo -> Task -> list Out * Task) t :
  (forall p st t, Forall P (fst (f p st t))) ->
  Forall P (fst (recurseTree h path src f t)).
Proof.
  intros Hf. unfold recurseTree.
  pose proof (recurseItem_Forall P h f Hf (FS_Walk (Source_FS src) path) t)
    as Hw.
  destruct (recurseItem _ _ _ _) as [[fl t'] out]. exact Hw.
Qed.

End WalkProofs.

(** ** The handlers *)
Section HandlerProofs.
Context `{Collaborators}.
Variables (h : handler) (req : Request).

Lemma allLines_Forall (P : Log -> Prop) (out : list Response) :
  Forall P (allLines out) <-> Forall (fun r => Forall P (Lines r)) out.
Proof.
  unfold allLines. induction out as [|r out IH]; simpl.
  - split; constructor.
  - rewrite Forall_app, IH. split.
    + intros [? ?]. constructor; assumption.
    + intros Hc. inversion Hc; subst. split; assumption.
Qed.

(** Every line [read] sends is one of the lines [keptLines] keeps of some
    file. *)
Lemma read_kept node path re t :
  exists lines tail,
    keptLines h req (Name node) path re lines newMemory 1 0
    = allLines (fst (read h req node path re t)) ++ tail.
Proof.
  destruct (FS_Lstat (Source_FS node) path) as [stat|] eqn:Hl;
    [|exists [], []; unfold read; rewrite Hl; reflexivity].
  destruct (fi_IsDir stat) eqn:Hd;
    [exists [], []; unfold read; rewrite Hl, Hd; reflexivity|].
  destruct (FS_Open (Source_FS node) path) as [sc|] eqn:Ho;
    [|exists [], []; unfold read; rewrite Hl, Hd, Ho; reflexivity].
  destruct (read_lines h req node path re t stat sc Hl Hd Ho)
    as (tail & Hk & _).
  exists (scan_lines sc), tail. exact Hk.
Qed.

Lemma read_match node path re t :
  Forall (fun r => Forall (fun l => MatchString re (Log_Msg l) = true)
                          (Lines r))
         (fst (read h req node path (Some re) t)).
Proof.
  destruct (read_kept node path (Some re) t) as (lines & tail & Hk).
  apply allLines_Forall.
  pose proof (keptLines_match h req (Name node) path (Some re) re lines
                newMemory 1 0 eq_refl) as Hm.
  rewrite Hk in Hm. apply Forall_app in Hm. tauto.
Qed.

Lemma read_unfinished node path re t :
  Forall (fun r => Finished r = false) (fst (read h req node path re t)).
Proof.
  eapply Forall_impl; [apply read_shape|].
  intros x (batch & ->). reflexivity.
Qed.

(** What holds of all that the readers send holds of all that the search
    sends. *)
Lemma searchNode_Forall (P : Response -> Prop) node path re t :
  (forall p t, Forall P (fst (read h req node p (Some re) t))) ->
  Forall P (fst (searchNode h req node path re t)).
Proof.
  intros Hr. unfold searchNode. apply recurseTree_Forall.
  intros p st t'. apply Hr.
Qed.

Lemma imap_Forall {A B : Type} (P : B -> Prop) (f : nat -> A -> B)
    (l : list A) :
  (forall i x, P (f i x)) -> Forall P (imap f l).
Proof.
  intros Hf. apply Forall_lookup_2. intros i y Hy.
  rewrite list_lookup_imap in Hy.
  destruct (l !! i); simpl in Hy; [|discriminate].
  injection Hy as <-. apply Hf.
Qed.

Lemma serveContent_unfinished env :
  Forall (fun r => Finished r = false) (serveContent h req env).
Proof.
  unfold serveContent. apply merge_Forall. apply imap_Forall.
  intros i src. apply read_unfinished.
Qed.

Lemma search_unfinished env :
  Forall (fun r => Finished r = false) (search h req env).
Proof.
  unfold search. destruct (regexp_Compile _) as [re|err].
  - apply merge_Forall. apply imap_Forall. intros i node.
    apply searchNode_Forall. intros p t. apply read_unfinished.
  - repeat constructor.
Qed.

Lemma Response_FilterSources_fields r sources heap :
  let r' := fst (Response_FilterSources r sources heap) in
  Response_Meta r' = Response_Meta r /\ Lines r' = Lines r
  /\ Error r' = Error r /\ Finished r' = Finished r.
Proof.
  unfold Response_FilterSources. destruct (mapIsEmpty sources); simpl; auto.
  destruct (filterFiles _ _ _). simpl. auto.
Qed.

(** The pointer [serveTree] looks up or stores, and the store then. *)
Lemma serveTree_unfinished env st :
  StoreOK st ->
  Forall (fun r => Finished r = false) (fst (serveTree h req env st)).
Proof.
  intros Hok. unfold serveTree.
  destruct (cache st !! filepath_Join (Request_Path req)) as [l|] eqn:Hc.
  - destruct (Hok _ _ Hc) as (r & Hr & Hf & _).
    rewrite (list_lookup_total_correct _ _ _ Hr).
    pose proof (Response_FilterSources_fields r (filterSourceMap req)
                  (files st)) as (_ & _ & _ & Hfin).
    destruct (Response_FilterSources r _ _) as [r' heap]. simpl in *.
    repeat constructor. simpl. congruence.
  - destruct (addAll _ _) as [c heap]. simpl.
    rewrite list_lookup_total_middle by reflexivity.
    match goal with
    | |- context [Response_FilterSources ?r ?s ?hp] =>
        pose proof (Response_FilterSources_fields r s hp) as (_ & _ & _ & Hfin);
        destruct (Response_FilterSources r s hp) as [r' heap']
    end.
    simpl in *. repeat constructor. simpl. exact Hfin.
Qed.

(** C1. For every request the handler sends the terminal marker — the
    request's [Meta] with [finished = true] and no lines, tree or error —
    exactly once and last: every response before it has [finished = false].
    The tasks of the environment are arbitrary, so this covers handlers
    that see their context cancelled at any point, and the action is
    arbitrary, so it covers unknown actions. *)
Theorem serve_terminal_marker env st :
  StoreOK st ->
  exists body,
    fst (serve h req env st)
    = body ++ [mkResponse (Request_Meta req) [] [] "" true]
    /\ Forall (fun r => Finished r = false) body.
Proof.
  intros Hok. unfold serve.
  destruct (String.eqb _ "get-file-tree").
  { pose proof (serveTree_unfinished env st Hok) as Hb.
    destruct (serveTree h req env st) as [out st']. simpl in *.
    exists out. split; [reflexivity|exact Hb]. }
  destruct (String.eqb _ "get-content").
  { simpl. eexists. split; [reflexivity|apply serveContent_unfinished]. }
  destruct (String.eqb _ "search").
  { simpl. eexists. split; [reflexivity|apply search_unfinished]. }
  simpl. exists []. split; [reflexivity|constructor].
Qed.

(** C7. A search whose regular expression does not compile sends one
    response with a non-empty error string and no lines, then the terminal
    marker, and nothing else; neither the sources nor the tasks of the
    environment are consulted, and the store is left as it was. *)
Theorem search_bad_regexp env st err :
  Meta_Action (Request_Meta req) = "search" ->
  regexp_Compile (Request_Regexp req) = inr err ->
  serve h req env st
  = ([mkResponse (Request_Meta req) [] []
                 (badRegexp (Request_Regexp req) err) false;
      mkResponse (Request_Meta req) [] [] "" true], st)
  /\ badRegexp (Request_Regexp req) err <> "".
Proof.
  intros Ha Hc. unfold serve, search. rewrite Ha, Hc. simpl.
  split; [reflexivity|discriminate].
Qed.

(** C8. After a regular expression compiled, every line of every response
    of the search has a message that matches it; the test is made on the
    message the parser returns; and a line whose parsed message does not
    match advances the line number and the offset, and nothing is added to
    the batch or sent. *)
Theorem search_lines_match env st re :
  Meta_Action (Request_Meta req) = "search" ->
  regexp_Compile (Request_Regexp req) = inl re ->
  Forall (fun r => Forall (fun l => MatchString re (Log_Msg l) = true)
                          (Lines r))
         (fst (serve h req env st))
  /\ (forall nodeName path meta bytes r t,
        cancelAfter t <> Some 0%nat ->
        MatchString re (Log_Msg (fst (h_parse h path bytes (parserMemory r))))
        = false ->
        exists t',
          scanLine h req nodeName path meta (Some re) bytes r t
          = (Next,
             mkReader (logLines r) (lastRespTime r)
                      (Go.add (lineNumber r) 1)
                      (Go.add (fileOffset r) (Go.lenBytes bytes))
                      (sentAny r)
                      (snd (h_parse h path bytes (parserMemory r))),
             t', [])).
Proof.
  intros Ha Hc. split.
  - unfold serve, search. rewrite Ha, Hc. simpl.
    apply Forall_app. split; [|repeat constructor].
    apply merge_Forall. apply imap_Forall. intros i node.
    apply searchNode_Forall. intros p t. apply read_match.
  - intros nodeName path meta bytes r t Hnc Hm. unfold scanLine.
    destruct (ctxErr_cases t) as [[_ Hc0]|(t' & -> & _)]; [contradiction|].
    exists t'. destruct (h_parse h path bytes (parserMemory r)) as [p m].
    simpl in *. rewrite Hm. reflexivity.
Qed.

End HandlerProofs.

(** C4 (the code departs from it). With both bounds set, a line later than
    [end] is not dropped: the start bound decides alone. *)
Theorem filterOutTime_after_end_kept :
  filterOutTime (mkLog "late" "" (Some 30) "" "" 0 0)
                (mkTimeRange (Some 10) (Some 20)) = false.
Proof. reflexivity. Qed.

(** [filterOutTime] applies both bounds but in one case: with both set, a
    line that is not before [start] and is after [end] is kept. *)
Lemma filterOutTime_outsideBounds l range :
  filterOutTime l range = outsideBounds l range
  \/ exists s e t,
       Start range = Some s /\ End_ range = Some e /\ Log_Time l = Some t
       /\ s <= t /\ e < t
       /\ filterOutTime l range = false /\ outsideBounds l range = true.
Proof.
  unfold filterOutTime, outsideBounds, Go.After, Go.Before.
  destruct (Start range) as [s|], (End_ range) as [e|],
           (Log_Time l) as [t|]; simpl; auto using orb_false_r.
  - destruct (t <? s) eqn:Hs; simpl; auto.
    destruct (e <? t) eqn:He; auto.
    right. exists s, e, t. apply Z.ltb_ge in Hs. apply Z.ltb_lt in He.
    auto 10.
Qed.

(** When [start] is set the end bound is never looked at. *)
Lemma filterOutTime_start_only l s e :
  filterOutTime l (mkTimeRange (Some s) e)
  = filterOutTime l (mkTimeRange (Some s) None).
Proof. reflexivity. Qed.

(** ** The reader's stream *)
Section StreamProofs.
Context `{Collaborators}.
Variables (h : handler) (req : Request).

Lemma batches_nil (meta : Meta) (out : list Response) :
  Forall (fun x => exists batch,
            x = mkResponse meta batch [] "" false /\ batch <> []) out ->
  allLines out = [] -> out = [].
Proof.
  intros Hshape Hnil. destruct out as [|x out]; [reflexivity|].
  apply Forall_cons in Hshape as [(batch & -> & Hb) _].
  unfold allLines in Hnil. simpl in Hnil.
  apply app_eq_nil in Hnil as [Hnil _]. contradiction.
Qed.

(** The loop on a file of which no line is kept: nothing is sent and the
    batch stays empty. *)
Lemma scanLoop_nothing_kept nodeName path meta re lines now t f r t1 out :
  keptLines h req nodeName path re lines newMemory 1 0 = [] ->
  scanLoop h req nodeName path meta re lines
           (mkReader [] now 1 0 false newMemory) t = (f, r, t1, out) ->
  out = [] /\ logLines r = [] /\ sentAny r = false
  /\ (neverCancelled t -> re = None -> f = Next).
Proof.
  intros Hk Hloop. apply scanLoop_spec in Hloop.
  destruct Hloop as ((tail & Hl & _) & Hshape & Hs & _ & Hret).
  simpl in Hl, Hs. rewrite Hk in Hl. symmetry in Hl.
  apply app_eq_nil in Hl as [Ho Hl]. apply app_eq_nil in Hl as [Hr _].
  pose proof (batches_nil meta out Hshape Ho) as ->.
  split; [reflexivity|]. split; [exact Hr|]. split.
  - destruct (sentAny r); [|reflexivity].
    destruct Hs as [Hs _]. destruct (Hs eq_refl); [discriminate|contradiction].
  - intros Hn Hre. destruct f; [reflexivity|].
    destruct (Hret eq_refl Hn) as [Hne _]. contradiction.
Qed.

(** C6. When the scan of a file reaches its end without an error, the rest
    of the batch is sent as one more response exactly when it is not empty,
    or when no batch was sent before and there is no regular expression.
    Hence, without a regular expression, an empty file yields exactly one
    response, with no lines, and so does a file of which the time filter
    drops every line; and with a regular expression a file of which no
    line is kept yields no response. *)
Theorem read_end_of_file node path re t stat sc now t0 :
  FS_Lstat (Source_FS node) path = Some stat -> fi_IsDir stat = false ->
  FS_Open (Source_FS node) path = Some sc ->
  timeNow t = (now, t0) ->
  let meta := readMeta req (Name node) path in
  let kept :=
    keptLines h req (Name node) path re (scan_lines sc) newMemory 1 0 in
  (forall r t1 flushed,
     scan_err sc = false ->
     scanLoop h req (Name node) path meta re (scan_lines sc)
              (mkReader [] now 1 0 false newMemory) t0
     = (Next, r, t1, flushed) ->
     (logLines r <> [] \/ (flushed = [] /\ re = None) ->
      fst (read h req node path re t)
      = flushed ++ [mkResponse meta (logLines r) [] "" false])
     /\ (~ (logLines r <> [] \/ (flushed = [] /\ re = None)) ->
         fst (read h req node path re t) = flushed))
  /\ (re = None -> scan_lines sc = [] -> scan_err sc = false ->
      fst (read h req node path re t) = [mkResponse meta [] [] "" false])
  /\ (re = None -> neverCancelled t -> scan_err sc = false -> kept = [] ->
      fst (read h req node path re t) = [mkResponse meta [] [] "" false])
  /\ (re <> None -> kept = [] -> fst (read h req node path re t) = []).
Proof.
  intros Hl Hd Ho Hnow meta kept.
  assert (Hread : forall f r t1 out,
            scanLoop h req (Name node) path meta re (scan_lines sc)
                     (mkReader [] now 1 0 false newMemory) t0
            = (f, r, t1, out) ->
            fst (read h req node path re t)
            = match f with
              | Return => out
              | Next => out ++ readEnd meta re (scan_err sc) r
              end).
  { intros f r t1 out Hloop. unfold read. rewrite Hl, Hd, Ho, Hnow.
    fold meta. rewrite Hloop. destruct f; reflexivity. }
  split; [|split; [|split]].
  - intros r t1 flushed He Hloop. rewrite (Hread _ _ _ _ Hloop).
    pose proof Hloop as Hspec. apply scanLoop_spec in Hspec.
    destruct Hspec as (_ & _ & Hs & _). simpl in Hs.
    unfold readEnd. rewrite He. unfold Go.len.
    split.
    + intros [Hne|[-> ->]].
      * destruct (logLines r) as [|x l] eqn:E; [contradiction|].
        simpl. reflexivity.
      * destruct (sentAny r).
        -- destruct Hs as [Hs _].
           destruct (Hs eq_refl) as [E|E]; [discriminate E|].
           exfalso. apply E. reflexivity.
        -- simpl. rewrite andb_false_r. reflexivity.
    + intros Hnot. destruct (logLines r) as [|x l] eqn:E;
        [|exfalso; apply Hnot; left; discriminate].
      simpl. destruct (sentAny r) eqn:Es; [apply app_nil_r|].
      destruct re as [r0|]; [apply app_nil_r|].
      exfalso. apply Hnot. right. split; [|reflexivity].
      destruct flushed; [reflexivity|].
      destruct Hs as [_ Hs].
      assert (E' : false = true) by (apply Hs; right; discriminate).
      discriminate E'.
  - intros -> Hempty He.
    rewrite (Hread Next (mkReader [] now 1 0 false newMemory) t0 []).
    + unfold readEnd. rewrite He. reflexivity.
    + rewrite Hempty. reflexivity.
  - intros -> Hn He Hk.
    destruct (scanLoop h req (Name node) path meta None (scan_lines sc)
                (mkReader [] now 1 0 false newMemory) t0)
      as [[[f r] t1] out] eqn:Hloop.
    rewrite (Hread f r t1 out eq_refl).
    assert (Hn0 : neverCancelled t0).
    { replace t0 with (snd (timeNow t)) by (rewrite Hnow; reflexivity).
      apply timeNow_never; exact Hn. }
    destruct (scanLoop_nothing_kept _ _ _ _ _ _ _ _ _ _ _ Hk Hloop)
      as (-> & Hr & Hs & Hf).
    rewrite (Hf Hn0 eq_refl). unfold readEnd. rewrite He, Hr, Hs.
    reflexivity.
  - intros Hre Hk.
    destruct (scanLoop h req (Name node) path meta re (scan_lines sc)
                (mkReader [] now 1 0 false newMemory) t0)
      as [[[f r] t1] out] eqn:Hloop.
    rewrite (Hread f r t1 out eq_refl).
    destruct (scanLoop_nothing_kept _ _ _ _ _ _ _ _ _ _ _ Hk Hloop)
      as (-> & Hr & Hs & _).
    destruct f; [|reflexivity].
    unfold readEnd. rewrite Hr, Hs.
    destruct (scan_err sc); [reflexivity|].
    destruct re; [reflexivity|contradiction].
Qed.

(** C10. A line the time filter drops leaves the line number and the
    offset as they were: the loop goes on with the same batch and only the
    parser's memory changed, and nothing is sent.  The next line that is
    kept therefore takes the line number and the offset the dropped line
    would have taken.  Without a regular expression the lines that are sent
    for a file are numbered one after the other, whatever was dropped
    between them. *)
Theorem time_filtered_line_not_counted nodeName path meta re :
  (forall bytes r t,
     cancelAfter t <> Some 0%nat ->
     let parsed := fst (h_parse h path bytes (parserMemory r)) in
     noMatch re (Log_Msg parsed) = false ->
     filterOutTime parsed (FilterTime req) = true ->
     exists t',
       scanLine h req nodeName path meta re bytes r t
       = (Next,
          mkReader (logLines r) (lastRespTime r) (lineNumber r)
                   (fileOffset r) (sentAny r)
                   (snd (h_parse h path bytes (parserMemory r))),
          t', []))
  /\ (forall bytes r t f r1 t1 out,
        cancelAfter t <> Some 0%nat ->
        let parsed := fst (h_parse h path bytes (parserMemory r)) in
        noMatch re (Log_Msg parsed) = false ->
        filterOutTime parsed (FilterTime req) = false ->
        scanLine h req nodeName path meta re bytes r t = (f, r1, t1, out) ->
        allLines out ++ logLines r1
        = logLines r
            ++ [mkLog (Log_Msg parsed) (Log_Level parsed) (Log_Time parsed)
                      nodeName path (lineNumber r) (fileOffset r)])
  /\ (forall node p t i l,
        allLines (fst (read h req node p None t)) !! i = Some l ->
        Log_Line l = Go.wrap (1 + Z.of_nat i)).
Proof.
  split; [|split].
  - intros bytes r t Hnc parsed Hm Hf. unfold scanLine.
    destruct (ctxErr_cases t) as [[_ Hc0]|(t' & -> & _)]; [contradiction|].
    exists t'. subst parsed.
    destruct (h_parse h path bytes (parserMemory r)) as [p m]. simpl in *.
    rewrite Hm.
    rewrite (filterOutTime_time _ p) by reflexivity. rewrite Hf.
    reflexivity.
  - intros bytes r t f r1 t1 out Hnc parsed Hm Hf Hstep.
    apply scanLine_spec in Hstep.
    destruct Hstep as [(_ & _ & _ & _ & Hc)|(kept & Hk & Hlines & _)];
      [contradiction|].
    apply keepLine_cases in Hk. simpl in Hk. fold parsed in Hk.
    destruct Hk as [_ [(_ & Hm' & _)|[(_ & _ & Hf' & _)|(-> & _)]]];
      [congruence|congruence|exact Hlines].
  - intros node p t i l Hi.
    destruct (read_kept h req node p None t) as (lines & tail & Hk).
    apply (keptLines_numbers h req (Name node) p None lines newMemory 1 0);
      [reflexivity|lia|].
    rewrite Hk. apply lookup_app_l_Some. exact Hi.
Qed.

End StreamProofs.

(** ** The stream of one source of a content request *)
Section ContentProofs.
Context `{Collaborators}.
Variables (h : handler) (req : Request).

Lemma lookup_map {A B : Type} (f : A -> B) (l : list A) i :
  map f l !! i = f <$> (l !! i).
Proof.
  revert i. induction l as [|x l IH]; intros [|i]; simpl; auto.
Qed.

Lemma NoDup_map_filter {A B : Type} (f : A -> B) (p : A -> bool) l :
  NoDup (map f l) -> NoDup (map f (List.filter p l)).
Proof.
  induction l as [|x l IH]; simpl; intros Hnd; [constructor|].
  apply NoDup_cons in Hnd as [Hx Hl].
  destruct (p x); simpl; [|auto].
  apply NoDup_cons. split; [|auto].
  intros Hin. apply Hx.
  apply list_elem_of_In in Hin. apply list_elem_of_In.
  apply in_map_iff in Hin as (y & <- & Hy).
  apply in_map. apply List.filter_In in Hy. tauto.
Qed.

Lemma filterSources_NoDup filter :
  NoDup (map Name (h_source h)) ->
  NoDup (map Name (filterSources (h_source h) filter)).
Proof.
  intros Hnd. unfold filterSources.
  destruct (mapIsEmpty filter); [exact Hnd|].
  apply NoDup_map_filter. exact Hnd.
Qed.

Lemma StronglySorted_prefix {A : Type} (R : A -> A -> Prop) l1 l2 :
  StronglySorted R (l1 ++ l2) -> StronglySorted R l1.
Proof.
  induction l1 as [|x l1 IH]; simpl; intros Hs; [constructor|].
  apply StronglySorted_inv in Hs as [Hs Hx].
  constructor; [auto|].
  apply Forall_app in Hx. tauto.
Qed.

Lemma keptLines_length nodeName path re lines : forall mem n off,
  (length (keptLines h req nodeName path re lines mem n off)
   <= length lines)%nat.
Proof.
  induction lines as [|bytes rest IH]; intros mem n off; simpl; [lia|].
  destruct (keepLine h req nodeName path re bytes mem n off)
    as [[l|] [[mem' n'] off']]; simpl; specialize (IH mem' n' off'); lia.
Qed.

(** The responses of one source, picked out of what [serveContent] sends
    by the name of the source, are what the reader of that source sent. *)
Lemma serveContent_source env i node :
  NoDup (map Name (h_source h)) ->
  filterSources (h_source h) (filterSourceMap req) !! i = Some node ->
  List.filter (fun r => String.eqb (Meta_FS (Response_Meta r)) (Name node))
              (serveContent h req env)
  = fst (read h req node (FS_Join (Source_FS node) (Request_Path req)) None
              (tasks env i)).
Proof.
  intros Hnd Hi. unfold serveContent.
  apply filterSources_NoDup with (filter := filterSourceMap req) in Hnd.
  apply (merge_filter _ _ _ i).
  - rewrite list_lookup_imap, Hi. reflexivity.
  - eapply Forall_impl; [apply read_shape|].
    intros x (batch & ->). simpl. apply String.eqb_refl.
  - intros j l' Hne Hj. rewrite list_lookup_imap in Hj.
    destruct (filterSources _ _ !! j) as [src|] eqn:Hsrc; [|discriminate].
    simpl in Hj. injection Hj as <-.
    eapply Forall_impl; [apply read_shape|].
    intros x (batch & ->). simpl. apply String.eqb_neq.
    intros Heq. apply Hne.
    apply (NoDup_lookup _ j i (Name src) Hnd).
    + rewrite lookup_map, Hsrc. reflexivity.
    + rewrite lookup_map, Hi. simpl. congruence.
Qed.

(** C5 (as amended). For a content request and a source whose file opens
    and fits Go's [int] (fewer than [2^63 - 1] lines, fewer than [2^63]
    bytes), the lines sent for that source, taken together in the order
    they are sent, carry the line numbers 1, 2, 3, ... and offsets that
    never decrease; when moreover the scan reaches the end of the file (the
    task is never cancelled and the scanner reports no error) and the time
    filter drops no line, their number is the number of lines scanned. *)
Theorem content_stream env st i node stat sc :
  Meta_Action (Request_Meta req) = "get-content" ->
  NoDup (map Name (h_source h)) ->
  filterSources (h_source h) (filterSourceMap req) !! i = Some node ->
  let path := FS_Join (Source_FS node) (Request_Path req) in
  FS_Lstat (Source_FS node) path = Some stat -> fi_IsDir stat = false ->
  FS_Open (Source_FS node) path = Some sc ->
  Z.of_nat (length (scan_lines sc)) < 2 ^ 63 - 1 ->
  totalBytes (scan_lines sc) < 2 ^ 63 ->
  let lines :=
    allLines
      (List.filter
         (fun r => String.eqb (Meta_FS (Response_Meta r)) (Name node))
         (fst (serve h req env st))) in
  (forall k l, lines !! k = Some l -> Log_Line l = 1 + Z.of_nat k)
  /\ StronglySorted Z.le (map Log_Offset lines)
  /\ (neverCancelled (tasks env i) -> scan_err sc = false ->
      Forall (fun p => filterOutTime p (FilterTime req) = false)
             (parsedLines h path (scan_lines sc) newMemory) ->
      length lines = length (scan_lines sc)).
Proof.
  intros Ha Hnd Hi path Hl Hd Ho Hcount Hbytes lines.
  assert (Hlines : lines
                   = allLines (fst (read h req node path None (tasks env i)))).
  { subst lines. unfold serve. rewrite Ha. simpl.
    rewrite List.filter_app, allLines_app.
    rewrite (serveContent_source env i node Hnd Hi).
    fold path. simpl.
    destruct (String.eqb _ _); unfold allLines; simpl; apply app_nil_r. }
  destruct (read_lines h req node path None (tasks env i) stat sc Hl Hd Ho)
    as (tail & Hk & Htail).
  rewrite <- Hlines in Hk.
  pose proof (keptLines_length (Name node) path None (scan_lines sc)
                newMemory 1 0) as Hlen.
  split; [|split].
  - intros k l Hkl.
    assert (Hk' : keptLines h req (Name node) path None (scan_lines sc)
                    newMemory 1 0 !! k = Some l).
    { rewrite Hk. apply lookup_app_l_Some. exact Hkl. }
    pose proof (lookup_lt_Some _ _ _ Hk') as Hlt.
    rewrite (keptLines_numbers h req (Name node) path None (scan_lines sc)
               newMemory 1 0 k l eq_refl ltac:(lia) Hk').
    apply wrap_small. lia.
  - destruct (keptLines_offsets h req (Name node) path None (scan_lines sc)
                newMemory 1 0 ltac:(lia) ltac:(lia)) as [_ Hs].
    rewrite Hk, map_app in Hs.
    apply StronglySorted_prefix in Hs. exact Hs.
  - intros Hn He Hall. rewrite (Htail Hn He eq_refl), app_nil_r in Hk.
    rewrite <- Hk. apply keptLines_all; [reflexivity|exact Hall].
Qed.

End ContentProofs.

(** ** The tree *)
Section TreeProofs.
Context `{Collaborators}.

Lemma recurseItems_cons {Out : Type} (h : handler)
    (f : string -> FileInfo -> Task -> list Out * Task) w l t :
  recurseItems h f (w :: l) t
  = let '(fl1, t1, out1) := recurseItem h f w t in
    match fl1 with
    | Return => (Return, t1, out1)
    | Next =>
        let '(fl2, t2, out2) := recurseItems h f l t1 in
        (fl2, t2, out1 ++ out2)
    end.
Proof. reflexivity. Qed.

Lemma visitedAll_cons h w l :
  visitedAll h (w :: l) = visited h w ++ visitedAll h l.
Proof. reflexivity. Qed.

(** A walk that is not cancelled calls [f] on the visited items, in
    order. *)
Lemma recurseItem_never {Out : Type} (h : handler)
    (f : string -> FileInfo -> Task -> list Out * Task)
    (g : string -> FileInfo -> list Out) :
  (forall p st t, f p st t = (g p st, t)) ->
  forall w t, neverCancelled t ->
    recurseItem h f w t
    = (Next, t, concat (map (fun it => g (fst it) (snd it)) (visited h w))).
Proof.
  intros Hf. induction w as [p info|p info l IHl] using WalkTree_nested_ind;
    intros t Hn.
  - simpl. rewrite (ctxErr_never t Hn).
    destruct info as [st|]; [|reflexivity].
    destruct (fi_IsDir st).
    + destruct (mapHas _ _); [reflexivity|].
      rewrite Hf, (ctxErr_never t Hn). simpl. rewrite app_nil_r.
      reflexivity.
    + destruct (mapHas _ _); [reflexivity|].
      rewrite Hf. simpl. rewrite app_nil_r. reflexivity.
  - rewrite recurseItem_entries, (ctxErr_never t Hn).
    destruct info as [st|]; [|reflexivity].
    rewrite visited_entries.
    destruct (fi_IsDir st).
    + destruct (mapHas _ _); [reflexivity|].
      rewrite Hf.
      assert (Hl : recurseItems h f l t
                   = (Next, t, concat (map (fun it => g (fst it) (snd it))
                                           (visitedAll h l)))).
      { clear -IHl Hn. induction IHl as [|w l Hw _ IH].
        - reflexivity.
        - rewrite recurseItems_cons, (Hw t Hn), IH, visitedAll_cons.
          rewrite map_app, concat_app. reflexivity. }
      rewrite Hl. simpl. reflexivity.
    + destruct (mapHas _ _); [reflexivity|].
      rewrite Hf. simpl. rewrite app_nil_r. reflexivity.
Qed.

Lemma srcTree_never h req src t :
  neverCancelled t -> fst (srcTree h req src t) = walkedOps h req src.
Proof.
  intros Hn. unfold srcTree, recurseTree, walkedOps.
  rewrite (recurseItem_never h (srcTreeVisit src)
             (fun p st => fst (srcTreeVisit src p st
                                            (mkTask None (fun _ => 0) 0)))).
  - reflexivity.
  - intros p st t'. unfold srcTreeVisit.
    destruct (Go.isEmpty (Go.Trim p)); reflexivity.
  - exact Hn.
Qed.

(** The calls of a source carry its name, an empty instance list, and the
    keys and instances [walked] lists. *)
Lemma walkedOps_spec h req src :
  map (fun op => (Key (fst op), snd op)) (walkedOps h req src)
  = walked h req src
  /\ Forall (fun op => Instances (fst op) = []
                       /\ FileInstance_FS (snd op) = Name src)
            (walkedOps h req src).
Proof.
  unfold walkedOps, walked.
  induction (visited h _) as [|[p st] l [IH1 IH2]]; simpl.
  - split; constructor.
  - unfold srcTreeVisit at 1 3. simpl.
    destruct (Go.isEmpty (Go.Trim p)); simpl.
    + split; assumption.
    + split; [f_equal; assumption|].
      constructor; [split; reflexivity|assumption].
Qed.

(** *** The combiner *)

Lemma position_Some k fl j :
  position k fl = Some j ->
  exists f, fl !! j = Some f /\ Key f = k.
Proof.
  revert j. induction fl as [|f fl IH]; intros j; simpl; [discriminate|].
  destruct (String.eqb (Key f) k) eqn:E.
  - intros [= <-]. exists f. split; [reflexivity|].
    apply String.eqb_eq. exact E.
  - destruct (position k fl) as [j'|]; simpl; [|discriminate].
    intros [= <-]. simpl. apply IH. reflexivity.
Qed.

Lemma position_None k fl :
  position k fl = None <-> k ∉ map Key fl.
Proof.
  induction fl as [|f fl IH]; simpl.
  - split; [intros _; apply not_elem_of_nil|reflexivity].
  - rewrite not_elem_of_cons.
    destruct (String.eqb (Key f) k) eqn:E.
    + apply String.eqb_eq in E. split; [discriminate|]. intros [Hne _].
      congruence.
    + apply String.eqb_neq in E.
      destruct (position k fl) as [j|]; simpl.
      * split; [discriminate|]. intros [_ Hn].
        apply IH in Hn. discriminate.
      * split; [|reflexivity]. intros _. split; [congruence|].
        apply IH. reflexivity.
Qed.

Lemma position_app k fl f :
  position k (fl ++ [f])
  = match position k fl with
    | Some j => Some j
    | None => if String.eqb (Key f) k then Some (length fl) else None
    end.
Proof.
  induction fl as [|f0 fl IH]; simpl.
  - destruct (String.eqb (Key f) k); reflexivity.
  - destruct (String.eqb (Key f0) k); [reflexivity|].
    rewrite IH. destruct (position k fl); simpl; [reflexivity|].
    destruct (String.eqb (Key f) k); reflexivity.
Qed.

Lemma position_alter k g j fl :
  (forall f, Key (g f) = Key f) ->
  position k (alter g j fl) = position k fl.
Proof.
  intros Hg. revert j. induction fl as [|f fl IH]; intros [|j]; simpl;
    try reflexivity.
  - rewrite Hg. reflexivity.
  - destruct (String.eqb (Key f) k); [reflexivity|].
    f_equal. apply IH.
Qed.

Lemma newCombiner_represents heap0 :
  represents heap0 (newCombiner, heap0) [].
Proof.
  unfold represents. simpl. rewrite app_nil_r.
  split; [reflexivity|]. split; [reflexivity|].
  intros k. rewrite lookup_empty. reflexivity.
Qed.

Lemma add_represents heap0 ch fl f inst :
  represents heap0 ch fl ->
  represents heap0 (add f inst ch) (addPure fl (f, inst)).
Proof.
  destruct ch as [c heap]. unfold represents at 1.
  cbn [fst snd]. intros (Hheap & Hfiles & Hidx).
  unfold add, addPure. cbn [fst snd]. rewrite (Hidx (Key f)).
  destruct (position (Key f) fl) as [j|] eqn:Hp; simpl.
  - rewrite (Hidx (Key f)), Hp. simpl.
    unfold represents. simpl. subst heap.
    rewrite alter_app_r, length_alter.
    split; [reflexivity|]. split; [exact Hfiles|].
    intros k. rewrite position_alter by reflexivity. apply Hidx.
  - rewrite lookup_insert_eq.
    unfold represents. simpl. subst heap.
    replace (length (heap0 ++ fl)) with (length (heap0 ++ fl) + 0)%nat
      by lia.
    rewrite alter_app_r. simpl.
    rewrite Nat.add_0_r, !length_app. simpl.
    split; [rewrite <- app_assoc; reflexivity|].
    split.
    + rewrite Hfiles, Nat.add_1_r, seq_S. reflexivity.
    + intros k. rewrite position_app.
      destruct (decide (Key f = k)) as [<-|Hne].
      * rewrite lookup_insert_eq, Hp. simpl.
        rewrite String.eqb_refl. reflexivity.
      * rewrite lookup_insert_ne by exact Hne. rewrite Hidx.
        destruct (position k fl); [reflexivity|]. simpl.
        apply String.eqb_neq in Hne. rewrite Hne. reflexivity.
Qed.

Lemma addAll_represents heap0 ops : forall ch fl,
  represents heap0 ch fl ->
  represents heap0 (addAll ops ch) (foldl addPure fl ops).
Proof.
  unfold addAll. induction ops as [|[f inst] ops IH]; intros ch fl Hrep.
  - exact Hrep.
  - simpl. apply IH. apply add_represents. exact Hrep.
Qed.

(** The objects allocated last, read through their pointers. *)
Lemma tree_of_seq (heap new : list File) :
  map (fun p => (heap ++ new) !!! p) (seq (length heap) (length new)) = new.
Proof.
  revert heap. induction new as [|x new IH]; intros heap; [reflexivity|].
  simpl. rewrite list_lookup_total_middle by reflexivity. f_equal.
  replace (heap ++ x :: new) with ((heap ++ [x]) ++ new)
    by (rewrite <- app_assoc; reflexivity).
  replace (S (length heap)) with (length (heap ++ [x]))
    by (rewrite length_app; simpl; lia).
  apply IH.
Qed.

Lemma tree_stable (heap extra : list File) (ptrs : list loc) :
  Forall (fun p => (p < length heap)%nat) ptrs ->
  map (fun p => (heap ++ extra) !!! p) ptrs = map (fun p => heap !!! p) ptrs.
Proof.
  induction 1 as [|p ptrs Hp _ IH]; simpl; [reflexivity|].
  rewrite lookup_total_app_l by exact Hp. f_equal. exact IH.
Qed.

(** [combine] is what the combiner leaves on the heap. *)
Lemma addAll_combine heap0 ops :
  let ch := addAll ops (newCombiner, heap0) in
  snd ch = heap0 ++ combine ops
  /\ c_files (fst ch) = seq (length heap0) (length (combine ops))
  /\ map (fun p => snd ch !!! p) (c_files (fst ch)) = combine ops.
Proof.
  pose proof (addAll_represents heap0 ops _ _ (newCombiner_represents heap0))
    as (Hheap & Hfiles & _).
  fold (combine ops) in *. simpl.
  split; [exact Hheap|]. split; [exact Hfiles|].
  rewrite Hheap, Hfiles. apply tree_of_seq.
Qed.

(** *** Filtering *)

Lemma filterFiles_spec sources ptrs : forall heap,
  Forall (fun p => (p < length heap)%nat) ptrs ->
  filterFiles sources ptrs heap
  = (seq (length heap)
         (length (omap (fun p => File_FilterSources (heap !!! p) sources)
                       ptrs)),
     heap ++ omap (fun p => File_FilterSources (heap !!! p) sources) ptrs).
Proof.
  induction ptrs as [|p ptrs IH]; intros heap Hvalid; simpl.
  - rewrite app_nil_r. reflexivity.
  - apply Forall_cons in Hvalid as [Hp Hrest].
    destruct (File_FilterSources (heap !!! p) sources) as [f|] eqn:Hf.
    + rewrite IH.
      * assert (Hext : omap (fun p0 => File_FilterSources
                                          ((heap ++ [f]) !!! p0) sources) ptrs
                       = omap (fun p0 => File_FilterSources (heap !!! p0)
                                           sources) ptrs).
        { clear -Hrest. induction Hrest as [|q ptrs Hq _ IHr]; simpl;
            [reflexivity|].
          rewrite lookup_total_app_l by exact Hq.
          destruct (File_FilterSources (heap !!! q) sources);
            [f_equal|]; exact IHr. }
        rewrite Hext, length_app. simpl.
        rewrite <- app_assoc, Nat.add_1_r. reflexivity.
      * eapply Forall_impl; [exact Hrest|].
        intros q Hq. rewrite length_app. simpl in *. lia.
    + apply IH. exact Hrest.
Qed.

(** [Response.FilterSources] leaves the heap it finds as it is, and what
    its result points to is the filtered tree. *)
Lemma Response_FilterSources_spec r sources heap :
  Forall (fun p => (p < length heap)%nat) (Files r) ->
  let res := Response_FilterSources r sources heap in
  (exists new, snd res = heap ++ new)
  /\ Forall (fun p => (p < length (snd res))%nat) (Files (fst res))
  /\ map (fun p => snd res !!! p) (Files (fst res))
     = filterTree sources (map (fun p => heap !!! p) (Files r)).
Proof.
  intros Hvalid. unfold Response_FilterSources, filterTree.
  destruct (mapIsEmpty sources); simpl.
  - split; [exists []; rewrite app_nil_r; reflexivity|].
    split; [exact Hvalid|reflexivity].
  - rewrite (filterFiles_spec sources (Files r) heap Hvalid). simpl.
    split; [eexists; reflexivity|]. split.
    + apply Forall_seq. intros j Hj. rewrite length_app. lia.
    + rewrite tree_of_seq. clear Hvalid.
      induction (Files r) as [|p ptrs IH]; simpl; [reflexivity|].
      destruct (File_FilterSources (heap !!! p) sources); simpl;
        [f_equal|]; exact IH.
Qed.

Lemma StoreOK_extend st nf nr c' :
  StoreOK st ->
  (forall k l, c' !! k = Some l ->
     cache st !! k = Some l
     \/ exists r, (responses st ++ nr) !! l = Some r
                  /\ Finished r = false /\ Lines r = [] /\ Error r = ""
                  /\ Forall (fun p => (p < length (files st ++ nf))%nat)
                            (Files r)) ->
  StoreOK (mkStore (files st ++ nf) (responses st ++ nr) c').
Proof.
  intros Hok Hc k l Hkl. simpl.
  destruct (Hc k l Hkl) as [Hold|Hnew]; [|exact Hnew].
  destruct (Hok k l Hold) as (r & Hr & Hf & Hl & He & Hv).
  exists r. split; [apply lookup_app_l_Some; exact Hr|].
  repeat (split; [assumption|]).
  eapply Forall_impl; [exact Hv|].
  intros p Hp. rewrite length_app. simpl in *. lia.
Qed.

(** What [serveTree] sends and leaves: one response, which is the cached
    response of the key under the request's id with its tree filtered; the
    cached response is the one found, or on a miss the combined tree of
    the walks; the store only grows. *)
Lemma serveTree_spec h req env st :
  StoreOK st ->
  let key := filepath_Join (Request_Path req) in
  let ops :=
    merge (sched env)
          (imap (fun i src => fst (srcTree h req src (tasks env i)))
                (h_source h)) in
  exists r st' l r0,
    serveTree h req env st = ([r], st')
    /\ cache st' !! key = Some l /\ responses st' !! l = Some r0
    /\ (exists nf, files st' = files st ++ nf)
    /\ (exists nr, responses st' = responses st ++ nr)
    /\ StoreOK st'
    /\ Forall (fun p => (p < length (files st'))%nat) (Files r)
    /\ r = mkResponse (mkMeta (Meta_ID (Request_Meta req))
                              (Meta_Action (Response_Meta r0))
                              (Meta_FS (Response_Meta r0))
                              (Meta_Path (Response_Meta r0)))
                      [] (Files r) "" false
    /\ tree st' r = filterTree (filterSourceMap req) (tree st' r0)
    /\ match cache st !! key with
       | Some l0 =>
           l = l0 /\ cache st' = cache st
           /\ responses st !! l0 = Some r0 /\ tree st' r0 = tree st r0
       | None =>
           cache st' = <[key := l]> (cache st)
           /\ Response_Meta r0 = Request_Meta req
           /\ tree st' r0 = combine ops
       end.
Proof.
  intros Hok key ops. unfold serveTree. fold key. fold ops.
  destruct (cache st !! key) as [l0|] eqn:Hc.
  - (* the key is live *)
    destruct (Hok _ _ Hc) as (r0 & Hr0 & Hf & Hl & He & Hv).
    rewrite (list_lookup_total_correct _ _ _ Hr0).
    pose proof (Response_FilterSources_spec r0 (filterSourceMap req)
                  (files st) Hv) as ((nf & Hheap) & Hv' & Htree).
    pose proof (Response_FilterSources_fields r0 (filterSourceMap req)
                  (files st)) as (Hm & Hl' & He' & Hf').
    destruct (Response_FilterSources r0 (filterSourceMap req) (files st))
      as [r' heap'] eqn:Hres. simpl in *. subst heap'.
    eexists _, _, l0, r0. split; [reflexivity|]. simpl.
    split; [exact Hc|].
    split; [apply lookup_app_l_Some; exact Hr0|].
    split; [eauto|]. split; [eauto|].
    split.
    { apply StoreOK_extend; [exact Hok|]. intros k l Hkl. left. exact Hkl. }
    split; [exact Hv'|].
    split.
    { unfold withID. simpl. rewrite Hm, Hl', He', Hf', Hl, He, Hf.
      reflexivity. }
    unfold tree. simpl.
    rewrite (tree_stable (files st) nf (Files r0) Hv).
    split; [exact Htree|]. auto.
  - (* the key is not live: the sources are walked *)
    pose proof (addAll_combine (files st) ops) as (Hheap & Hfiles & Htree0).
    destruct (addAll ops (newCombiner, files st)) as [c heap] eqn:Hadd.
    simpl in Hheap, Hfiles, Htree0. simpl.
    set (r0 := mkResponse (Request_Meta req) [] (c_files c) "" false).
    rewrite list_lookup_total_middle by reflexivity.
    assert (Hv : Forall (fun p => (p < length heap)%nat) (Files r0)).
    { simpl. rewrite Hfiles, Hheap. apply Forall_seq. intros j Hj.
      rewrite length_app. lia. }
    pose proof (Response_FilterSources_spec r0 (filterSourceMap req)
                  heap Hv) as ((nf & Hheap') & Hv' & Htree).
    pose proof (Response_FilterSources_fields r0 (filterSourceMap req)
                  heap) as (Hm & Hl' & He' & Hf').
    destruct (Response_FilterSources r0 (filterSourceMap req) heap)
      as [r' heap'] eqn:Hres. simpl in *. subst heap'.
    eexists _, _, (length (responses st)), r0.
    split; [reflexivity|]. simpl.
    split; [apply lookup_insert_eq|].
    split.
    { rewrite <- app_assoc. apply list_lookup_middle. reflexivity. }
    split; [exists (combine ops ++ nf); rewrite Hheap, <- app_assoc;
            reflexivity|].
    split; [eexists; rewrite <- app_assoc; reflexivity|].
    split.
    { rewrite Hheap, <- !app_assoc.
      apply StoreOK_extend; [exact Hok|]. intros k l Hkl.
      destruct (decide (key = k)) as [<-|Hne].
      - rewrite lookup_insert_eq in Hkl. injection Hkl as <-.
        right. exists r0. split; [apply list_lookup_middle; reflexivity|].
        repeat (split; [reflexivity|]).
        eapply Forall_impl; [exact Hv|]. intros p Hp.
        rewrite Hheap in Hp. rewrite !length_app in *. simpl in *. lia.
      - rewrite lookup_insert_ne in Hkl by exact Hne. left. exact Hkl. }
    split; [exact Hv'|].
    split.
    { unfold withID. simpl. rewrite Hm, Hl', He', Hf'. reflexivity. }
    unfold tree. simpl.
    rewrite (tree_stable heap nf (c_files c) Hv).
    split; [exact Htree|]. auto.
Qed.

(** *** The combiner on values *)

Lemma combine_snoc ops op : combine (ops ++ [op]) = addPure (combine ops) op.
Proof. unfold combine. apply foldl_snoc. Qed.

Lemma instancesOf_app k ops1 ops2 :
  instancesOf k (ops1 ++ ops2) = instancesOf k ops1 ++ instancesOf k ops2.
Proof. unfold instancesOf. rewrite List.filter_app, map_app. reflexivity. Qed.

Lemma instancesOf_nil k ops :
  instancesOf k ops = [] <-> k ∉ map (fun op => Key (fst op)) ops.
Proof.
  unfold instancesOf. induction ops as [|op ops IH]; simpl.
  - split; [intros _; apply not_elem_of_nil|reflexivity].
  - rewrite not_elem_of_cons. destruct (String.eqb (Key (fst op)) k) eqn:E.
    + apply String.eqb_eq in E. simpl. split; [discriminate|].
      intros [Hne _]. congruence.
    + apply String.eqb_neq in E. rewrite IH. split; [|tauto].
      intros Hn. split; [congruence|exact Hn].
Qed.

Lemma map_Key_alter inst j fl :
  map Key (alter (appendInstance inst) j fl) = map Key fl.
Proof.
  revert j. induction fl as [|f fl IH]; intros [|j]; simpl;
    try reflexivity.
  f_equal. apply IH.
Qed.

(** The files of the combiner: one for every key that was added, with the
    instances that were added under the key, in the order of the calls. *)
Lemma combine_spec ops :
  Forall (fun op => Instances (fst op) = []) ops ->
  NoDup (map Key (combine ops))
  /\ (forall k, k ∈ map Key (combine ops)
                <-> k ∈ map (fun op => Key (fst op)) ops)
  /\ (forall f, f ∈ combine ops -> Instances f = instancesOf (Key f) ops).
Proof.
  induction ops as [|[f0 i0] ops IH] using rev_ind; intros Hall.
  - split; [constructor|]. split; [reflexivity|].
    intros f Hf. apply elem_of_nil in Hf. contradiction.
  - apply Forall_app in Hall as [Hall Hop].
    apply Forall_cons in Hop as [Hf0 _]. simpl in Hf0.
    destruct (IH Hall) as (Hnd & Hkeys & Hinst). clear IH.
    rewrite combine_snoc. unfold addPure. simpl.
    rewrite map_app. simpl.
    destruct (position (Key f0) (combine ops)) as [j|] eqn:Hp.
    + destruct (position_Some _ _ _ Hp) as (fj & Hj & Hkj).
      rewrite map_Key_alter.
      split; [exact Hnd|]. split.
      * intros k. rewrite Hkeys, elem_of_app, list_elem_of_singleton.
        split; [tauto|]. intros [Hk| ->]; [exact Hk|].
        apply Hkeys. rewrite <- Hkj.
        apply list_elem_of_In, in_map, list_elem_of_In.
        eapply list_elem_of_lookup_2; exact Hj.
      * intros f Hf. apply list_elem_of_lookup_1 in Hf as [i Hi].
        rewrite instancesOf_app. unfold instancesOf at 2. simpl.
        destruct (decide (j = i)) as [<-|Hne].
        -- rewrite list_lookup_alter_eq, Hj in Hi. simpl in Hi.
           injection Hi as <-. simpl. rewrite Hkj, String.eqb_refl. simpl.
           f_equal. rewrite <- Hkj. apply Hinst.
           eapply list_elem_of_lookup_2; exact Hj.
        -- rewrite list_lookup_alter_ne in Hi by exact Hne.
           assert (Hk : Key f <> Key f0).
           { intros Heq. apply Hne.
             apply (NoDup_lookup _ j i (Key f0) Hnd).
             - rewrite lookup_map, Hj. simpl. congruence.
             - rewrite lookup_map, Hi. simpl. congruence. }
           assert (E : String.eqb (Key f0) (Key f) = false)
             by (apply String.eqb_neq; congruence).
           rewrite E. simpl. rewrite app_nil_r. apply Hinst.
           eapply list_elem_of_lookup_2; exact Hi.
    + apply position_None in Hp.
      rewrite map_app. simpl.
      split.
      * apply NoDup_app. split; [exact Hnd|]. split; [|apply NoDup_singleton].
        intros k Hk Hk'. apply list_elem_of_singleton in Hk'. subst k.
        contradiction.
      * split.
        -- intros k. rewrite !elem_of_app, Hkeys. reflexivity.
        -- intros f Hf. rewrite instancesOf_app. unfold instancesOf at 2.
           simpl. apply elem_of_app in Hf as [Hf|Hf].
           ++ assert (E : String.eqb (Key f0) (Key f) = false).
              { apply String.eqb_neq. intros Heq. apply Hp. rewrite Heq.
                apply list_elem_of_In, in_map, list_elem_of_In. exact Hf. }
              rewrite E. simpl. rewrite app_nil_r. apply Hinst. exact Hf.
           ++ apply list_elem_of_singleton in Hf. subst f. simpl.
              rewrite String.eqb_refl, Hf0. simpl.
              replace (instancesOf (Key f0) ops) with (@nil FileInstance);
                [reflexivity|].
              symmetry. apply instancesOf_nil. rewrite <- Hkeys. exact Hp.
Qed.

(** *** The filter on values *)

Lemma passes_nonempty S name :
  mapIsEmpty S = false -> passes S name = mapGet S name.
Proof. unfold passes. intros ->. reflexivity. Qed.

Lemma passes_empty S name : mapIsEmpty S = true -> passes S name = true.
Proof. unfold passes. intros ->. reflexivity. Qed.

Lemma File_FilterSources_Some S f f' :
  mapIsEmpty S = false ->
  File_FilterSources f S = Some f'
  <-> f' = mkFile (Key f) (File_Path f) (IsDir f)
                  (List.filter (fun i => passes S (FileInstance_FS i))
                               (Instances f))
      /\ Instances f' <> [].
Proof.
  intros HS. unfold File_FilterSources.
  assert (E : List.filter (fun i => passes S (FileInstance_FS i)) (Instances f)
              = List.filter (fun i => mapGet S (FileInstance_FS i))
                            (Instances f)).
  { apply List.filter_ext. intros i. apply passes_nonempty. exact HS. }
  rewrite E. clear E. unfold Go.len.
  generalize (List.filter (fun i => mapGet S (FileInstance_FS i))
                          (Instances f)).
  intros [|i l]; simpl.
  - split; [discriminate|]. intros [-> Hne]. simpl in Hne. contradiction.
  - split.
    + intros [= <-]. split; [reflexivity|discriminate].
    + intros [-> _]. reflexivity.
Qed.

(** The filtered tree: the files that keep an instance, each with the
    instances of the sources that pass. *)
Lemma filterTree_spec S fl :
  (forall f, f ∈ fl -> Instances f <> []) ->
  (NoDup (map Key fl) -> NoDup (map Key (filterTree S fl)))
  /\ (forall f', f' ∈ filterTree S fl
       <-> exists f, f ∈ fl
             /\ f' = mkFile (Key f) (File_Path f) (IsDir f)
                            (List.filter
                               (fun i => passes S (FileInstance_FS i))
                               (Instances f))
             /\ Instances f' <> []).
Proof.
  intros Hne. unfold filterTree. destruct (mapIsEmpty S) eqn:HS.
  - split; [auto|]. intros f'.
    assert (Hid : forall f : File,
              mkFile (Key f) (File_Path f) (IsDir f)
                     (List.filter (fun i => passes S (FileInstance_FS i))
                                  (Instances f)) = f).
    { intros [k p d insts]. simpl. f_equal. apply filter_all.
      apply Forall_forall. intros i _. apply passes_empty. exact HS. }
    split.
    + intros Hf. exists f'. rewrite Hid. auto.
    + intros (f & Hf & -> & _). rewrite Hid. exact Hf.
  - split.
    + induction fl as [|f fl IH]; simpl; intros Hnd; [constructor|].
      apply NoDup_cons in Hnd as [Hk Hnd].
      assert (Hne' : forall f0, f0 ∈ fl -> Instances f0 <> []).
      { intros f0 Hf0. apply Hne. apply elem_of_cons. auto. }
      specialize (IH Hne' Hnd).
      destruct (File_FilterSources f S) as [f'|] eqn:Hf; [|exact IH].
      simpl. apply NoDup_cons. split; [|exact IH].
      apply File_FilterSources_Some in Hf as [-> _]; [|exact HS]. simpl.
      intros Hin. apply Hk.
      apply list_elem_of_In, in_map_iff in Hin as (g & Hg & Hin).
      apply list_elem_of_In, list_elem_of_omap in Hin as (g0 & Hg0 & Hgg).
      apply File_FilterSources_Some in Hgg as [-> _]; [|exact HS].
      simpl in Hg. rewrite <- Hg.
      apply list_elem_of_In, in_map, list_elem_of_In. exact Hg0.
    + intros f'. rewrite list_elem_of_omap. split.
      * intros (f & Hf & Hs). exists f. split; [exact Hf|].
        apply File_FilterSources_Some in Hs; [exact Hs|exact HS].
      * intros (f & Hf & Hs). exists f. split; [exact Hf|].
        apply File_FilterSources_Some; [exact HS|exact Hs].
Qed.

(** *** The calls of all sources *)

Lemma filter_Permutation {A : Type} (p : A -> bool) (l l' : list A) :
  Permutation l l' -> Permutation (List.filter p l) (List.filter p l').
Proof.
  induction 1 as [|x l l' _ IH|x y l|l l' l'' _ IH1 _ IH2]; simpl.
  - constructor.
  - destruct (p x); [constructor|]; exact IH.
  - destruct (p x), (p y); try reflexivity. constructor.
  - etransitivity; eassumption.
Qed.

Lemma instancesOf_Permutation k ops ops' :
  Permutation ops ops' ->
  Permutation (instancesOf k ops) (instancesOf k ops').
Proof.
  intros Hp. unfold instancesOf. apply Permutation_map.
  apply filter_Permutation. exact Hp.
Qed.

Lemma imap_map {A B : Type} (g : A -> B) (l : list A) :
  forall f : nat -> A -> B,
    (forall i x, f i x = g x) -> imap f l = map g l.
Proof.
  induction l as [|x l IH]; intros f Hf; simpl; [reflexivity|].
  rewrite Hf. f_equal. apply IH. intros i y. apply Hf.
Qed.

Lemma instancesOf_concat {A : Type} k (O : A -> list (File * FileInstance))
    (l : list A) :
  instancesOf k (concat (map O l))
  = flat_map (fun a => instancesOf k (O a)) l.
Proof.
  induction l as [|a l IH]; simpl; [reflexivity|].
  rewrite instancesOf_app, IH. reflexivity.
Qed.

Lemma instancesOf_walked k h req src :
  instancesOf k (walkedOps h req src) = instancesIn k (walked h req src).
Proof.
  destruct (walkedOps_spec h req src) as [<- _].
  unfold instancesOf, instancesIn.
  induction (walkedOps h req src) as [|op ops IH]; simpl; [reflexivity|].
  destruct (String.eqb (Key (fst op)) k); simpl; rewrite IH; reflexivity.
Qed.

Lemma walked_names h req src :
  Forall (fun e => FileInstance_FS (snd e) = Name src) (walked h req src).
Proof.
  destruct (walkedOps_spec h req src) as [<- Hall].
  apply Forall_map. eapply Forall_impl; [exact Hall|].
  intros op [_ Hn]. exact Hn.
Qed.

Lemma instancesIn_names k h req src :
  Forall (fun i => FileInstance_FS i = Name src)
         (instancesIn k (walked h req src)).
Proof.
  unfold instancesIn. apply Forall_map.
  pose proof (walked_names h req src) as Hall.
  induction Hall as [|e l He _ IH]; simpl; [constructor|].
  destruct (String.eqb (fst e) k); [constructor|]; assumption.
Qed.

Lemma filter_passes_names S name (l : list FileInstance) :
  Forall (fun i => FileInstance_FS i = name) l ->
  List.filter (fun i => passes S (FileInstance_FS i)) l
  = if passes S name then l else [].
Proof.
  intros Hall. destruct (passes S name) eqn:Hp.
  - apply filter_all. eapply Forall_impl; [exact Hall|].
    intros i Hi. simpl in Hi. rewrite Hi. exact Hp.
  - apply filter_none. eapply Forall_impl; [exact Hall|].
    intros i Hi. simpl in Hi. rewrite Hi. exact Hp.
Qed.

Lemma instancesIn_nil k (w : list (string * FileInstance)) :
  instancesIn k w = [] <-> k ∉ map fst w.
Proof.
  unfold instancesIn. induction w as [|e w IH]; simpl.
  - split; [intros _; apply not_elem_of_nil|reflexivity].
  - rewrite not_elem_of_cons. destruct (String.eqb (fst e) k) eqn:E.
    + apply String.eqb_eq in E. simpl. split; [discriminate|].
      intros [Hne _]. congruence.
    + apply String.eqb_neq in E. rewrite IH. split; [|tauto].
      intros Hn. split; [congruence|exact Hn].
Qed.

Lemma instancesIn_NoDup k (w : list (string * FileInstance)) :
  NoDup (map fst w) -> k ∈ map fst w ->
  exists inst, instancesIn k w = [inst].
Proof.
  unfold instancesIn. induction w as [|e w IH]; simpl; intros Hnd Hin.
  - apply elem_of_nil in Hin. contradiction.
  - apply NoDup_cons in Hnd as [He Hnd].
    destruct (String.eqb (fst e) k) eqn:E.
    + apply String.eqb_eq in E. subst k. simpl. exists (snd e). f_equal.
      apply instancesIn_nil in He. exact He.
    + apply String.eqb_neq in E. apply elem_of_cons in Hin as [Hin|Hin];
        [congruence|]. apply IH; assumption.
Qed.

(** The instances of a key in the sources that pass the filter. *)
Lemma flat_map_nonempty {A B : Type} (g : A -> list B) (l : list A) :
  flat_map g l <> [] <-> exists a, a ∈ l /\ g a <> [].
Proof.
  induction l as [|a l IH]; simpl.
  - split; [congruence|]. intros (a & Ha & _).
    apply elem_of_nil in Ha. contradiction.
  - split.
    + intros Hne. destruct (g a) as [|b bs] eqn:Hg.
      * simpl in Hne. apply IH in Hne as (a' & Ha' & Hg').
        exists a'. split; [apply elem_of_cons; auto|exact Hg'].
      * exists a. split; [apply elem_of_cons; auto|]. rewrite Hg.
        discriminate.
    + intros (a' & Ha' & Hg') Hnil. apply app_eq_nil in Hnil as [Ha Hl].
      apply elem_of_cons in Ha' as [->|Ha']; [contradiction|].
      revert Hl. apply IH. eauto.
Qed.

Lemma filter_flat_map {A B : Type} (p : B -> bool) (g : A -> list B) l :
  List.filter p (flat_map g l) = flat_map (fun a => List.filter p (g a)) l.
Proof.
  induction l as [|a l IH]; simpl; [reflexivity|].
  rewrite List.filter_app, IH. reflexivity.
Qed.

Lemma passing_instances S k h req (srcs : list Source) ops :
  Permutation ops (concat (map (walkedOps h req) srcs)) ->
  Permutation
    (List.filter (fun i => passes S (FileInstance_FS i)) (instancesOf k ops))
    (flat_map (fun src => if passes S (Name src)
                          then instancesIn k (walked h req src) else [])
              srcs).
Proof.
  intros Hp.
  rewrite (filter_Permutation _ _ _ (instancesOf_Permutation k _ _ Hp)).
  rewrite instancesOf_concat, filter_flat_map.
  clear Hp. induction srcs as [|src srcs IH]; simpl; [reflexivity|].
  rewrite instancesOf_walked.
  rewrite (filter_passes_names S (Name src)) by apply instancesIn_names.
  apply Permutation_app_head. exact IH.
Qed.

Lemma passing_names S k h req (srcs : list Source) :
  (forall src, src ∈ srcs -> NoDup (walkedKeys h req src)) ->
  map FileInstance_FS
      (flat_map (fun src => if passes S (Name src)
                            then instancesIn k (walked h req src) else [])
                srcs)
  = map Name
        (List.filter
           (fun src => passes S (Name src)
                       && bool_decide (k ∈ walkedKeys h req src))
           srcs).
Proof.
  induction srcs as [|src srcs IH]; intros Hnd; simpl; [reflexivity|].
  rewrite map_app, IH
    by (intros s Hs; apply Hnd; apply elem_of_cons; auto).
  destruct (passes S (Name src)); simpl; [|reflexivity].
  destruct (bool_decide (k ∈ walkedKeys h req src)) eqn:Hk.
  - apply bool_decide_eq_true in Hk.
    destruct (instancesIn_NoDup k (walked h req src)) as [inst Hi].
    + apply Hnd. apply elem_of_cons. auto.
    + exact Hk.
    + pose proof (instancesIn_names k h req src) as Hn.
      rewrite Hi in *. apply Forall_cons in Hn as [Hn _].
      simpl. rewrite Hn. reflexivity.
  - apply bool_decide_eq_false in Hk.
    apply instancesIn_nil in Hk. rewrite Hk. reflexivity.
Qed.

(** The calls of [add] of a request that is not cancelled: a
    rearrangement of the calls of the sources. *)
Lemma serveTree_ops h req env :
  (forall i, neverCancelled (tasks env i)) ->
  let ops :=
    merge (sched env)
          (imap (fun i src => fst (srcTree h req src (tasks env i)))
                (h_source h)) in
  Permutation ops (concat (map (walkedOps h req) (h_source h)))
  /\ Forall (fun op => Instances (fst op) = []) ops.
Proof.
  intros Hn ops.
  assert (Hmap : imap (fun i src => fst (srcTree h req src (tasks env i)))
                      (h_source h)
                 = map (walkedOps h req) (h_source h)).
  { apply imap_map. intros i src. apply srcTree_never. apply Hn. }
  subst ops. rewrite Hmap. split; [apply merge_Permutation|].
  apply merge_Forall. apply Forall_map. apply Forall_forall.
  intros src _. eapply Forall_impl; [apply walkedOps_spec|].
  intros op [Hi _]. exact Hi.
Qed.

(** X22. For a tree request that finds no entry for its path
    in the cache and whose walks are not cancelled, over sources that list
    every key at most once: the keys of the tree that is sent are distinct
    and are the non-empty keys, after the exclusion policy, of the sources
    that pass [filter_fs]; every file of the tree has at least one
    instance, and its instances name, each once, the sources that pass the
    filter and have the key.  A source passes when the filter is empty or
    names it. *)
Theorem tree_merged h req env st :
  StoreOK st ->
  cache st !! filepath_Join (Request_Path req) = None ->
  (forall i, neverCancelled (tasks env i)) ->
  (forall src, src ∈ h_source h -> NoDup (walkedKeys h req src)) ->
  exists r st',
    serveTree h req env st = ([r], st')
    /\ NoDup (map Key (tree st' r))
    /\ (forall k, k ∈ map Key (tree st' r)
                  <-> exists src, src ∈ h_source h
                        /\ passes (filterSourceMap req) (Name src) = true
                        /\ k ∈ walkedKeys h req src)
    /\ (forall f, f ∈ tree st' r ->
          Instances f <> []
          /\ Permutation
               (map FileInstance_FS (Instances f))
               (map Name
                    (List.filter
                       (fun src =>
                          passes (filterSourceMap req) (Name src)
                          && bool_decide (Key f ∈ walkedKeys h req src))
                       (h_source h)))).
Proof.
  intros Hok Hmiss Hn Hnd.
  destruct (serveTree_spec h req env st Hok)
    as (r & st' & l & r0 & Hserve & _ & _ & _ & _ & _ & _ & _ & Htree
        & Hcase).
  rewrite Hmiss in Hcase. destruct Hcase as (_ & _ & Hcomb).
  rewrite Hcomb in Htree. clear Hcomb.
  destruct (serveTree_ops h req env Hn) as [Hperm Hall].
  set (ops := merge _ _) in *. set (S := filterSourceMap req) in *.
  destruct (combine_spec ops Hall) as (Hndk & Hkeys & Hinst).
  assert (Hne : forall f, f ∈ combine ops -> Instances f <> []).
  { intros f Hf. rewrite (Hinst f Hf). intros Hnil.
    apply instancesOf_nil in Hnil. apply Hnil. apply Hkeys.
    apply list_elem_of_In, in_map, list_elem_of_In. exact Hf. }
  destruct (filterTree_spec S (combine ops) Hne) as [HndF HinF].
  exists r, st'. split; [exact Hserve|]. rewrite Htree.
  split; [apply HndF; exact Hndk|].
  assert (Hkey : forall k,
            List.filter (fun i => passes S (FileInstance_FS i))
                        (instancesOf k ops) <> []
            <-> exists src, src ∈ h_source h
                  /\ passes S (Name src) = true
                  /\ k ∈ walkedKeys h req src).
  { intros k.
    pose proof (passing_instances S k h req (h_source h) ops Hperm) as Hp.
    split.
    - intros Hnz.
      assert (Hnz' : flat_map (fun src => if passes S (Name src)
                                 then instancesIn k (walked h req src)
                                 else []) (h_source h) <> []).
      { intros Hnil. rewrite Hnil in Hp.
        apply Permutation_nil_r in Hp. contradiction. }
      apply flat_map_nonempty in Hnz' as (src & Hsrc & Hg).
      exists src. split; [exact Hsrc|].
      destruct (passes S (Name src)); [|contradiction].
      split; [reflexivity|].
      destruct (decide (k ∈ walkedKeys h req src)) as [Hin|Hout];
        [exact Hin|].
      apply instancesIn_nil in Hout. contradiction.
    - intros (src & Hsrc & Hpass & Hin) Hnil. rewrite Hnil in Hp.
      symmetry in Hp. apply Permutation_nil_r in Hp. revert Hp.
      apply flat_map_nonempty. exists src. split; [exact Hsrc|].
      rewrite Hpass. intros Hnil'. apply instancesIn_nil in Hnil'.
      contradiction. }
  split.
  - intros k. rewrite <- Hkey. split.
    + intros Hin.
      apply list_elem_of_In, in_map_iff in Hin as (f' & Hk & Hin).
      apply list_elem_of_In, HinF in Hin as (f & Hf & -> & Hnz).
      simpl in *. subst k. rewrite <- (Hinst f Hf). exact Hnz.
    + intros Hnz.
      assert (Hin : k ∈ map Key (combine ops)).
      { apply Hkeys. destruct (decide (k ∈ map (fun op => Key (fst op)) ops))
          as [Hin|Hout]; [exact Hin|].
        apply instancesOf_nil in Hout. rewrite Hout in Hnz.
        contradiction. }
      apply list_elem_of_In, in_map_iff in Hin as (f & <- & Hf).
      apply list_elem_of_In in Hf.
      apply list_elem_of_In, in_map_iff.
      eexists. split; [|apply list_elem_of_In, HinF; exists f;
                         split; [exact Hf|split; [reflexivity|]]].
      * reflexivity.
      * simpl. rewrite (Hinst f Hf). exact Hnz.
  - intros f' Hin. apply HinF in Hin as (f & Hf & -> & Hnz).
    split; [exact Hnz|]. simpl in *.
    rewrite (Hinst f Hf).
    rewrite (passing_instances S (Key f) h req (h_source h) ops Hperm).
    rewrite passing_names by exact Hnd. reflexivity.
Qed.

(** C9. Two tree requests in a row for the same path and with the same
    filter, the second on the store the first leaves (so the entry of the
    path is live for the second): the two responses differ in their id
    only, and carry the same tree, file by file and in the same order.
    The second request leaves the cache as it is and changes no object of
    the store; in particular the response the cache points to and its
    unfiltered tree are as they were.  The entry of the path holds the
    tree before filtering: each of the two responses carries the tree of
    the entry with the filter applied, and when the first request finds no
    entry, the tree of the entry it leaves is what the combiner makes of
    the calls of all sources of the registry, whatever the filter. *)
Theorem tree_requests_idempotent h req1 req2 env1 env2 st :
  StoreOK st ->
  Request_Path req1 = Request_Path req2 ->
  filterSourceMap req1 = filterSourceMap req2 ->
  exists r1 st1 r2 st2,
    serveTree h req1 env1 st = ([r1], st1)
    /\ serveTree h req2 env2 st1 = ([r2], st2)
    /\ tree st2 r2 = tree st1 r1
    /\ tree st2 r1 = tree st1 r1
    /\ Meta_ID (Response_Meta r1) = Meta_ID (Request_Meta req1)
    /\ Meta_ID (Response_Meta r2) = Meta_ID (Request_Meta req2)
    /\ Meta_Action (Response_Meta r2) = Meta_Action (Response_Meta r1)
    /\ Meta_FS (Response_Meta r2) = Meta_FS (Response_Meta r1)
    /\ Meta_Path (Response_Meta r2) = Meta_Path (Response_Meta r1)
    /\ Lines r2 = Lines r1 /\ Error r2 = Error r1
    /\ Finished r2 = Finished r1
    /\ cache st2 = cache st1
    /\ (exists nf, files st2 = files st1 ++ nf)
    /\ (exists nr, responses st2 = responses st1 ++ nr)
    /\ (forall k l r0,
          cache st1 !! k = Some l -> responses st1 !! l = Some r0 ->
          responses st2 !! l = Some r0 /\ tree st2 r0 = tree st1 r0)
    /\ (exists l r0,
          cache st1 !! filepath_Join (Request_Path req1) = Some l
          /\ responses st1 !! l = Some r0
          /\ tree st1 r1 = filterTree (filterSourceMap req1) (tree st1 r0)
          /\ tree st2 r2 = filterTree (filterSourceMap req2) (tree st2 r0)
          /\ (cache st !! filepath_Join (Request_Path req1) = None ->
              tree st1 r0
              = combine
                  (merge (sched env1)
                         (imap (fun i src =>
                                  fst (srcTree h req1 src (tasks env1 i)))
                               (h_source h))))).
Proof.
  intros Hok Hpath Hfilter.
  destruct (serveTree_spec h req1 env1 st Hok)
    as (r1 & st1 & l & r0 & Hs1 & Hc1 & Hr1 & _ & _ & Hok1 & Hv1 & Hshape1
        & Htree1 & Hcase1).
  destruct (serveTree_spec h req2 env2 st1 Hok1)
    as (r2 & st2 & l2 & r0' & Hs2 & _ & _ & (nf & Hnf) & (nr & Hnr) & _ & _
        & Hshape2 & Htree2 & Hcase).
  rewrite <- Hpath, Hc1 in Hcase.
  destruct Hcase as (-> & Hcache & Hr0' & Hstable).
  rewrite Hr1 in Hr0'. injection Hr0' as <-.
  exists r1, st1, r2, st2.
  split; [exact Hs1|]. split; [exact Hs2|].
  split; [rewrite Htree2, Hstable, <- Hfilter, Htree1; reflexivity|].
  split.
  { unfold tree. rewrite Hnf. apply tree_stable. exact Hv1. }
  rewrite Hshape1, Hshape2. simpl.
  repeat (split; [reflexivity|]).
  split; [exact Hcache|]. split; [eauto|]. split; [eauto|].
  split.
  - intros k l' r' Hk Hr'. split.
    + rewrite Hnr. apply lookup_app_l_Some. exact Hr'.
    + destruct (Hok1 k l' Hk) as (r'' & Hr'' & _ & _ & _ & Hv).
      rewrite Hr' in Hr''. injection Hr'' as <-.
      unfold tree. rewrite Hnf. apply tree_stable. exact Hv.
  - exists l, r0. split; [exact Hc1|]. split; [exact Hr1|].
    split; [exact Htree1|]. split; [exact Htree2|].
    intros Hmiss. rewrite Hmiss in Hcase1. apply Hcase1.
Qed.

(** The invariant of the store holds of the empty store and is kept by
    every request. *)
Lemma StoreOK_empty : StoreOK (mkStore [] [] ∅).
Proof. intros k l Hl. simpl in Hl. rewrite lookup_empty in Hl. discriminate. Qed.

Lemma serve_StoreOK h req env st :
  StoreOK st -> StoreOK (snd (serve h req env st)).
Proof.
  intros Hok. unfold serve.
  destruct (String.eqb _ "get-file-tree").
  { destruct (serveTree_spec h req env st Hok)
      as (r & st' & l & r0 & Hs & _ & _ & _ & _ & Hok' & _).
    rewrite Hs. exact Hok'. }
  destruct (String.eqb _ "get-content"); [exact Hok|].
  destruct (String.eqb _ "search"); exact Hok.
Qed.

End TreeProofs.


(** * The properties on the example installation *)

(** C3 (the code departs from it). With the default configuration (batches
    of 2000, at most 5000 lines per file) a search over one file of 6000
    matching lines sends all 6000: the cap is compared with the size of
    the batch, which is sent and emptied whenever it exceeds the batch
    size, so it never exceeds the cap. *)
Theorem search_exceeds_max_size :
  let out :=
    fst (serve (H := Example.collaborators) Example.h3
               (Example.request 7 "search" ["big.log"] "x" [] Example.noRange)
               Example.env Example.emptyStore) in
  SearchMaxSize (h_Config Example.h3) = 5000
  /\ map (fun r => (Meta_Path (Response_Meta r), length (Lines r))) out
     = [(["big.log"], 2001%nat); (["big.log"], 2001%nat);
        (["big.log"], 1998%nat); ([], 0%nat)]
  /\ length (allLines out) = Z.to_nat 6000.
Proof. vm_compute. auto. Qed.

(** When the batch size is above the cap, the cap is reached, and the
    reader returns without sending the lines it has matched: of a file of
    five matching lines, with a cap of three, nothing is sent. *)
Lemma search_cap_drops_batch :
  fst (read (H := Example.collaborators) Example.hCap
            (Example.request 7 "search" ["five.log"] "x" [] Example.noRange)
            Example.node3 "five.log" (Some "x") Example.free) = [].
Proof. vm_compute. reflexivity. Qed.

(** A line the time filter drops is not counted: of the lines [1 up] and
    [5 down], with a start of 3, the second is sent as line 1 at offset
    0. *)
Lemma dropped_line_renumbers :
  map (fun l => (Log_Msg l, Log_Line l, Log_Offset l))
      (allLines
         (fst (read (H := Example.collaborators) Example.h
                    (Example.request 7 "get-content" ["a.log"] "" []
                                     Example.from3)
                    Example.node1 "a.log" None Example.free)))
  = [("5 down", 1, 0)].
Proof. vm_compute. reflexivity. Qed.

Lemma serve_terminal_marker_witness :
  StoreOK Example.emptyStore
  /\ exists body,
       fst (serve (H := Example.collaborators) Example.h
                  (Example.request 1 "search" [] "up" [] Example.noRange)
                  Example.envCancelled Example.emptyStore)
       = body ++ [mkResponse (mkMeta 1 "search" "" []) [] [] "" true]
       /\ Forall (fun r => Finished r = false) body.
Proof.
  split; [exact StoreOK_empty|].
  exact (serve_terminal_marker (H := Example.collaborators) Example.h
           (Example.request 1 "search" [] "up" [] Example.noRange)
           Example.envCancelled Example.emptyStore StoreOK_empty).
Defined.

Lemma search_bad_regexp_witness :
  let req := Example.request 4 "search" [] "(" [] Example.noRange in
  Meta_Action (Request_Meta req) = "search"
  /\ regexp_Compile (Collaborators := Example.collaborators)
                    (Request_Regexp req) = inr "missing closing )"
  /\ serve (H := Example.collaborators) Example.h req Example.env
           Example.emptyStore
     = ([mkResponse (Request_Meta req) [] []
                    "Bad regexp (: missing closing )" false;
         mkResponse (Request_Meta req) [] [] "" true],
        Example.emptyStore).
Proof.
  intros req. split; [reflexivity|]. split; [reflexivity|].
  exact (proj1 (search_bad_regexp (H := Example.collaborators) Example.h req
                  Example.env Example.emptyStore "missing closing )"
                  eq_refl eq_refl)).
Defined.

Lemma search_lines_match_witness :
  let req := Example.request 5 "search" [] "up" [] Example.noRange in
  Meta_Action (Request_Meta req) = "search"
  /\ regexp_Compile (Collaborators := Example.collaborators)
                    (Request_Regexp req) = inl "up"
  /\ Forall (fun r => Forall (fun l => Example.matches "up" (Log_Msg l) = true)
                             (Lines r))
            (fst (serve (H := Example.collaborators) Example.h req
                        Example.env Example.emptyStore)).
Proof.
  intros req. split; [reflexivity|]. split; [reflexivity|].
  exact (proj1 (search_lines_match (H := Example.collaborators) Example.h req
                  Example.env Example.emptyStore "up" eq_refl eq_refl)).
Defined.

Lemma read_end_of_file_witness :
  let req := Example.request 6 "get-content" ["b.log"] "" [] Example.noRange in
  FS_Lstat Example.fs1 "b.log" = Some (mkFileInfo 0 false)
  /\ fi_IsDir (mkFileInfo 0 false) = false
  /\ FS_Open Example.fs1 "b.log" = Some (mkScanned [] false)
  /\ timeNow Example.free = (0, mkTask None (fun _ => 0) 1)
  /\ fst (read (H := Example.collaborators) Example.h req Example.node1
               "b.log" None Example.free)
     = [mkResponse (mkMeta 6 "get-content" "node1" ["b.log"]) [] [] ""
                   false].
Proof.
  intros req. repeat (split; [reflexivity|]).
  exact (proj1 (proj2 (read_end_of_file (H := Example.collaborators)
                         Example.h req Example.node1 "b.log" None
                         Example.free (mkFileInfo 0 false)
                         (mkScanned [] false) 0
                         (mkTask None (fun _ => 0) 1)
                         eq_refl eq_refl eq_refl eq_refl))
               eq_refl eq_refl eq_refl).
Defined.

Lemma time_filtered_line_not_counted_witness :
  let req :=
    Example.request 7 "get-content" ["a.log"] "" [] Example.from3 in
  cancelAfter Example.free <> Some 0%nat
  /\ filterOutTime (fst (Example.parser "a.log" "1 up" tt)) (FilterTime req)
     = true
  /\ exists t',
       scanLine (H := Example.collaborators) Example.h req "node1" "a.log"
                (mkMeta 7 "get-content" "node1" ["a.log"]) None "1 up"
                Example.reader0 Example.free
       = (Next, Example.reader0, t', []).
Proof.
  intros req. split; [discriminate|]. split; [reflexivity|].
  exact (proj1 (time_filtered_line_not_counted (H := Example.collaborators)
                  Example.h req "node1" "a.log"
                  (mkMeta 7 "get-content" "node1" ["a.log"]) None)
               "1 up" Example.reader0 Example.free
               ltac:(discriminate) eq_refl eq_refl).
Defined.

Lemma tree_requests_idempotent_witness :
  let req1 :=
    Example.request 1 "get-file-tree" [] "" ["node2"] Example.noRange in
  let req2 :=
    Example.request 2 "get-file-tree" [] "" ["node2"] Example.noRange in
  let res1 :=
    serveTree (H := Example.collaborators) Example.h req1 Example.env
              Example.emptyStore in
  let res2 :=
    serveTree (H := Example.collaborators) Example.h req2 Example.env
              (snd res1) in
  let a2 :=
    mkFile "a.log" ["a.log"] false [mkFileInstance 3 "node2"] in
  let a12 :=
    mkFile "a.log" ["a.log"] false
           [mkFileInstance 7 "node1"; mkFileInstance 3 "node2"] in
  let b1 :=
    mkFile "b.log" ["b.log"] false [mkFileInstance 0 "node1"] in
  StoreOK Example.emptyStore
  /\ Request_Path req1 = Request_Path req2
  /\ filterSourceMap req1 = filterSourceMap req2
  /\ map (tree (snd res1)) (fst res1) = [[a2]]
  /\ map (tree (snd res2)) (fst res2) = [[a2]]
  /\ map (fun kl => (fst kl,
                     tree (snd res1) (responses (snd res1) !!! snd kl)))
         (map_to_list (cache (snd res1)))
     = [("", [a12; b1])]
  /\ map (fun kl => (fst kl,
                     tree (snd res2) (responses (snd res2) !!! snd kl)))
         (map_to_list (cache (snd res2)))
     = [("", [a12; b1])]
  /\ exists r1 st1 r2 st2,
       res1 = ([r1], st1)
       /\ res2 = ([r2], st2)
       /\ tree st2 r2 = tree st1 r1
       /\ tree st2 r1 = tree st1 r1
       /\ Meta_ID (Response_Meta r1) = 1
       /\ Meta_ID (Response_Meta r2) = 2
       /\ cache st2 = cache st1
       /\ exists l r0,
            cache st1 !! "" = Some l
            /\ responses st1 !! l = Some r0
            /\ responses st2 !! l = Some r0
            /\ tree st2 r0 = tree st1 r0
            /\ tree st1 r1 = filterTree (filterSourceMap req1) (tree st1 r0)
            /\ tree st2 r2 = filterTree (filterSourceMap req2) (tree st2 r0)
            /\ tree st1 r0
               = combine
                   (merge (sched Example.env)
                          (imap (fun i src =>
                                   fst (srcTree (H := Example.collaborators)
                                                Example.h req1 src
                                                (tasks Example.env i)))
                                (h_source Example.h))).
Proof.
  intros req1 req2 res1 res2 a2 a12 b1. split; [exact StoreOK_empty|].
  split; [reflexivity|]. split; [reflexivity|].
  split; [vm_compute; reflexivity|]. split; [vm_compute; reflexivity|].
  split; [vm_compute; reflexivity|]. split; [vm_compute; reflexivity|].
  destruct (tree_requests_idempotent (H := Example.collaborators) Example.h
              req1 req2 Example.env Example.env Example.emptyStore
              StoreOK_empty eq_refl eq_refl)
    as (r1 & st1 & r2 & st2 & H1 & H2 & H3 & H4 & H5 & H6 & _ & _ & _ & _
        & _ & _ & H7 & _ & _ & H8 & l & r0 & H9 & H10 & H11 & H12 & H13).
  exists r1, st1, r2, st2.
  split; [exact H1|].
  split; [unfold res2, res1; rewrite H1; exact H2|].
  split; [exact H3|]. split; [exact H4|]. split; [exact H5|].
  split; [exact H6|]. split; [exact H7|].
  exists l, r0. split; [exact H9|]. split; [exact H10|].
  destruct (H8 _ _ _ H9 H10) as [H14 H15].
  split; [exact H14|]. split; [exact H15|].
  split; [exact H11|]. split; [exact H12|].
  exact (H13 eq_refl).
Defined.

Lemma tree_merged_witness :
  let req :=
    Example.request 3 "get-file-tree" [] "" ["node2"] Example.noRange in
  StoreOK Example.emptyStore
  /\ cache Example.emptyStore
       !! filepath_Join (Collaborators := Example.collaborators)
            (Request_Path req) = None
  /\ (forall i, neverCancelled (tasks Example.env i))
  /\ (forall src, src ∈ h_source Example.h ->
                  NoDup (walkedKeys (H := Example.collaborators) Example.h
                                    req src))
  /\ exists r st',
       serveTree (H := Example.collaborators) Example.h req Example.env
                 Example.emptyStore = ([r], st')
       /\ NoDup (map Key (tree st' r))
       /\ (forall f, f ∈ tree st' r ->
             Instances f <> []
             /\ Permutation
                  (map FileInstance_FS (Instances f))
                  (map Name
                       (List.filter
                          (fun src =>
                             passes (filterSourceMap req) (Name src)
                             && bool_decide
                                  (Key f ∈ walkedKeys
                                     (H := Example.collaborators) Example.h
                                     req src))
                          (h_source Example.h)))).
Proof.
  intros req.
  assert (Hnd : forall src, src ∈ h_source Example.h ->
                  NoDup (walkedKeys (H := Example.collaborators) Example.h
                                    req src)).
  { intros src Hsrc. simpl in Hsrc.
    apply elem_of_cons in Hsrc as [->|Hsrc];
      [|apply elem_of_cons in Hsrc as [->|Hsrc];
        [|apply elem_of_nil in Hsrc; contradiction]].
    - apply (bool_decide_unpack _). vm_compute. exact I.
    - apply (bool_decide_unpack _). vm_compute. exact I. }
  split; [exact StoreOK_empty|]. split; [reflexivity|].
  split; [intros i; reflexivity|]. split; [exact Hnd|].
  destruct (tree_merged (H := Example.collaborators) Example.h req
              Example.env Example.emptyStore StoreOK_empty eq_refl
              (fun i => eq_refl) Hnd)
    as (r & st' & H1 & H2 & _ & H3).
  exists r, st'. auto.
Defined.

(** C2 (the code departs from it). [serveTree] puts into the cache what
    the combiner holds when the walks return, also when they return
    because the request was cancelled, and answers every later request for
    the path from the cache.  Over the sources [node1] (with [a.log] and
    [b.log]) and [node2] (with [a.log]), starting with an empty cache: a
    first tree request that is cancelled before its walks take a step (as
    [ServeHTTP] cancels a request when the next one arrives) leaves an
    empty tree in the cache; a second request for the same path, without
    filter and never cancelled, is answered with the empty tree, although
    both sources pass the filter and have keys.  On the empty cache the
    same second request is answered with both keys, [a.log] with one
    instance for each of the two sources. *)
Theorem tree_from_cancelled_cache :
  let req1 := Example.request 1 "get-file-tree" [] "" [] Example.noRange in
  let req2 := Example.request 2 "get-file-tree" [] "" [] Example.noRange in
  let st1 :=
    snd (serve (H := Example.collaborators) Example.h req1
               Example.envCancelled Example.emptyStore) in
  let res :=
    serve (H := Example.collaborators) Example.h req2 Example.env st1 in
  let fresh :=
    serve (H := Example.collaborators) Example.h req2 Example.env
          Example.emptyStore in
  let keysAndSources (st : Store) (r : Response) :=
    map (fun f => (Key f, map FileInstance_FS (Instances f))) (tree st r) in
  (forall i, neverCancelled (tasks Example.env i))
  /\ cache Example.emptyStore = ∅
  /\ map (fun src => (Name src,
                      passes (filterSourceMap req2) (Name src),
                      walkedKeys (H := Example.collaborators) Example.h req2
                                 src))
         (h_source Example.h)
     = [("node1", true, ["a.log"; "b.log"]); ("node2", true, ["a.log"])]
  /\ map (fun r => (Meta_ID (Response_Meta r), Finished r,
                    keysAndSources (snd res) r)) (fst res)
     = [(2, false, []); (2, true, [])]
  /\ map (fun r => (Meta_ID (Response_Meta r), Finished r,
                    keysAndSources (snd fresh) r)) (fst fresh)
     = [(2, false, [("a.log", ["node1"; "node2"]); ("b.log", ["node1"])]);
        (2, true, [])].
Proof.
  split; [intros i; reflexivity|]. vm_compute. auto.
Qed.

Lemma content_stream_witness :
  let req :=
    Example.request 8 "get-content" ["a.log"] "" [] Example.noRange in
  let sc := mkScanned ["1 up"; "5 down"] false in
  let lines :=
    allLines
      (List.filter
         (fun r => String.eqb (Meta_FS (Response_Meta r)) "node1")
         (fst (serve (H := Example.collaborators) Example.h req Example.env
                     Example.emptyStore))) in
  Meta_Action (Request_Meta req) = "get-content"
  /\ NoDup (map Name (h_source Example.h))
  /\ filterSources (h_source Example.h) (filterSourceMap req) !! 0%nat
     = Some Example.node1
  /\ FS_Lstat Example.fs1 "a.log" = Some (mkFileInfo 7 false)
  /\ FS_Open Example.fs1 "a.log" = Some sc
  /\ Z.of_nat (length (scan_lines sc)) < 2 ^ 63 - 1
  /\ totalBytes (scan_lines sc) < 2 ^ 63
  /\ (forall k l, lines !! k = Some l -> Log_Line l = 1 + Z.of_nat k)
  /\ StronglySorted Z.le (map Log_Offset lines)
  /\ length lines = 2%nat.
Proof.
  intros req sc lines.
  assert (Hnd : NoDup (map Name (h_source Example.h))).
  { apply (bool_decide_unpack _). vm_compute. exact I. }
  split; [reflexivity|]. split; [exact Hnd|]. split; [reflexivity|].
  split; [reflexivity|]. split; [reflexivity|].
  split; [vm_compute; reflexivity|]. split; [vm_compute; reflexivity|].
  destruct (content_stream (H := Example.collaborators) Example.h req
              Example.env Example.emptyStore 0%nat Example.node1
              (mkFileInfo 7 false) sc eq_refl Hnd eq_refl eq_refl eq_refl
              eq_refl eq_refl eq_refl)
    as (H1 & H2 & H3).
  split; [exact H1|]. split; [exact H2|].
  apply H3; [reflexivity|reflexivity|]. repeat constructor.
Defined.

(** C5 (counterexample). A content request, not cancelled and without time
    filter, for a file that is not a directory and opens: the scanner
    yields two lines and then reports an error (the third line is beyond
    its limit), and the reader returns without sending the two lines. *)
Lemma content_stream_counterexample :
  let req :=
    Example.request 9 "get-content" ["c.log"] "" [] Example.noRange in
  let lines :=
    allLines
      (List.filter
         (fun r => String.eqb (Meta_FS (Response_Meta r)) "node3")
         (fst (serve (H := Example.collaborators) Example.h3 req Example.env
                     Example.emptyStore))) in
  FS_Lstat Example.fs3 "c.log" = Some (mkFileInfo 2000000 false)
  /\ FS_Open Example.fs3 "c.log" = Some (mkScanned ["a"; "b"] true)
  /\ neverCancelled (tasks Example.env 0)
  /\ length lines <> length ["a"; "b"].
Proof. vm_compute. repeat split; congruence. Qed.

(** * More of the engine *)

(** ** The configuration and the maps of names *)
Section MapProofs.

Lemma foldl_insert_true (l : list string) : forall (m : gmap string bool) k,
  foldl (fun m s => <[s := true]> m) m l !! k
  = if bool_decide (k ∈ l) then Some true else m !! k.
Proof.
  induction l as [|s l IH]; intros m k.
  - cbn [foldl]. case_bool_decide as Hin; [|reflexivity].
    apply elem_of_nil in Hin. contradiction.
  - cbn [foldl]. rewrite IH.
    case_bool_decide as Hl; case_bool_decide as Hsl; try reflexivity.
    + exfalso. apply Hsl. apply elem_of_cons. auto.
    + apply elem_of_cons in Hsl as [->|Hin]; [|contradiction].
      apply lookup_insert_eq.
    + apply lookup_insert_ne. intros ->. apply Hsl. apply elem_of_cons. auto.
Qed.

Lemma sourceSet_get l k : mapGet (sourceSet l) k = bool_decide (k ∈ l).
Proof.
  unfold mapGet, sourceSet. rewrite foldl_insert_true, lookup_empty.
  destruct (bool_decide (k ∈ l)); reflexivity.
Qed.

Lemma list2Map_has l k : mapHas (list2Map l) k = bool_decide (k ∈ l).
Proof.
  unfold mapHas, list2Map. rewrite foldl_insert_true, lookup_empty.
  destruct (bool_decide (k ∈ l)) eqn:E.
  - apply bool_decide_eq_true_2. eauto.
  - apply bool_decide_eq_false_2. intros [x Hx]. discriminate.
Qed.

Lemma sourceSet_empty l : mapIsEmpty (sourceSet l) = bool_decide (l = []).
Proof.
  unfold mapIsEmpty. destruct l as [|s l].
  - rewrite !bool_decide_eq_true_2; reflexivity.
  - rewrite !bool_decide_eq_false_2; [reflexivity|discriminate|].
    intros He.
    assert (Hs : sourceSet (s :: l) !! s = Some true).
    { unfold sourceSet. rewrite foldl_insert_true.
      rewrite bool_decide_eq_true_2; [reflexivity|].
      apply elem_of_cons. auto. }
    rewrite He, lookup_empty in Hs. discriminate.
Qed.

End MapProofs.

Section ConfigProofs.
Context `{Collaborators}.

(** X1. [New] replaces a batch size, a batch time and a search cap of zero
    by the defaults (2000 lines, 2 seconds, 5000 lines) and keeps every
    other value, so none of the three is zero in a handler; the sources are
    taken as given, and the two exclusion maps hold exactly the names of
    the configuration. *)
Theorem New_defaults c source parser :
  let h := New c source parser in
  ContentBatchSize (h_Config h)
  = (if ContentBatchSize c =? 0 then 2000 else ContentBatchSize c)
  /\ ContentBatchTime (h_Config h)
     = (if ContentBatchTime c =? 0 then 2000000000 else ContentBatchTime c)
  /\ SearchMaxSize (h_Config h)
     = (if SearchMaxSize c =? 0 then 5000 else SearchMaxSize c)
  /\ ContentBatchSize (h_Config h) <> 0
  /\ ContentBatchTime (h_Config h) <> 0
  /\ SearchMaxSize (h_Config h) <> 0
  /\ CacheExpiration (h_Config h) = CacheExpiration c
  /\ h_source h = source
  /\ (forall d, mapHas (excludeDirs h) d = true <-> d ∈ ExcludeDirs c)
  /\ (forall e, mapHas (excludeExtensions h) e = true
                <-> e ∈ ExcludeExtensions c).
Proof.
  unfold New. simpl.
  destruct c as [bs bt ms ce ee ed]. simpl.
  destruct (bs =? 0) eqn:Hbs, (bt =? 0) eqn:Hbt, (ms =? 0) eqn:Hms; simpl;
    rewrite ?Hbt, ?Hms; simpl; rewrite ?Hms; simpl;
    try apply Z.eqb_neq in Hbs; try apply Z.eqb_neq in Hbt;
    try apply Z.eqb_neq in Hms;
    (repeat (split; [first [reflexivity|assumption|discriminate]|]));
    (split; intros x; rewrite list2Map_has; apply bool_decide_eq_true).
Qed.

(** X2. The map [Init] builds holds exactly the names of [filter_fs], and
    [filterSources] with it returns all sources when [filter_fs] is empty,
    and otherwise the sources that are named in it, in the order of the
    registry; names of the filter that no source has are without effect.
    Filtering a second time changes nothing. *)
Theorem filterSources_Init (r : Request) (sources : list Source) :
  let m := filterSourceMap (Init r) in
  (forall name, mapGet m name = true <-> name ∈ FilterSource r)
  /\ filterSources sources m
     = (if bool_decide (FilterSource r = []) then sources
        else List.filter (fun src => bool_decide (Name src ∈ FilterSource r))
                         sources)
  /\ filterSources (filterSources sources m) m = filterSources sources m.
Proof.
  simpl. split; [|split].
  - intros name. rewrite sourceSet_get. apply bool_decide_eq_true.
  - unfold filterSources. rewrite sourceSet_empty.
    destruct (bool_decide (FilterSource r = [])); [reflexivity|].
    apply List.filter_ext. intros src. apply sourceSet_get.
  - unfold filterSources. destruct (mapIsEmpty _); [reflexivity|].
    induction sources as [|src l IH]; simpl; [reflexivity|].
    destruct (mapGet _ (Name src)) eqn:E; simpl; rewrite ?E, IH;
      reflexivity.
Qed.

End ConfigProofs.

(** ** Files, filters and the combiner *)
Section FilterProofs.
Context `{Collaborators}.

Lemma filter_filter {A : Type} (p : A -> bool) (l : list A) :
  List.filter p (List.filter p l) = List.filter p l.
Proof.
  induction l as [|x l IH]; simpl; [reflexivity|].
  destruct (p x) eqn:E; simpl; rewrite ?E, IH; reflexivity.
Qed.

Lemma File_FilterSources_inv S f f' :
  File_FilterSources f S = Some f' ->
  f' = mkFile (Key f) (File_Path f) (IsDir f)
              (List.filter (fun i => mapGet S (FileInstance_FS i))
                           (Instances f))
  /\ Instances f' <> [].
Proof.
  unfold File_FilterSources, Go.len.
  destruct (List.filter _ (Instances f)) as [|i l] eqn:E; simpl;
    [discriminate|].
  intros [= <-]. split; [reflexivity|discriminate].
Qed.

Lemma File_FilterSources_again S f f' :
  File_FilterSources f S = Some f' -> File_FilterSources f' S = Some f'.
Proof.
  intros Hf. apply File_FilterSources_inv in Hf as [-> Hne]. simpl in Hne.
  unfold File_FilterSources, Go.len. simpl. rewrite filter_filter.
  destruct (List.filter _ (Instances f)); [contradiction|reflexivity].
Qed.

(** X3. [File.FilterSources] returns nil exactly when no instance of the
    file is in a source of the map, and in particular always with an empty
    map; otherwise the result has the key, path and kind of the file and
    those of its instances whose source is in the map, in their order, at
    least one; and filtering the result again returns it unchanged. *)
Theorem File_FilterSources_spec (f : File) (S : gmap string bool) :
  (File_FilterSources f S = None
   <-> Forall (fun i => mapGet S (FileInstance_FS i) = false) (Instances f))
  /\ File_FilterSources f ∅ = None
  /\ (forall f', File_FilterSources f S = Some f' ->
        Key f' = Key f /\ File_Path f' = File_Path f /\ IsDir f' = IsDir f
        /\ Instances f'
           = List.filter (fun i => mapGet S (FileInstance_FS i))
                         (Instances f)
        /\ Instances f' <> []
        /\ File_FilterSources f' S = Some f').
Proof.
  assert (Hnone : forall S0,
            File_FilterSources f S0 = None
            <-> Forall (fun i => mapGet S0 (FileInstance_FS i) = false)
                       (Instances f)).
  { intros S0. unfold File_FilterSources, Go.len. split.
    - destruct (List.filter _ (Instances f)) as [|i l] eqn:E; simpl;
        [|discriminate].
      intros _. apply Forall_forall. intros i Hi.
      destruct (mapGet S0 (FileInstance_FS i)) eqn:Hg; [|reflexivity].
      assert (Hin : In i (List.filter
                            (fun i => mapGet S0 (FileInstance_FS i))
                            (Instances f))).
      { apply List.filter_In. split; [apply list_elem_of_In; exact Hi|].
        exact Hg. }
      rewrite E in Hin. destruct Hin.
    - intros Hall. rewrite (filter_none _ _ Hall). reflexivity. }
  split; [apply Hnone|]. split.
  - apply Hnone. apply Forall_forall. intros i _. unfold mapGet.
    rewrite lookup_empty. reflexivity.
  - intros f' Hf. pose proof (File_FilterSources_again S f f' Hf) as Hagain.
    apply File_FilterSources_inv in Hf as [-> Hne]. simpl in *. auto 10.
Qed.

Lemma omap_again {A : Type} (g : A -> option A) (l : list A) :
  (forall x y, g x = Some y -> g y = Some y) ->
  omap g (omap g l) = omap g l.
Proof.
  intros Hg. induction l as [|x l IH]; simpl; [reflexivity|].
  destruct (g x) as [y|] eqn:E; simpl; [|exact IH].
  rewrite (Hg x y E). f_equal. exact IH.
Qed.

Lemma filterTree_again S fl : filterTree S (filterTree S fl) = filterTree S fl.
Proof.
  unfold filterTree. destruct (mapIsEmpty S); [reflexivity|].
  apply omap_again. intros x y. apply File_FilterSources_again.
Qed.

(** X4. [Response.FilterSources] writes to no object that exists: the heap
    it leaves begins with the heap it finds, and the files of the response
    it is called on are as they were.  The result has the meta, lines,
    error and finished flag of the response; with an empty map its files
    are those of the response, and otherwise its tree is the tree of the
    response with every file filtered and the files without instance left
    out.  Filtering the result again with the same map gives the same
    tree. *)
Theorem Response_FilterSources_pure (r : Response) (S : gmap string bool)
    (heap : list File) :
  Forall (fun p => (p < length heap)%nat) (Files r) ->
  let res1 := Response_FilterSources r S heap in
  let res2 := Response_FilterSources (fst res1) S (snd res1) in
  let treeOf (hp : list File) (x : Response) :=
    map (fun p => hp !!! p) (Files x) in
  (exists new, snd res1 = heap ++ new)
  /\ treeOf (snd res1) r = treeOf heap r
  /\ Response_Meta (fst res1) = Response_Meta r
  /\ Lines (fst res1) = Lines r /\ Error (fst res1) = Error r
  /\ Finished (fst res1) = Finished r
  /\ (S = ∅ -> fst res1 = r /\ snd res1 = heap)
  /\ treeOf (snd res1) (fst res1)
     = (if mapIsEmpty S then treeOf heap r
        else omap (fun f => File_FilterSources f S) (treeOf heap r))
  /\ treeOf (snd res2) (fst res2) = treeOf (snd res1) (fst res1).
Proof.
  intros Hv res1 res2 treeOf.
  destruct (Response_FilterSources_spec r S heap Hv)
    as ((new & Hnew) & Hv1 & Ht1).
  destruct (Response_FilterSources_fields r S heap) as (Hm & Hl & He & Hf).
  fold res1 in Hnew, Hv1, Ht1, Hm, Hl, He, Hf.
  destruct (Response_FilterSources_spec (fst res1) S (snd res1) Hv1)
    as (_ & _ & Ht2).
  fold res2 in Ht2.
  split; [eauto|]. split.
  { unfold treeOf. rewrite Hnew. apply tree_stable. exact Hv. }
  repeat (split; [assumption|]).
  split.
  { intros ->. subst res1. unfold Response_FilterSources, mapIsEmpty.
    rewrite bool_decide_eq_true_2 by reflexivity. auto. }
  split; [exact Ht1|].
  unfold treeOf. rewrite Ht2, Ht1. apply filterTree_again.
Qed.

(** X5. The combiner, started empty on a heap and given calls of [add]
    whose files carry no instance yet (as [srcTree] makes them): it writes
    to none of the objects the heap had; its files are distinct new
    objects, one for every key that was added; the index leads from every
    key to the file of the key, and to nothing else;
    and the file of a key holds the instances added under the key, in the
    order of the calls. *)
Theorem combiner_adds (heap0 : list File) (ops : list (File * FileInstance)) :
  Forall (fun op => Instances (fst op) = []) ops ->
  let c := fst (addAll ops (newCombiner, heap0)) in
  let heap := snd (addAll ops (newCombiner, heap0)) in
  (exists new, heap = heap0 ++ new
               /\ c_files c = seq (length heap0) (length new))
  /\ NoDup (c_files c)
  /\ NoDup (map (fun p => Key (heap !!! p)) (c_files c))
  /\ (forall k, k ∈ map (fun p => Key (heap !!! p)) (c_files c)
                <-> k ∈ map (fun op => Key (fst op)) ops)
  /\ (forall p, p ∈ c_files c ->
        c_index c !! Key (heap !!! p) = Some p
        /\ Instances (heap !!! p) = instancesOf (Key (heap !!! p)) ops)
  /\ (forall k p, c_index c !! k = Some p ->
        p ∈ c_files c /\ Key (heap !!! p) = k).
Proof.
  intros Hall c heap.
  pose proof (addAll_represents heap0 ops _ _ (newCombiner_represents heap0))
    as (Hheap & Hfiles & Hidx).
  fold (combine ops) in Hheap, Hfiles, Hidx. fold c in Hfiles, Hidx.
  fold heap in Hheap.
  destruct (combine_spec ops Hall) as (Hnd & Hkeys & Hinst).
  assert (Htree : map (fun p => heap !!! p) (c_files c) = combine ops).
  { rewrite Hheap, Hfiles. apply tree_of_seq. }
  assert (Hkeymap : map (fun p => Key (heap !!! p)) (c_files c)
                    = map Key (combine ops)).
  { rewrite <- Htree, map_map. reflexivity. }
  assert (Hat : forall j f, combine ops !! j = Some f ->
                  heap !!! (length heap0 + j)%nat = f).
  { intros j f Hj. rewrite Hheap.
    rewrite lookup_total_app_r by lia.
    replace (length heap0 + j - length heap0)%nat with j by lia.
    apply list_lookup_total_correct. exact Hj. }
  assert (Hpos : forall j f, combine ops !! j = Some f ->
                   position (Key f) (combine ops) = Some j).
  { intros j f Hj.
    destruct (position (Key f) (combine ops)) as [j'|] eqn:Hp.
    - destruct (position_Some _ _ _ Hp) as (f' & Hj' & Hk').
      f_equal. apply (NoDup_lookup _ j' j (Key f) Hnd).
      + rewrite lookup_map, Hj'. simpl. congruence.
      + rewrite lookup_map, Hj. reflexivity.
    - apply position_None in Hp. exfalso. apply Hp.
      apply list_elem_of_In, in_map, list_elem_of_In.
      eapply list_elem_of_lookup_2; exact Hj. }
  split; [eauto|]. split; [rewrite Hfiles; apply NoDup_seq|].
  split; [rewrite Hkeymap; exact Hnd|].
  split; [intros k; rewrite Hkeymap; apply Hkeys|].
  split.
  - intros p Hp. rewrite Hfiles in Hp.
    apply list_elem_of_In, in_seq in Hp.
    destruct (lookup_lt_is_Some_2 (combine ops) (p - length heap0)%nat
                ltac:(lia)) as [f Hf].
    pose proof (Hat _ _ Hf) as Hd.
    replace (length heap0 + (p - length heap0))%nat with p in Hd by lia.
    rewrite Hd. split.
    + rewrite Hidx, (Hpos _ _ Hf). simpl. f_equal. lia.
    + apply Hinst. eapply list_elem_of_lookup_2; exact Hf.
  - intros k p Hk. rewrite Hidx in Hk.
    destruct (position k (combine ops)) as [j|] eqn:Hp; [|discriminate].
    simpl in Hk. injection Hk as <-.
    destruct (position_Some _ _ _ Hp) as (f & Hj & Hkf).
    rewrite (Hat _ _ Hj). split; [|exact Hkf].
    rewrite Hfiles. apply list_elem_of_In, in_seq.
    apply lookup_lt_Some in Hj. lia.
Qed.

End FilterProofs.

(** ** Paths and keys *)
Section PathProofs.

Lemma isSep_eq c : Go.isSep c = true -> c = "/"%char.
Proof. unfold Go.isSep. apply Ascii.eqb_eq. Qed.

Lemma Split_nonempty s : Go.Split s <> [].
Proof.
  destruct s as [|c s]; simpl; [discriminate|].
  destruct (Go.isSep c); [discriminate|].
  destruct (Go.Split s); discriminate.
Qed.

(** Joining what [strings.Split] returns gives the string back. *)
Lemma concat_Split s : String.concat "/" (Go.Split s) = s.
Proof.
  induction s as [|c s IH]; simpl; [reflexivity|].
  destruct (Go.isSep c) eqn:Hc.
  - apply isSep_eq in Hc. subst c.
    destruct (Go.Split s) as [|x xs] eqn:E; [destruct (Split_nonempty s E)|].
    simpl in *. rewrite IH. reflexivity.
  - destruct (Go.Split s) as [|x xs] eqn:E; [destruct (Split_nonempty s E)|].
    rewrite <- IH. destruct xs as [|y ys]; reflexivity.
Qed.

Lemma TrimRight_again s : Go.TrimRight (Go.TrimRight s) = Go.TrimRight s.
Proof.
  induction s as [|c s IH]; simpl; [reflexivity|].
  destruct (Go.TrimRight s) as [|d r] eqn:E.
  - destruct (Go.isSep c) eqn:Hc; simpl; [reflexivity|].
    rewrite Hc. reflexivity.
  - simpl. simpl in IH. rewrite IH. reflexivity.
Qed.

Lemma TrimLeft_TrimRight s :
  Go.TrimLeft s = s -> Go.TrimLeft (Go.TrimRight s) = Go.TrimRight s.
Proof.
  destruct s as [|c s]; simpl; [reflexivity|].
  destruct (Go.isSep c) eqn:Hc.
  - intros Hs. exfalso.
    assert (Hlen : forall x, (String.length (Go.TrimLeft x)
                              <= String.length x)%nat).
    { induction x as [|d x IHx]; simpl; [lia|].
      destruct (Go.isSep d); simpl; lia. }
    specialize (Hlen s). rewrite Hs in Hlen. simpl in Hlen. lia.
  - intros _. destruct (Go.TrimRight s); simpl; rewrite Hc; reflexivity.
Qed.

Lemma TrimLeft_again s : Go.TrimLeft (Go.TrimLeft s) = Go.TrimLeft s.
Proof.
  induction s as [|c s IH]; simpl; [reflexivity|].
  destruct (Go.isSep c) eqn:Hc; [exact IH|]. simpl. rewrite Hc. reflexivity.
Qed.

(** A trimmed string is not changed by trimming. *)
Lemma Trim_again s : Go.Trim (Go.Trim s) = Go.Trim s.
Proof.
  unfold Go.Trim.
  rewrite (TrimLeft_TrimRight (Go.TrimLeft s)) by apply TrimLeft_again.
  apply TrimRight_again.
Qed.

End PathProofs.

(** ** Walks: the exclusion policy and cancellation *)
Section WalkMoreProofs.
Context `{Collaborators}.

(** The function of a walk is called on items that pass the exclusion
    policy only: what holds of its output on such items holds of all the
    walk puts out. *)
Lemma recurseItem_Forall_allowed {Out : Type} (P : Out -> Prop) h
    (f : string -> FileInfo -> Task -> list Out * Task) :
  (forall p st t, allowed h (p, st) = true -> Forall P (fst (f p st t))) ->
  forall w t, Forall P (snd (recurseItem h f w t)).
Proof.
  intros Hf.
  assert (Hitem : forall p st t0,
            (fi_IsDir st = true -> mapHas (excludeDirs h) (Go.Base p) = false
             -> Forall P (fst (f p st t0)))
            /\ (fi_IsDir st = false
                -> mapHas (excludeExtensions h) (Go.Ext p) = false
                -> Forall P (fst (f p st t0)))).
  { intros p st t0. split; intros Hd He; apply Hf; unfold allowed; simpl;
      rewrite Hd, He; reflexivity. }
  induction w as [p info|p info l IHl] using WalkTree_nested_ind; intros t.
  - simpl. destruct (ctxErr t) as [[|] t0]; [constructor|].
    destruct info as [st|]; [|constructor].
    destruct (Hitem p st t0) as [Hdir Hfile].
    destruct (fi_IsDir st).
    + destruct (mapHas (excludeDirs h) (Go.Base p)); [constructor|].
      specialize (Hdir eq_refl eq_refl). destruct (f p st t0) as [out t1].
      destruct (ctxErr t1) as [[|] t2]; exact Hdir.
    + destruct (mapHas (excludeExtensions h) (Go.Ext p)); [constructor|].
      specialize (Hfile eq_refl eq_refl). destruct (f p st t0) as [out t1].
      exact Hfile.
  - rewrite recurseItem_entries.
    destruct (ctxErr t) as [[|] t0]; [constructor|].
    destruct info as [st|]; [|constructor].
    destruct (Hitem p st t0) as [Hdir Hfile].
    destruct (fi_IsDir st).
    + destruct (mapHas (excludeDirs h) (Go.Base p)); [constructor|].
      specialize (Hdir eq_refl eq_refl). destruct (f p st t0) as [out t1].
      assert (Hl : forall t, Forall P (snd (recurseItems h f l t))).
      { clear -IHl. induction IHl as [|w l Hw _ IH]; intros t.
        - constructor.
        - rewrite recurseItems_cons. specialize (Hw t).
          destruct (recurseItem h f w t) as [[fl1 t1] out1].
          destruct fl1; [|exact Hw].
          specialize (IH t1).
          destruct (recurseItems h f l t1) as [[fl2 t2] out2].
          apply Forall_app. split; assumption. }
      specialize (Hl t1).
      destruct (recurseItems h f l t1) as [[fl t2] out'].
      apply Forall_app. split; assumption.
    + destruct (mapHas (excludeExtensions h) (Go.Ext p)); [constructor|].
      specialize (Hfile eq_refl eq_refl). destruct (f p st t0) as [out t1].
      exact Hfile.
Qed.

(** A walk that is cancelled has called its function on an initial part
    of the items a walk that is not cancelled calls it on. *)
Lemma recurseItem_prefix {Out : Type} (h : handler)
    (f : string -> FileInfo -> Task -> list Out * Task)
    (g : string -> FileInfo -> list Out) :
  (forall p st t, f p st t = (g p st, t)) ->
  forall w t fl t' out,
    recurseItem h f w t = (fl, t', out) ->
    (fl = Next ->
     out = concat (map (fun it => g (fst it) (snd it)) (visited h w)))
    /\ exists rest,
         concat (map (fun it => g (fst it) (snd it)) (visited h w))
         = out ++ rest.
Proof.
  intros Hf.
  induction w as [p info|p info l IHl] using WalkTree_nested_ind;
    intros t fl t' out.
  - simpl. destruct (ctxErr t) as [[|] t0].
    { intros [= <- <- <-]. split; [discriminate|eauto]. }
    destruct info as [st|].
    { destruct (fi_IsDir st).
      - destruct (mapHas _ _).
        { intros [= <- <- <-]. split; [reflexivity|exists []; reflexivity]. }
        rewrite Hf. destruct (ctxErr t0) as [[|] t1];
          intros [= <- <- <-]; simpl; rewrite app_nil_r;
          (split; [try discriminate; reflexivity
                  |exists []; rewrite app_nil_r; reflexivity]).
      - destruct (mapHas _ _).
        { intros [= <- <- <-]. split; [reflexivity|exists []; reflexivity]. }
        rewrite Hf. intros [= <- <- <-]. simpl. rewrite app_nil_r.
        split; [reflexivity|exists []; rewrite app_nil_r; reflexivity]. }
    intros [= <- <- <-]. split; [reflexivity|exists []; reflexivity].
  - rewrite recurseItem_entries. destruct (ctxErr t) as [[|] t0].
    { intros [= <- <- <-]. split; [discriminate|eauto]. }
    destruct info as [st|];
      [|intros [= <- <- <-]; split; [reflexivity|exists []; reflexivity]].
    rewrite visited_entries.
    destruct (fi_IsDir st).
    + destruct (mapHas _ _).
      { intros [= <- <- <-]. split; [reflexivity|exists []; reflexivity]. }
      rewrite Hf.
      assert (Hl : forall t fl t' out,
                recurseItems h f l t = (fl, t', out) ->
                (fl = Next ->
                 out = concat (map (fun it => g (fst it) (snd it))
                                   (visitedAll h l)))
                /\ exists rest,
                     concat (map (fun it => g (fst it) (snd it))
                                 (visitedAll h l)) = out ++ rest).
      { clear -IHl. induction IHl as [|w l Hw _ IH]; intros t fl t' out.
        - intros [= <- <- <-]. split; [reflexivity|exists []; reflexivity].
        - rewrite recurseItems_cons, visitedAll_cons, map_app, concat_app.
          destruct (recurseItem h f w t) as [[fl1 t1] out1] eqn:Hw1.
          destruct (Hw _ _ _ _ Hw1) as [Hnext [rest1 Hrest1]].
          destruct fl1.
          + destruct (recurseItems h f l t1) as [[fl2 t2] out2] eqn:Hl2.
            destruct (IH _ _ _ _ Hl2) as [Hnext2 [rest2 Hrest2]].
            intros [= <- <- <-]. rewrite (Hnext eq_refl). split.
            * intros Hn. rewrite (Hnext2 Hn). reflexivity.
            * exists rest2. rewrite Hrest2, <- (Hnext eq_refl), app_assoc.
              reflexivity.
          + intros [= <- <- <-]. split; [discriminate|].
            eexists. rewrite Hrest1, <- app_assoc. reflexivity. }
      destruct (recurseItems h f l t0) as [[fl2 t2] out2] eqn:Hl2.
      destruct (Hl _ _ _ _ Hl2) as [Hnext2 [rest2 Hrest2]].
      intros [= <- <- <-]. simpl. split.
      * intros Hn. rewrite (Hnext2 Hn). reflexivity.
      * exists rest2. rewrite Hrest2, <- app_assoc. reflexivity.
    + destruct (mapHas _ _).
      { intros [= <- <- <-]. split; [reflexivity|exists []; reflexivity]. }
      rewrite Hf. intros [= <- <- <-]. simpl. rewrite app_nil_r.
      split; [reflexivity|exists []; rewrite app_nil_r; reflexivity].
Qed.

Lemma srcTreeVisit_pure src p st t :
  srcTreeVisit src p st t
  = (fst (srcTreeVisit src p st (mkTask None (fun _ => 0) 0)), t).
Proof.
  unfold srcTreeVisit. destruct (Go.isEmpty (Go.Trim p)); reflexivity.
Qed.

Lemma srcTree_prefix h req src t :
  exists rest, walkedOps h req src = fst (srcTree h req src t) ++ rest.
Proof.
  unfold srcTree, recurseTree, walkedOps.
  destruct (recurseItem h (srcTreeVisit src) _ t) as [[fl t'] out] eqn:Hw.
  destruct (recurseItem_prefix h (srcTreeVisit src)
              (fun p st => fst (srcTreeVisit src p st
                                             (mkTask None (fun _ => 0) 0)))
              (srcTreeVisit_pure src) _ _ _ _ _ Hw) as [_ Hrest].
  exact Hrest.
Qed.

(** X6. Every call of [add] a source makes, at whatever point its walk is
    cancelled, is for a key that is not empty and neither begins nor ends
    with a separator (trimming it changes nothing); the path of the file
    is the key split at the separators, so that joining the path gives the
    key back; the file carries no instance yet, and the instance is under
    the name of the source. *)
Theorem srcTree_calls (h : handler) (req : Request) (src : Source)
    (t : Task) :
  Forall (fun op : File * FileInstance =>
            Key (fst op) <> ""
            /\ Go.Trim (Key (fst op)) = Key (fst op)
            /\ File_Path (fst op) = Go.Split (Key (fst op))
            /\ String.concat "/" (File_Path (fst op)) = Key (fst op)
            /\ Instances (fst op) = []
            /\ FileInstance_FS (snd op) = Name src)
         (fst (srcTree h req src t)).
Proof.
  unfold srcTree. apply recurseTree_Forall. intros p st t0.
  unfold srcTreeVisit. destruct (Go.isEmpty (Go.Trim p)) eqn:E; simpl;
    [constructor|].
  repeat constructor; simpl.
  - intros Hk. rewrite Hk in E. discriminate.
  - apply Trim_again.
  - apply concat_Split.
Qed.

(** X7. Cancellation only cuts a walk short: the calls of [add] a source
    makes when its walk is cancelled at some point are an initial part of
    the calls it makes when it is not cancelled. *)
Theorem srcTree_cancelled_prefix (h : handler) (req : Request)
    (src : Source) (t : Task) :
  exists rest,
    fst (srcTree h req src (mkTask None (clock t) (tick t)))
    = fst (srcTree h req src t) ++ rest.
Proof.
  destruct (srcTree_prefix h req src t) as [rest Hrest].
  exists rest. rewrite <- Hrest. apply srcTree_never. reflexivity.
Qed.

(** The visited items pass the exclusion policy. *)
Lemma visited_allowed h w :
  Forall (fun it => allowed h it = true) (visited h w).
Proof.
  assert (Hitem : forall p st,
            (fi_IsDir st = true -> mapHas (excludeDirs h) (Go.Base p) = false
             -> allowed h (p, st) = true)
            /\ (fi_IsDir st = false
                -> mapHas (excludeExtensions h) (Go.Ext p) = false
                -> allowed h (p, st) = true)).
  { intros p st. split; intros Hd He; unfold allowed; simpl;
      rewrite Hd, He; reflexivity. }
  induction w as [p info|p info l IHl] using WalkTree_nested_ind.
  - simpl. destruct info as [st|]; [|constructor].
    destruct (Hitem p st) as [Hdir Hfile].
    destruct (fi_IsDir st).
    + destruct (mapHas (excludeDirs h) (Go.Base p)); [constructor|].
      repeat constructor. apply Hdir; reflexivity.
    + destruct (mapHas (excludeExtensions h) (Go.Ext p)); [constructor|].
      repeat constructor. apply Hfile; reflexivity.
  - destruct info as [st|]; [|constructor]. rewrite visited_entries.
    destruct (Hitem p st) as [Hdir Hfile].
    destruct (fi_IsDir st).
    + destruct (mapHas (excludeDirs h) (Go.Base p)); [constructor|].
      constructor; [apply Hdir; reflexivity|].
      clear -IHl. induction IHl as [|w l Hw _ IH]; [constructor|].
      rewrite visitedAll_cons. apply Forall_app. split; assumption.
    + destruct (mapHas (excludeExtensions h) (Go.Ext p)); [constructor|].
      repeat constructor. apply Hfile; reflexivity.
Qed.

(** What a walk passes on comes from calls of its function on visited
    items, at whatever point the walk is cancelled. *)
Lemma recurseItem_Forall_visited {Out : Type} (P : Out -> Prop) h
    (f : string -> FileInfo -> Task -> list Out * Task) w :
  (forall p st t, (p, st) ∈ visited h w -> Forall P (fst (f p st t))) ->
  forall t, Forall P (snd (recurseItem h f w t)).
Proof.
  induction w as [p info|p info l IHl] using WalkTree_nested_ind;
    intros Hf t.
  - simpl in *. destruct (ctxErr t) as [[|] t0]; [constructor|].
    destruct info as [st|]; [|constructor].
    destruct (fi_IsDir st).
    + destruct (mapHas (excludeDirs h) (Go.Base p)); [constructor|].
      specialize (Hf p st t0 ltac:(left)).
      destruct (f p st t0) as [out t1].
      destruct (ctxErr t1) as [[|] t2]; exact Hf.
    + destruct (mapHas (excludeExtensions h) (Go.Ext p)); [constructor|].
      specialize (Hf p st t0 ltac:(left)).
      destruct (f p st t0) as [out t1]. exact Hf.
  - rewrite recurseItem_entries.
    destruct (ctxErr t) as [[|] t0]; [constructor|].
    destruct info as [st|]; [|constructor].
    rewrite visited_entries in Hf.
    destruct (fi_IsDir st).
    + destruct (mapHas (excludeDirs h) (Go.Base p)); [constructor|].
      pose proof (Hf p st t0 ltac:(left)) as Hhere.
      assert (Hl : forall t, Forall P (snd (recurseItems h f l t))).
      { assert (Hin : forall q sq tq, (q, sq) ∈ visitedAll h l ->
                        Forall P (fst (f q sq tq))).
        { intros q sq tq Hq. apply Hf. right. exact Hq. }
        clear -IHl Hin. induction IHl as [|w l Hw _ IH]; intros t.
        - constructor.
        - rewrite recurseItems_cons. rewrite visitedAll_cons in Hin.
          assert (Hw' : Forall P (snd (recurseItem h f w t))).
          { apply Hw. intros q sq tq Hq. apply Hin. apply elem_of_app.
            left. exact Hq. }
          destruct (recurseItem h f w t) as [[fl1 t1] out1].
          destruct fl1; [|exact Hw'].
          assert (IH' : Forall P (snd (recurseItems h f l t1))).
          { apply IH. intros q sq tq Hq. apply Hin. apply elem_of_app.
            right. exact Hq. }
          destruct (recurseItems h f l t1) as [[fl2 t2] out2].
          apply Forall_app. split; assumption. }
      destruct (f p st t0) as [out t1]. specialize (Hl t1).
      destruct (recurseItems h f l t1) as [[fl t2] out'].
      apply Forall_app. split; assumption.
    + destruct (mapHas (excludeExtensions h) (Go.Ext p)); [constructor|].
      specialize (Hf p st t0 ltac:(left)).
      destruct (f p st t0) as [out t1]. exact Hf.
Qed.

(** X8. The exclusion policy of the walks.  The items a walk passes on, at
    whatever point it is cancelled, are directories whose base name is not
    in [exclude_dirs] and files whose extension is not in
    [exclude_extensions]; a walk that starts at an excluded directory
    passes on nothing, whatever is in the directory.  So every response of
    the search of a source is a response of the reader for an item that
    passes the policy: for a path and the file information the walker
    yields for it, among the items of the walk that are neither excluded
    nor below an excluded directory. *)
Theorem walk_exclusion_policy (h : handler) (req : Request) (node : Source)
    (path : string) (t : Task) :
  Forall (fun it => allowed h it = true)
         (fst (recurseTree h path node recordItem t))
  /\ (forall p st entries,
        FS_Walk (Source_FS node) path = WItem p (Some st) entries ->
        fi_IsDir st = true ->
        mapHas (excludeDirs h) (Go.Base p) = true ->
        fst (recurseTree h path node recordItem t) = [])
  /\ (forall re,
        Forall (fun r => exists p st,
                  (p, st) ∈ visited h (FS_Walk (Source_FS node) path)
                  /\ allowed h (p, st) = true /\ ofRead req node p r)
               (fst (searchNode h req node path re t)))
  /\ Forall (fun it => it ∈ visited h (FS_Walk (Source_FS node) path))
            (fst (recurseTree h path node recordItem t)).
Proof.
  split; [|split; [|split]].
  - unfold recurseTree.
    pose proof (recurseItem_Forall_allowed
                  (fun it => allowed h it = true) h recordItem) as Hw.
    specialize (Hw ltac:(intros p st t0 Ha; repeat constructor; exact Ha)
                   (FS_Walk (Source_FS node) path) t).
    destruct (recurseItem _ _ _ _) as [[fl t'] out]. exact Hw.
  - intros p st entries Hwalk Hd He. unfold recurseTree. rewrite Hwalk.
    destruct entries as [l|]; [rewrite recurseItem_entries|simpl];
      destruct (ctxErr t) as [[|] t0]; rewrite ?Hd, ?He; reflexivity.
  - intros re. unfold searchNode, recurseTree.
    pose proof (recurseItem_Forall_visited
                  (fun r => exists p st,
                     (p, st) ∈ visited h (FS_Walk (Source_FS node) path)
                     /\ allowed h (p, st) = true /\ ofRead req node p r)
                  h (fun p _ t => read h req node p (Some re) t)
                  (FS_Walk (Source_FS node) path)) as Hw.
    pose proof (visited_allowed h (FS_Walk (Source_FS node) path)) as Ha.
    rewrite Forall_forall in Ha.
    specialize (Hw ltac:(intros p st t0 Hin;
                         eapply Forall_impl; [apply read_shape|];
                         intros x Hx; exists p, st; auto)
                   t).
    destruct (recurseItem _ _ _ _) as [[fl t'] out]. exact Hw.
  - unfold recurseTree.
    pose proof (recurseItem_Forall_visited
                  (fun it => it ∈ visited h (FS_Walk (Source_FS node) path))
                  h recordItem (FS_Walk (Source_FS node) path)) as Hw.
    specialize (Hw ltac:(intros p st t0 Hin; repeat constructor; exact Hin)
                   t).
    destruct (recurseItem _ _ _ _) as [[fl t'] out]. exact Hw.
Qed.

End WalkMoreProofs.

(** ** More of the reader *)
Section ReaderMoreProofs.
Context `{Collaborators}.
Variables (h : handler) (req : Request).

Lemma scanLine_out_bound nodeName path respMeta re bytes r t f r1 t1 out :
  scanLine h req nodeName path respMeta re bytes r t = (f, r1, t1, out) ->
  Go.len (logLines r) <= Z.max 0 (ContentBatchSize (h_Config h)) ->
  Forall (fun x => Go.len (Lines x)
                   <= Z.max 0 (ContentBatchSize (h_Config h)) + 1) out.
Proof.
  intros Hstep Hlen. apply scanLine_spec in Hstep.
  destruct Hstep as [(_ & _ & _ & -> & _)|(kept & _ & Hlines & Hsent & _)];
    [constructor|].
  destruct Hsent as [[-> _]|(batch & -> & _ & _ & Hr1)]; [constructor|].
  repeat constructor. simpl. rewrite Hr1 in Hlines.
  unfold allLines in Hlines. simpl in Hlines. rewrite !app_nil_r in Hlines.
  rewrite Hlines. unfold Go.len in *. rewrite length_app.
  destruct kept; simpl; lia.
Qed.

Lemma scanLoop_out_bound nodeName path respMeta re lines :
  forall r t f r1 t1 out,
    scanLoop h req nodeName path respMeta re lines r t = (f, r1, t1, out) ->
    Go.len (logLines r) <= Z.max 0 (ContentBatchSize (h_Config h)) ->
    Go.len (logLines r1) <= Z.max 0 (ContentBatchSize (h_Config h))
    /\ Forall (fun x => Go.len (Lines x)
                        <= Z.max 0 (ContentBatchSize (h_Config h)) + 1) out.
Proof.
  induction lines as [|bytes rest IH]; intros r t f r1 t1 out; simpl.
  - intros [= <- <- <- <-] Hlen. split; [exact Hlen|constructor].
  - destruct (scanLine h req nodeName path respMeta re bytes r t)
      as [[[f1 ra] ta] outa] eqn:Hstep.
    intros Hloop Hlen.
    pose proof (scanLine_batch_bound _ _ _ _ _ _ _ _ _ _ _ _ _ Hstep Hlen)
      as Hlen'.
    pose proof (scanLine_out_bound _ _ _ _ _ _ _ _ _ _ _ Hstep Hlen) as Hout.
    destruct f1.
    + destruct (scanLoop h req nodeName path respMeta re rest ra ta)
        as [[[f2 rb] tb] outb] eqn:Hrest.
      injection Hloop as <- <- <- <-.
      destruct (IH _ _ _ _ _ _ Hrest Hlen') as [Hb Ho].
      split; [exact Hb|]. apply Forall_app. split; assumption.
    + injection Hloop as <- <- <- <-. split; assumption.
Qed.

(** X9. No response of the reader carries more lines than the batch size
    plus one (one line, when the batch size is negative): a batch is sent
    as soon as it is larger than the batch size. *)
Theorem read_batch_bound (node : Source) (path : string)
    (re : option Regexp) (t : Task) :
  Forall (fun x => Go.len (Lines x)
                   <= Z.max 0 (ContentBatchSize (h_Config h)) + 1)
         (fst (read h req node path re t)).
Proof.
  unfold read.
  destruct (FS_Lstat _ path) as [stat|]; [|constructor].
  destruct (fi_IsDir stat); [constructor|].
  destruct (FS_Open _ path) as [sc|]; [|constructor].
  destruct (timeNow t) as [now t0].
  destruct (scanLoop _ _ _ _ _ _ _ _ _) as [[[f r] t1] out] eqn:Hloop.
  apply scanLoop_out_bound in Hloop as [Hb Ho];
    [|unfold Go.len; simpl; lia].
  destruct f; simpl; [|exact Ho].
  apply Forall_app. split; [exact Ho|].
  unfold readEnd. destruct (scan_err sc); [constructor|].
  destruct (_ && _); repeat constructor. simpl. lia.
Qed.

(** X10. The reader sends a response without lines only as the one
    response for a file, and only without a regular expression: a response
    that follows or precedes another for the same file has lines, and so
    has every response of a search. *)
Theorem read_empty_response_alone (node : Source) (path : string)
    (re : option Regexp) (t : Task) (x : Response) :
  x ∈ fst (read h req node path re t) -> Lines x = [] ->
  fst (read h req node path re t) = [x] /\ re = None.
Proof.
  unfold read.
  destruct (FS_Lstat _ path) as [stat|];
    [|intros Hx; apply elem_of_nil in Hx; contradiction].
  destruct (fi_IsDir stat);
    [intros Hx; apply elem_of_nil in Hx; contradiction|].
  destruct (FS_Open _ path) as [sc|];
    [|intros Hx; apply elem_of_nil in Hx; contradiction].
  destruct (timeNow t) as [now t0].
  destruct (scanLoop _ _ _ _ _ _ _ _ _) as [[[f r] t1] out] eqn:Hloop.
  apply scanLoop_spec in Hloop. destruct Hloop as (_ & Hshape & Hs & _).
  simpl in Hs.
  assert (Hout : x ∈ out -> Lines x = [] -> False).
  { intros Hx Hnil. apply list_elem_of_In in Hx.
    rewrite Forall_forall in Hshape.
    destruct (Hshape x) as (batch & -> & Hb);
      [apply list_elem_of_In; exact Hx|]. simpl in Hnil. contradiction. }
  destruct f; simpl; [|intros Hx Hnil; destruct (Hout Hx Hnil)].
  intros Hx Hnil. apply elem_of_app in Hx as [Hx|Hx];
    [destruct (Hout Hx Hnil)|].
  unfold readEnd in *. destruct (scan_err sc);
    [apply elem_of_nil in Hx; contradiction|].
  destruct (Go.len (logLines r) =? 0) eqn:Hlen; simpl in Hx.
  - destruct (sentAny r) eqn:Hsent; simpl in Hx;
      [apply elem_of_nil in Hx; contradiction|].
    destruct re as [r0|]; simpl in Hx;
      [apply elem_of_nil in Hx; contradiction|].
    apply list_elem_of_singleton in Hx. subst x.
    destruct out as [|y out]; [auto|].
    assert (Hyes : false = true) by (apply Hs; right; discriminate).
    discriminate Hyes.
  - apply list_elem_of_singleton in Hx. subst x. simpl in Hnil.
    rewrite Hnil in Hlen. discriminate.
Qed.

(** X11. What the reader sends of a file does not depend on the clock, and
    cancellation only cuts it short.  When the batch size is not above the
    cap of a search (as with the defaults) and the scanner reports no
    error, the lines sent by a reader that is cancelled at some point are
    an initial part of the lines sent by a reader that is not, and two
    readers that are not cancelled send the same lines, however their
    clocks cut them into batches. *)
Theorem read_cancelled_prefix (node : Source) (path : string)
    (re : option Regexp) (t t' : Task) stat sc :
  FS_Lstat (Source_FS node) path = Some stat -> fi_IsDir stat = false ->
  FS_Open (Source_FS node) path = Some sc -> scan_err sc = false ->
  Z.max 0 (ContentBatchSize (h_Config h)) <= SearchMaxSize (h_Config h) ->
  neverCancelled t' ->
  (exists rest,
     allLines (fst (read h req node path re t'))
     = allLines (fst (read h req node path re t)) ++ rest)
  /\ (neverCancelled t ->
      allLines (fst (read h req node path re t'))
      = allLines (fst (read h req node path re t))).
Proof.
  intros Hl Hd Ho He Hcap Hn'.
  rewrite (read_cap_unreachable h req node path re t' stat sc Hl Hd Ho He
             Hcap Hn').
  split.
  - destruct (read_lines h req node path re t stat sc Hl Hd Ho)
      as (tail & Hk & _). eauto.
  - intros Hn. symmetry.
    apply (read_cap_unreachable h req node path re t stat sc); assumption.
Qed.

Lemma totalBytes_take i lines :
  0 <= totalBytes (take i lines) <= totalBytes lines.
Proof.
  revert i. induction lines as [|b rest IH]; intros [|i]; simpl;
    try lia.
  - pose proof (totalBytes_nonneg rest). unfold Go.lenBytes. lia.
  - specialize (IH i). unfold Go.lenBytes. lia.
Qed.

Lemma keptLines_positions nodeName path re lines : forall mem n off l,
  Start (FilterTime req) = None -> End_ (FilterTime req) = None ->
  - 2 ^ 63 <= n < 2 ^ 63 -> - 2 ^ 63 <= off < 2 ^ 63 ->
  l ∈ keptLines h req nodeName path re lines mem n off ->
  exists i p,
    parsedLines h path lines mem !! i = Some p
    /\ noMatch re (Log_Msg p) = false
    /\ l = mkLog (Log_Msg p) (Log_Level p) (Log_Time p) nodeName path
                 (Go.wrap (n + Z.of_nat i))
                 (Go.wrap (off + totalBytes (take i lines))).
Proof.
  induction lines as [|bytes rest IH]; intros mem n off l Hs He Hn Hoff;
    simpl.
  - intros Hin. apply elem_of_nil in Hin. contradiction.
  - destruct (keepLine h req nodeName path re bytes mem n off)
      as [kept [[mem' n'] off']] eqn:Hk.
    apply keepLine_cases in Hk. simpl in Hk.
    destruct (h_parse h path bytes mem) as [parsed m] eqn:Hp. simpl in Hk.
    assert (Htail : l ∈ keptLines h req nodeName path re rest m
                          (Go.add n 1) (Go.add off (Go.lenBytes bytes)) ->
              exists i p,
                (parsed :: parsedLines h path rest m) !! i = Some p
                /\ noMatch re (Log_Msg p) = false
                /\ l = mkLog (Log_Msg p) (Log_Level p) (Log_Time p) nodeName
                             path (Go.wrap (n + Z.of_nat i))
                             (Go.wrap (off + totalBytes
                                               (take i (bytes :: rest))))).
    { intros Hin.
      apply IH in Hin as (i & p & Hi & Hm & ->);
        [|assumption|assumption|apply wrap_range|apply wrap_range].
      exists (S i), p. split; [exact Hi|]. split; [exact Hm|].
      unfold Go.add. rewrite !wrap_add_l. simpl. f_equal; f_equal; lia. }
    destruct Hk as [-> [(-> & Hm & -> & ->)|[(-> & _ & Hf & _)
                                            |(-> & Hm & _ & -> & ->)]]];
      simpl.
    + exact Htail.
    + unfold filterOutTime in Hf. rewrite Hs, He in Hf. discriminate.
    + intros Hin. apply elem_of_cons in Hin as [->|Hin]; [|auto].
      exists 0%nat, parsed. split; [reflexivity|]. split; [exact Hm|].
      simpl. rewrite !Z.add_0_r, !wrap_small by assumption. reflexivity.
Qed.

(** X12. Without time bounds the line number and the offset of a line that
    is sent tell where the line is in the file: for a file that opens and
    fits Go's [int], every line the reader sends, with or without a regular
    expression and at whatever point it is cancelled, is what the parser
    returned for some line of the file that passes the regular expression,
    with the source and the path of the file, with the line's position in
    the file counted from 1 as its line number and with the bytes of the
    lines before it as its offset. *)
Theorem read_positions (node : Source) (path : string) (re : option Regexp)
    (t : Task) stat sc (l : Log) :
  FS_Lstat (Source_FS node) path = Some stat -> fi_IsDir stat = false ->
  FS_Open (Source_FS node) path = Some sc ->
  Start (FilterTime req) = None -> End_ (FilterTime req) = None ->
  Z.of_nat (length (scan_lines sc)) < 2 ^ 63 - 1 ->
  totalBytes (scan_lines sc) < 2 ^ 63 ->
  l ∈ allLines (fst (read h req node path re t)) ->
  exists i p,
    parsedLines h path (scan_lines sc) newMemory !! i = Some p
    /\ noMatch re (Log_Msg p) = false
    /\ l = mkLog (Log_Msg p) (Log_Level p) (Log_Time p) (Name node) path
                 (1 + Z.of_nat i) (totalBytes (take i (scan_lines sc))).
Proof.
  intros Hl Hd Ho Hs He Hcount Hbytes Hin.
  destruct (read_lines h req node path re t stat sc Hl Hd Ho)
    as (tail & Hk & _).
  assert (Hin' : l ∈ keptLines h req (Name node) path re (scan_lines sc)
                       newMemory 1 0).
  { rewrite Hk. apply elem_of_app. auto. }
  apply keptLines_positions in Hin' as (i & p & Hi & Hm & ->);
    [|assumption|assumption|lia|lia].
  exists i, p. split; [exact Hi|]. split; [exact Hm|].
  assert (Hlt : (i < length (scan_lines sc))%nat).
  { apply lookup_lt_Some in Hi.
    assert (Hlen : forall lines mem,
              length (parsedLines h path lines mem) = length lines).
    { induction lines as [|b rest IHl]; intros mem; simpl; [reflexivity|].
      destruct (h_parse h path b mem) as [q m]. simpl. rewrite IHl.
      reflexivity. }
    rewrite Hlen in Hi. exact Hi. }
  pose proof (totalBytes_take i (scan_lines sc)).
  rewrite !wrap_small by lia. reflexivity.
Qed.

End ReaderMoreProofs.

(** ** More of the handlers *)
Section HandlerMoreProofs.
Context `{Collaborators}.

Lemma imap_Forall_elem {A B : Type} (P : B -> Prop) (l : list A) :
  forall f : nat -> A -> B,
    (forall i x, x ∈ l -> P (f i x)) -> Forall P (imap f l).
Proof.
  induction l as [|a l IH]; intros f Hf; simpl; constructor.
  - apply Hf. left.
  - apply IH. intros i x Hx. apply Hf. right. exact Hx.
Qed.

Lemma filterSources_elem (srcs : list Source) m src :
  src ∈ filterSources srcs m
  <-> src ∈ srcs /\ passes m (Name src) = true.
Proof.
  unfold filterSources, passes. destruct (mapIsEmpty m); simpl.
  - tauto.
  - rewrite !list_elem_of_In, filter_In. reflexivity.
Qed.

Lemma merge_nil {A : Type} sched (ls : list (list A)) :
  Forall (fun l => l = []) ls -> merge sched ls = [].
Proof.
  intros Hall.
  assert (Hc : concat ls = []).
  { induction Hall as [|l ls -> _ IH]; simpl; [reflexivity|exact IH]. }
  pose proof (merge_Permutation sched ls) as Hp. rewrite Hc in Hp. apply Permutation_nil_r in Hp. exact Hp.
Qed.

Lemma nothing_nil {A : Type} (l : list A) :
  Forall (fun _ => False) l -> l = [].
Proof. intros Hl. destruct Hl; [reflexivity|contradiction]. Qed.

Lemma read_origin h req node p re t :
  Forall (fun x => ofRead req node p x
                   /\ Forall (fun l => Log_FS l = Name node
                                       /\ Log_FileName l = p) (Lines x))
         (fst (read h req node p re t)).
Proof.
  apply Forall_and. split; [apply read_shape|].
  destruct (read_kept h req node p re t) as (lines & tail & Hk).
  apply allLines_Forall.
  pose proof (keptLines_origin h req (Name node) p re lines newMemory 1 0)
    as Ho.
  rewrite Hk in Ho. apply Forall_app in Ho as [Ho _]. exact Ho.
Qed.

Lemma serve_out h req env st :
  fst (serve h req env st)
  = (if String.eqb (Meta_Action (Request_Meta req)) "get-file-tree"
     then fst (serveTree h req env st)
     else if String.eqb (Meta_Action (Request_Meta req)) "get-content"
     then serveContent h req env
     else if String.eqb (Meta_Action (Request_Meta req)) "search"
     then search h req env
     else [])
    ++ [finishedResponse req].
Proof.
  unfold serve.
  destruct (String.eqb _ "get-file-tree");
    [destruct (serveTree h req env st); reflexivity|].
  destruct (String.eqb _ "get-content"); [reflexivity|].
  destruct (String.eqb _ "search"); reflexivity.
Qed.

Lemma serve_store h req env st :
  snd (serve h req env st)
  = if String.eqb (Meta_Action (Request_Meta req)) "get-file-tree"
    then snd (serveTree h req env st) else st.
Proof.
  unfold serve.
  destruct (String.eqb _ "get-file-tree");
    [destruct (serveTree h req env st); reflexivity|].
  destruct (String.eqb _ "get-content"); [reflexivity|].
  destruct (String.eqb _ "search"); reflexivity.
Qed.

(** What a handler sends before the marker: responses that are not
    finished and carry the id of the request. *)
Lemma serve_body h req env st :
  StoreOK st ->
  exists out,
    fst (serve h req env st) = out ++ [finishedResponse req]
    /\ Forall (fun x => Finished x = false
                        /\ Meta_ID (Response_Meta x)
                           = Meta_ID (Request_Meta req)) out.
Proof.
  intros Hok. rewrite serve_out. eexists. split; [reflexivity|].
  destruct (String.eqb _ "get-file-tree").
  { destruct (serveTree_spec h req env st Hok)
      as (r & st' & l & r0 & Hs & _ & _ & _ & _ & _ & _ & Hr & _).
    rewrite Hs. simpl. repeat constructor; rewrite Hr; reflexivity. }
  destruct (String.eqb _ "get-content").
  { unfold serveContent. apply merge_Forall, imap_Forall. intros i src.
    eapply Forall_impl; [apply read_shape|].
    intros x (batch & ->). split; reflexivity. }
  destruct (String.eqb _ "search"); [|constructor].
  unfold search. destruct (regexp_Compile _) as [re|err].
  - apply merge_Forall, imap_Forall. intros i src.
    apply searchNode_Forall. intros p t.
    eapply Forall_impl; [apply read_shape|].
    intros x (batch & ->). split; reflexivity.
  - repeat constructor.
Qed.

(** X13. Where the lines a client receives come from.  Every response with
    lines that a handler sends is a batch of the reader for a file of a
    source of the registry that passes [filter_fs]: it carries the id and
    the action of the request and the name of the source, and each of its
    lines carries the name of the source and the path of the file; for a
    content request the file is the one at the requested path. *)
Theorem lines_from_passing_sources h req env st x :
  StoreOK st -> x ∈ fst (serve h req env st) -> Lines x <> [] ->
  exists src p,
    src ∈ h_source h
    /\ passes (filterSourceMap req) (Name src) = true
    /\ ofRead req src p x
    /\ Meta_ID (Response_Meta x) = Meta_ID (Request_Meta req)
    /\ Meta_Action (Response_Meta x) = Meta_Action (Request_Meta req)
    /\ Meta_FS (Response_Meta x) = Name src
    /\ Forall (fun l => Log_FS l = Name src /\ Log_FileName l = p)
              (Lines x)
    /\ (Meta_Action (Request_Meta req) = "get-content" ->
        p = FS_Join (Source_FS src) (Request_Path req)).
Proof.
  intros Hok Hx Hl. rewrite serve_out in Hx.
  apply elem_of_app in Hx as [Hx|Hx];
    [|apply list_elem_of_singleton in Hx; subst x; contradiction].
  set (P := fun x => exists src p,
              src ∈ h_source h
              /\ passes (filterSourceMap req) (Name src) = true
              /\ ofRead req src p x
              /\ Meta_ID (Response_Meta x) = Meta_ID (Request_Meta req)
              /\ Meta_Action (Response_Meta x)
                 = Meta_Action (Request_Meta req)
              /\ Meta_FS (Response_Meta x) = Name src
              /\ Forall (fun l => Log_FS l = Name src /\ Log_FileName l = p)
                        (Lines x)
              /\ (Meta_Action (Request_Meta req) = "get-content" ->
                  p = FS_Join (Source_FS src) (Request_Path req))).
  assert (Hread : forall src p re t,
            src ∈ filterSources (h_source h) (filterSourceMap req) ->
            (Meta_Action (Request_Meta req) = "get-content" ->
             p = FS_Join (Source_FS src) (Request_Path req)) ->
            Forall P (fst (read h req src p re t))).
  { intros src p re t Hsrc Hp. apply filterSources_elem in Hsrc as [Hs Hpass].
    eapply Forall_impl; [apply read_origin|].
    intros y [Hy Hlines]. exists src, p.
    destruct Hy as (batch & ->). simpl.
    repeat split; auto. exists batch. reflexivity. }
  change (P x).
  destruct (String.eqb _ "get-file-tree") eqn:Et.
  { destruct (serveTree_spec h req env st Hok)
      as (r & st' & l & r0 & Hs & _ & _ & _ & _ & _ & _ & Hr & _).
    rewrite Hs in Hx. simpl in Hx. apply list_elem_of_singleton in Hx.
    subst x. rewrite Hr in Hl. simpl in Hl. contradiction. }
  destruct (String.eqb _ "get-content") eqn:Ec.
  { assert (HF : Forall P (serveContent h req env)).
    { unfold serveContent. apply merge_Forall, imap_Forall_elem.
      intros i src Hsrc. apply Hread; auto. }
    rewrite Forall_forall in HF. exact (HF x Hx). }
  destruct (String.eqb _ "search") eqn:Es;
    [|apply elem_of_nil in Hx; contradiction].
  unfold search in Hx. destruct (regexp_Compile _) as [re|err].
  - assert (HF : Forall P (merge (sched env)
                     (imap (fun i node =>
                              fst (searchNode h req node
                                     (FS_Join (Source_FS node)
                                              (Request_Path req))
                                     re (tasks env i)))
                           (filterSources (h_source h)
                                          (filterSourceMap req))))).
    { apply merge_Forall, imap_Forall_elem. intros i src Hsrc.
      apply searchNode_Forall. intros p t. apply Hread; [exact Hsrc|].
      intros Ha. rewrite Ha in Ec. discriminate Ec. }
    rewrite Forall_forall in HF. exact (HF x Hx).
  - apply list_elem_of_singleton in Hx. subst x. simpl in Hl.
    contradiction.
Qed.

(** X14. What a request does to the store.  A handler changes no object
    of the store, it only adds objects; a content request, a search and a
    request with an unknown action leave the store as it is; a tree
    request leaves an entry for its path in the cache, touches no other
    entry, and leaves the cache as it is when its path has an entry
    already. *)
Theorem serve_store_frame h req env st :
  StoreOK st ->
  let st' := snd (serve h req env st) in
  let key := filepath_Join (Request_Path req) in
  (exists nf, files st' = files st ++ nf)
  /\ (exists nr, responses st' = responses st ++ nr)
  /\ (Meta_Action (Request_Meta req) <> "get-file-tree" -> st' = st)
  /\ (forall k, k <> key -> cache st' !! k = cache st !! k)
  /\ (is_Some (cache st !! key) -> cache st' = cache st)
  /\ (Meta_Action (Request_Meta req) = "get-file-tree" ->
      is_Some (cache st' !! key)).
Proof.
  intros Hok st' key. subst st'. rewrite serve_store.
  destruct (String.eqb _ "get-file-tree") eqn:Et.
  - destruct (serveTree_spec h req env st Hok)
      as (r & st' & l & r0 & Hs & Hc & _ & Hf & Hr & _ & _ & _ & _ & Hcase).
    rewrite Hs. simpl. fold key in Hc, Hcase.
    split; [exact Hf|]. split; [exact Hr|].
    split; [intros Hne; apply String.eqb_eq in Et; contradiction|].
    split; [|split; [|intros _; rewrite Hc; eauto]].
    + intros k Hk. destruct (cache st !! key) as [l0|].
      * destruct Hcase as (_ & -> & _). reflexivity.
      * destruct Hcase as (-> & _). apply lookup_insert_ne. congruence.
    + intros [l0 Hl0]. rewrite Hl0 in Hcase. apply Hcase.
  - split; [exists []; rewrite app_nil_r; reflexivity|].
    split; [exists []; rewrite app_nil_r; reflexivity|].
    split; [reflexivity|]. split; [reflexivity|]. split; [reflexivity|].
    intros Ha. rewrite Ha in Et. discriminate Et.
Qed.

(** The calls of [add] of a tree request are for files without instances,
    wherever the walks are cancelled. *)
Lemma ops_fresh h req env :
  Forall (fun op : File * FileInstance => Instances (fst op) = [])
         (merge (sched env)
                (imap (fun i src => fst (srcTree h req src (tasks env i)))
                      (h_source h))).
Proof.
  apply merge_Forall, imap_Forall. intros i src. unfold srcTree.
  apply recurseTree_Forall. intros p st t. unfold srcTreeVisit.
  destruct (Go.isEmpty (Go.Trim p)); repeat constructor.
Qed.

(** The keys of the calls of walks that are not cancelled: the keys of
    all sources. *)
Lemma ops_keys h req (srcs : list Source) ops k :
  Permutation ops (concat (map (walkedOps h req) srcs)) ->
  k ∈ map (fun op : File * FileInstance => Key (fst op)) ops
  <-> exists src, src ∈ srcs /\ k ∈ walkedKeys h req src.
Proof.
  intros Hp. split.
  - intros Hk. apply list_elem_of_In, in_map_iff in Hk as (op & <- & Hop).
    apply (Permutation_in _ Hp) in Hop.
    apply in_concat in Hop as (l & Hl & Hop).
    apply in_map_iff in Hl as (src & <- & Hsrc).
    exists src. split; [apply list_elem_of_In; exact Hsrc|].
    unfold walkedKeys. destruct (walkedOps_spec h req src) as [<- _].
    rewrite map_map. simpl. apply list_elem_of_In, in_map_iff.
    exists op. split; [reflexivity|exact Hop].
  - intros (src & Hsrc & Hk). unfold walkedKeys in Hk.
    destruct (walkedOps_spec h req src) as [Hm _].
    rewrite <- Hm, map_map in Hk. simpl in Hk.
    apply list_elem_of_In, in_map_iff in Hk as (op & <- & Hop).
    apply list_elem_of_In, in_map_iff. exists op. split; [reflexivity|].
    apply (Permutation_in _ (Permutation_sym Hp)). apply in_concat.
    exists (walkedOps h req src). split; [|exact Hop].
    apply in_map, list_elem_of_In. exact Hsrc.
Qed.

(** X15. The cache holds the tree before filtering, and the filter is
    applied for every request anew.  Of two tree requests in a row for the
    same path, with whatever filters and under whatever cancellation, each
    is answered with its own filter applied to one and the same tree, the
    one the cache holds for the path after the first; the tree of the
    first response is not changed by the second request.  When the first
    request finds no entry for the path, the tree it leaves in the cache
    is the one the combiner makes of the calls of all sources of the
    registry, whatever the filter of the request: it has a file for every
    key of a call, with the instances of all calls for the key, and when
    the walks are not cancelled its keys are the keys of all sources. *)
Theorem tree_filters_share_cache h req1 req2 env1 env2 st :
  StoreOK st ->
  Request_Path req1 = Request_Path req2 ->
  let ops :=
    merge (sched env1)
          (imap (fun i src => fst (srcTree h req1 src (tasks env1 i)))
                (h_source h)) in
  exists r1 st1 r2 st2 l r0,
    serveTree h req1 env1 st = ([r1], st1)
    /\ serveTree h req2 env2 st1 = ([r2], st2)
    /\ cache st1 !! filepath_Join (Request_Path req1) = Some l
    /\ responses st1 !! l = Some r0
    /\ tree st1 r1 = filterTree (filterSourceMap req1) (tree st1 r0)
    /\ tree st2 r2 = filterTree (filterSourceMap req2) (tree st1 r0)
    /\ tree st2 r1 = tree st1 r1
    /\ cache st2 = cache st1
    /\ (cache st !! filepath_Join (Request_Path req1) = None ->
        tree st1 r0 = combine ops
        /\ (forall k, k ∈ map Key (tree st1 r0)
                      <-> k ∈ map (fun op => Key (fst op)) ops)
        /\ (forall f, f ∈ tree st1 r0 ->
              Instances f = instancesOf (Key f) ops)
        /\ ((forall i, neverCancelled (tasks env1 i)) ->
            forall k, k ∈ map Key (tree st1 r0)
                      <-> exists src, src ∈ h_source h
                            /\ k ∈ walkedKeys h req1 src)).
Proof.
  intros Hok Hpath ops.
  destruct (serveTree_spec h req1 env1 st Hok)
    as (r1 & st1 & l & r0 & Hs1 & Hc1 & Hr0 & _ & _ & Hok1 & Hv1 & _ & Ht1
        & Hcase1).
  fold ops in Hcase1.
  destruct (serveTree_spec h req2 env2 st1 Hok1)
    as (r2 & st2 & l2 & r02 & Hs2 & _ & _ & (nf & Hf2) & _ & _ & _ & _
        & Ht2 & Hcase).
  rewrite <- Hpath, Hc1 in Hcase.
  destruct Hcase as (-> & Hc2 & Hr02 & Hsame).
  assert (r02 = r0) by congruence. subst r02.
  exists r1, st1, r2, st2, l, r0.
  split; [exact Hs1|]. split; [exact Hs2|]. split; [exact Hc1|].
  split; [exact Hr0|]. split; [exact Ht1|].
  split; [rewrite Ht2, Hsame; reflexivity|].
  split; [unfold tree; rewrite Hf2; apply tree_stable; exact Hv1|].
  split; [exact Hc2|].
  intros Hmiss. rewrite Hmiss in Hcase1.
  destruct Hcase1 as (_ & _ & Hcomb). rewrite Hcomb.
  destruct (combine_spec ops (ops_fresh h req1 env1))
    as (_ & Hkeys & Hinst).
  split; [reflexivity|]. split; [exact Hkeys|]. split; [exact Hinst|].
  intros Hn k. rewrite Hkeys. apply ops_keys.
  apply (serveTree_ops h req1 env1 Hn).
Qed.

(** X16. A content request for a path that no source that passes the
    filter has as a file it can open (the path is missing, is a directory,
    or does not open) is answered with the terminal marker alone: no
    response carries an error, and the store is as it was. *)
Theorem content_of_missing_file h req env st :
  Meta_Action (Request_Meta req) = "get-content" ->
  (forall src, src ∈ h_source h ->
     passes (filterSourceMap req) (Name src) = true ->
     match FS_Lstat (Source_FS src)
                    (FS_Join (Source_FS src) (Request_Path req)) with
     | None => True
     | Some stat =>
         fi_IsDir stat = true
         \/ FS_Open (Source_FS src)
                    (FS_Join (Source_FS src) (Request_Path req)) = None
     end) ->
  serve h req env st = ([finishedResponse req], st).
Proof.
  intros Ha Hmiss. apply injective_projections.
  - rewrite serve_out, Ha. simpl.
    replace (serveContent h req env) with (@nil Response); [reflexivity|].
    symmetry. unfold serveContent. apply merge_nil.
    apply imap_Forall_elem. intros i src Hsrc.
    apply filterSources_elem in Hsrc as [Hsrc Hpass].
    specialize (Hmiss src Hsrc Hpass). unfold read.
    destruct (FS_Lstat _ _) as [stat|]; [|reflexivity].
    destruct Hmiss as [-> | Ho]; [reflexivity|].
    destruct (fi_IsDir stat); [reflexivity|]. rewrite Ho. reflexivity.
  - rewrite serve_store, Ha. reflexivity.
Qed.

(** X17. A search in which no line of any file of the sources that pass
    the filter is kept (no line passes both the regular expression and the
    time filter) is answered with the terminal marker alone: no response
    without lines is sent for any file, however the walks are scheduled
    and wherever they are cancelled. *)
Theorem search_without_match h req env st re :
  Meta_Action (Request_Meta req) = "search" ->
  regexp_Compile (Request_Regexp req) = inl re ->
  (forall src p sc, src ∈ h_source h ->
     passes (filterSourceMap req) (Name src) = true ->
     FS_Open (Source_FS src) p = Some sc ->
     keptLines h req (Name src) p (Some re) (scan_lines sc) newMemory 1 0
     = []) ->
  serve h req env st = ([finishedResponse req], st).
Proof.
  intros Ha Hre Hnone. apply injective_projections.
  - rewrite serve_out, Ha. simpl.
    replace (search h req env) with (@nil Response); [reflexivity|].
    symmetry. unfold search. rewrite Hre. apply merge_nil.
    apply imap_Forall_elem. intros i src Hsrc.
    apply filterSources_elem in Hsrc as [Hsrc Hpass].
    apply nothing_nil. apply searchNode_Forall. intros p t.
    replace (fst (read h req src p (Some re) t)) with (@nil Response);
      [constructor|].
    symmetry. unfold read.
    destruct (FS_Lstat _ p) as [stat|]; [|reflexivity].
    destruct (fi_IsDir stat); [reflexivity|].
    destruct (FS_Open _ p) as [sc|] eqn:Ho; [|reflexivity].
    destruct (timeNow t) as [now t0].
    destruct (scanLoop _ _ _ _ _ _ _ _ _) as [[[f r] t1] out] eqn:Hloop.
    apply scanLoop_nothing_kept in Hloop as (-> & Hr & Hsent & _);
      [|exact (Hnone src p sc Hsrc Hpass Ho)].
    destruct f; [|reflexivity]. simpl. unfold readEnd.
    destruct (scan_err sc); [reflexivity|].
    rewrite Hr, Hsent. reflexivity.
  - rewrite serve_store, Ha. reflexivity.
Qed.

End HandlerMoreProofs.

(** ** The tree under cancellation *)
Section PartialTreeProofs.
Context `{Collaborators}.

(** X18. A tree that is built while walks are cancelled may lack files and
    instances, but has none that a full walk would not give.  For a tree
    request that finds no entry for its path in the cache, wherever the
    walks are cancelled and however they are scheduled: the keys of the
    tree that is sent are distinct, every file has an instance, and every
    instance of a file is the instance a source of the registry that
    passes [filter_fs] has for the key of the file, under the name of the
    source. *)
Theorem tree_partial_sound h req env st :
  StoreOK st ->
  cache st !! filepath_Join (Request_Path req) = None ->
  exists r st',
    serveTree h req env st = ([r], st')
    /\ NoDup (map Key (tree st' r))
    /\ (forall f, f ∈ tree st' r ->
          Instances f <> []
          /\ forall i, i ∈ Instances f ->
               exists src, src ∈ h_source h
                 /\ passes (filterSourceMap req) (Name src) = true
                 /\ FileInstance_FS i = Name src
                 /\ (Key f, i) ∈ walked h req src).
Proof.
  intros Hok Hmiss.
  destruct (serveTree_spec h req env st Hok)
    as (r & st' & l & r0 & Hserve & _ & _ & _ & _ & _ & _ & _ & Htree
        & Hcase).
  rewrite Hmiss in Hcase. destruct Hcase as (_ & _ & Hcomb).
  rewrite Hcomb in Htree. clear Hcomb.
  set (ops := merge _ _) in *. set (S := filterSourceMap req) in *.
  assert (Hops : Forall (fun op => exists src,
                           src ∈ h_source h /\ op ∈ walkedOps h req src)
                        ops).
  { subst ops. apply merge_Forall, imap_Forall_elem. intros i src Hsrc.
    destruct (srcTree_prefix h req src (tasks env i)) as [rest Hrest].
    apply Forall_forall. intros op Hop. exists src. split; [exact Hsrc|].
    rewrite Hrest. apply elem_of_app. left. exact Hop. }
  assert (Hall : Forall (fun op => Instances (fst op) = []) ops).
  { eapply Forall_impl; [exact Hops|].
    intros op (src & _ & Hop).
    destruct (walkedOps_spec h req src) as [_ Hw].
    rewrite Forall_forall in Hw. apply (Hw op Hop). }
  destruct (combine_spec ops Hall) as (Hndk & Hkeys & Hinst).
  assert (Hne : forall f, f ∈ combine ops -> Instances f <> []).
  { intros f Hf. rewrite (Hinst f Hf). intros Hnil.
    apply instancesOf_nil in Hnil. apply Hnil. apply Hkeys.
    apply list_elem_of_In, in_map, list_elem_of_In. exact Hf. }
  destruct (filterTree_spec S (combine ops) Hne) as [HndF HinF].
  exists r, st'. split; [exact Hserve|]. rewrite Htree.
  split; [apply HndF; exact Hndk|].
  intros f' Hin. apply HinF in Hin as (f & Hf & -> & Hnz).
  split; [exact Hnz|]. simpl. intros i Hi.
  apply list_elem_of_In, filter_In in Hi as [Hi Hpass].
  rewrite (Hinst f Hf) in Hi. unfold instancesOf in Hi.
  apply in_map_iff in Hi as (op & <- & Hop).
  apply filter_In in Hop as [Hop Hk]. apply String.eqb_eq in Hk.
  rewrite Forall_forall in Hops.
  destruct (Hops op) as (src & Hsrc & Hw); [apply list_elem_of_In; exact Hop|].
  destruct (walkedOps_spec h req src) as [Hmap Hnames].
  rewrite Forall_forall in Hnames. destruct (Hnames op Hw) as [_ Hname].
  exists src. split; [exact Hsrc|]. rewrite <- Hname.
  split; [exact Hpass|]. split; [reflexivity|].
  rewrite <- Hmap, <- Hk. apply list_elem_of_In.
  apply (in_map (fun op => (Key (fst op), snd op))).
  apply list_elem_of_In. exact Hw.
Qed.

End PartialTreeProofs.

(** ** The connection *)
Section ConnectionProofs.
Context `{Collaborators}.

Lemma count_finished h (servings : list Serving) :
  Forall (fun s => StoreOK (sv_store s)) servings ->
  length (List.filter Finished
            (concat (map (fun s => fst (serve h (Init (sv_request s))
                                              (sv_env s) (sv_store s)))
                         servings)))
  = length servings.
Proof.
  induction 1 as [|s l Hs _ IH]; simpl; [reflexivity|].
  rewrite List.filter_app, length_app, IH.
  destruct (serve_body h (Init (sv_request s)) (sv_env s) (sv_store s) Hs)
    as (out & -> & Hout).
  rewrite List.filter_app. simpl. rewrite filter_none; [reflexivity|].
  eapply Forall_impl; [exact Hout|]. intros x [Hx _]. exact Hx.
Qed.

(** X19. One connection, many requests.  When the requests of a connection
    carry different ids, the responses with the id of a request, in the
    order in which they are written to the connection, are what the
    handler of the request sends, in its order, whatever the handlers of
    the other requests send in between: responses that are not finished,
    and then the terminal marker.  The connection carries as many finished
    responses as there are requests. *)
Theorem ServeHTTP_per_request h (servings : list Serving)
    (schedule : list nat) (i : nat) (s : Serving) :
  Forall (fun s => StoreOK (sv_store s)) servings ->
  NoDup (map (fun s => Meta_ID (Request_Meta (sv_request s))) servings) ->
  servings !! i = Some s ->
  let sent := ServeHTTP h servings schedule in
  let mine :=
    List.filter (fun x => Meta_ID (Response_Meta x)
                          =? Meta_ID (Request_Meta (sv_request s)))
                sent in
  mine = fst (serve h (Init (sv_request s)) (sv_env s) (sv_store s))
  /\ (exists body,
        mine = body ++ [finishedResponse (Init (sv_request s))]
        /\ Forall (fun x => Finished x = false) body)
  /\ length (List.filter Finished sent) = length servings.
Proof.
  intros Hok Hnd Hi sent mine.
  assert (Hids : forall s', s' ∈ servings ->
            Forall (fun x => Meta_ID (Response_Meta x)
                             = Meta_ID (Request_Meta (sv_request s')))
                   (fst (serve h (Init (sv_request s')) (sv_env s')
                               (sv_store s')))).
  { intros s' Hs'. rewrite Forall_forall in Hok.
    destruct (serve_body h (Init (sv_request s')) (sv_env s') (sv_store s')
                (Hok s' Hs')) as (out & -> & Hout).
    apply Forall_app. split; [|repeat constructor].
    eapply Forall_impl; [exact Hout|]. intros x [_ Hx]. exact Hx. }
  assert (Hmine : mine = fst (serve h (Init (sv_request s)) (sv_env s)
                                    (sv_store s))).
  { subst mine sent. unfold ServeHTTP. apply (merge_filter _ _ _ i).
    - rewrite list_lookup_fmap, Hi. reflexivity.
    - eapply Forall_impl;
        [apply Hids; eapply list_elem_of_lookup_2; exact Hi|].
      intros x ->. apply Z.eqb_refl.
    - intros j l' Hne Hj. rewrite list_lookup_fmap in Hj.
      destruct (servings !! j) as [s'|] eqn:Hs'; [|discriminate].
      simpl in Hj. injection Hj as <-.
      eapply Forall_impl;
        [apply Hids; eapply list_elem_of_lookup_2; exact Hs'|].
      intros x ->. apply Z.eqb_neq. intros Heq. apply Hne.
      apply (NoDup_lookup _ j i (Meta_ID (Request_Meta (sv_request s')))
               Hnd).
      + rewrite lookup_map, Hs'. reflexivity.
      + rewrite lookup_map, Hi. simpl. congruence. }
  split; [exact Hmine|]. split.
  - rewrite Hmine. rewrite Forall_forall in Hok.
    destruct (serve_body h (Init (sv_request s)) (sv_env s) (sv_store s)
                (Hok s (list_elem_of_lookup_2 _ _ _ Hi)))
      as (out & -> & Hout).
    exists out. split; [reflexivity|].
    eapply Forall_impl; [exact Hout|]. intros x [Hx _]. exact Hx.
  - subst sent. unfold ServeHTTP.
    rewrite (Permutation_length
               (filter_Permutation Finished _ _ (merge_Permutation _ _))).
    apply count_finished. exact Hok.
Qed.

End ConnectionProofs.

(** ** The program *)

(** X20. The journal the program opens is the one of the dynamic
    configuration when that names one, and otherwise the one of the first
    source that names one; the program opens none exactly when neither the
    dynamic configuration nor any source names one. *)
Theorem journal_first (c : Main.config) :
  (Main.journal c = ""
   <-> Main.dyn_OpenJournal (Main.Dynamic c) = ""
       /\ Forall (fun s => Main.src_OpenJournal s = "") (Main.Sources c))
  /\ (Main.dyn_OpenJournal (Main.Dynamic c) <> "" ->
      Main.journal c = Main.dyn_OpenJournal (Main.Dynamic c))
  /\ (forall before src after,
        Main.dyn_OpenJournal (Main.Dynamic c) = "" ->
        Main.Sources c = before ++ src :: after ->
        Forall (fun s => Main.src_OpenJournal s = "") before ->
        Main.src_OpenJournal src <> "" ->
        Main.journal c = Main.src_OpenJournal src).
Proof.
  assert (Hloop : forall srcs,
            Main.sourcesJournal srcs = ""
            <-> Forall (fun s => Main.src_OpenJournal s = "") srcs).
  { induction srcs as [|s l IH]; simpl.
    - split; [constructor|reflexivity].
    - destruct (Main.src_OpenJournal s) as [|a w] eqn:E; simpl.
      + rewrite IH. split.
        * intros Hl. constructor; [exact E|exact Hl].
        * intros Hl. apply Forall_cons in Hl as [_ Hl]. exact Hl.
      + split; [discriminate|]. intros Hl.
        apply Forall_cons in Hl as [Hl _]. rewrite E in Hl. discriminate. }
  unfold Main.journal.
  destruct (Main.dyn_OpenJournal (Main.Dynamic c)) as [|a w] eqn:Ed; simpl.
  - split; [|split].
    + rewrite Hloop. tauto.
    + intros Hne. contradiction.
    + intros before src after _ -> Hb Hs.
      induction Hb as [|s l Hsl _ IH]; simpl.
      * destruct (Main.src_OpenJournal src); [contradiction|reflexivity].
      * rewrite Hsl. simpl. exact IH.
  - split; [|split].
    + split; [discriminate|]. intros [Hd _]. discriminate.
    + reflexivity.
    + intros before src after Hd. discriminate.
Qed.

(** ** Full batches *)
Section BatchProofs.
Context `{Collaborators}.
Variables (h : handler) (req : Request).

Lemma scanLine_full nodeName path respMeta re bytes r t f r1 t1 out :
  (forall n m, clock t n - clock t m <= ContentBatchTime (h_Config h)) ->
  (exists k, lastRespTime r = clock t k) ->
  Go.len (logLines r) <= Z.max 0 (ContentBatchSize (h_Config h)) ->
  scanLine h req nodeName path respMeta re bytes r t = (f, r1, t1, out) ->
  clock t1 = clock t
  /\ (exists k, lastRespTime r1 = clock t k)
  /\ Forall (fun x => Go.len (Lines x)
                      = Z.max 0 (ContentBatchSize (h_Config h)) + 1) out.
Proof.
  intros Hclock Hlast Hlen. unfold scanLine.
  destruct (ctxErr_cases t) as [[-> Hc]|[t0 [-> [Hclk [_ _]]]]].
  { intros [= <- <- <- <-]. auto. }
  destruct (h_parse h path bytes (parserMemory r)) as [parsed mem].
  destruct (noMatch re (Log_Msg parsed)); [intros [= <- <- <- <-]; auto|].
  destruct (filterOutTime _ (FilterTime req));
    [intros [= <- <- <- <-]; auto|].
  destruct (ContentBatchSize (h_Config h) <? Go.len (logLines r ++ _))
    eqn:Hb.
  - unfold timeNow. simpl.
    assert (Hfull : Go.len (logLines r
                            ++ [mkLog (Log_Msg parsed) (Log_Level parsed)
                                      (Log_Time parsed) nodeName path
                                      (lineNumber r) (fileOffset r)])
                    = Z.max 0 (ContentBatchSize (h_Config h)) + 1).
    { apply Z.ltb_lt in Hb. unfold Go.len in *. rewrite length_app in *.
      simpl in *. lia. }
    destruct (_ && _); intros [= <- <- <- <-]; simpl;
      (split; [exact Hclk|]); (split; [rewrite Hclk; eauto|]);
      repeat constructor; exact Hfull.
  - unfold timeNow. simpl.
    assert (Hdue : (ContentBatchTime (h_Config h)
                    <? Go.Sub (clock t0 (tick t0)) (lastRespTime r))
                   = false).
    { apply Z.ltb_ge. destruct Hlast as [k ->]. rewrite Hclk.
      pose proof (Hclock (tick t0) k). pose proof (Hclock k k).
      unfold Go.Sub. lia. }
    rewrite Hdue.
    destruct (_ && _); intros [= <- <- <- <-]; simpl; auto.
Qed.

Lemma scanLoop_full nodeName path respMeta re lines :
  forall r t f r1 t1 out,
    (forall n m, clock t n - clock t m <= ContentBatchTime (h_Config h)) ->
    (exists k, lastRespTime r = clock t k) ->
    Go.len (logLines r) <= Z.max 0 (ContentBatchSize (h_Config h)) ->
    scanLoop h req nodeName path respMeta re lines r t = (f, r1, t1, out) ->
    Forall (fun x => Go.len (Lines x)
                     = Z.max 0 (ContentBatchSize (h_Config h)) + 1) out.
Proof.
  induction lines as [|bytes rest IH]; intros r t f r1 t1 out Hclock Hlast
    Hlen; simpl.
  - intros [= <- <- <- <-]. constructor.
  - destruct (scanLine h req nodeName path respMeta re bytes r t)
      as [[[f1 ra] ta] outa] eqn:Hstep.
    pose proof (scanLine_batch_bound _ _ _ _ _ _ _ _ _ _ _ _ _ Hstep Hlen)
      as Hlen'.
    destruct (scanLine_full _ _ _ _ _ _ _ _ _ _ _ Hclock Hlast Hlen Hstep)
      as (Hclk & Hlast' & Hout).
    destruct f1.
    + destruct (scanLoop h req nodeName path respMeta re rest ra ta)
        as [[[f2 rb] tb] outb] eqn:Hrest.
      intros [= <- <- <- <-]. apply Forall_app. split; [exact Hout|].
      apply (IH _ _ _ _ _ _) with (4 := Hrest).
      * rewrite Hclk. exact Hclock.
      * rewrite Hclk. exact Hlast'.
      * exact Hlen'.
    + intros [= <- <- <- <-]. exact Hout.
Qed.

(** X21. Batches are full unless the batch time passes.  When no two
    readings of the clock during a request are further apart than the
    batch time, the responses the reader sends for a file are full batches,
    of one line more than the batch size each (of one line, when the batch
    size is negative), followed by at most one response with what is left,
    which has no more lines than the batch size. *)
Theorem read_full_batches (node : Source) (path : string)
    (re : option Regexp) (t : Task) :
  (forall n m, clock t n - clock t m <= ContentBatchTime (h_Config h)) ->
  exists full rest,
    fst (read h req node path re t) = full ++ rest
    /\ Forall (fun x => Go.len (Lines x)
                        = Z.max 0 (ContentBatchSize (h_Config h)) + 1) full
    /\ (length rest <= 1)%nat
    /\ Forall (fun x => Go.len (Lines x)
                        <= Z.max 0 (ContentBatchSize (h_Config h))) rest.
Proof.
  intros Hclock. unfold read.
  assert (Hnone : exists full rest : list Response,
            [] = full ++ rest
            /\ Forall (fun x => Go.len (Lines x)
                         = Z.max 0 (ContentBatchSize (h_Config h)) + 1) full
            /\ (length rest <= 1)%nat
            /\ Forall (fun x => Go.len (Lines x)
                         <= Z.max 0 (ContentBatchSize (h_Config h))) rest).
  { exists [], []. simpl. repeat split; auto. }
  destruct (FS_Lstat _ path) as [stat|]; [|exact Hnone].
  destruct (fi_IsDir stat); [exact Hnone|].
  destruct (FS_Open _ path) as [sc|]; [|exact Hnone].
  unfold timeNow.
  destruct (scanLoop _ _ _ _ _ _ _ _ _) as [[[f r] t1] out] eqn:Hloop.
  pose proof Hloop as Hfull.
  apply scanLoop_full in Hfull;
    [|exact Hclock|simpl; eauto|unfold Go.len; simpl; lia].
  apply scanLoop_out_bound in Hloop as [Hb _];
    [|unfold Go.len; simpl; lia].
  destruct f; simpl.
  - exists out, (readEnd (readMeta req (Name node) path) re (scan_err sc) r).
    split; [reflexivity|]. split; [exact Hfull|].
    unfold readEnd. destruct (scan_err sc); [simpl; auto|].
    destruct (_ && _); simpl; auto.
  - exists out, []. rewrite app_nil_r. simpl. auto.
Qed.

End BatchProofs.

(** * More of the engine, on the example installation *)

Lemma Response_FilterSources_pure_witness :
  let S := sourceSet ["node2"] in
  let res := Response_FilterSources Example.treeResponse S Example.heap2 in
  Forall (fun p => (p < length Example.heap2)%nat)
         (Files Example.treeResponse)
  /\ (exists new, snd res = Example.heap2 ++ new)
  /\ map (fun p => snd res !!! p) (Files Example.treeResponse)
     = map (fun p => Example.heap2 !!! p) (Files Example.treeResponse).
Proof.
  intros S res.
  assert (Hv : Forall (fun p => (p < length Example.heap2)%nat)
                      (Files Example.treeResponse))
    by (repeat constructor).
  split; [exact Hv|].
  destruct (Response_FilterSources_pure Example.treeResponse S
              Example.heap2 Hv) as (H1 & H2 & _).
  split; [exact H1|exact H2].
Defined.

Lemma combiner_adds_witness :
  let c := fst (addAll Example.ops2 (newCombiner, [])) in
  let heap := snd (addAll Example.ops2 (newCombiner, [])) in
  Forall (fun op => Instances (fst op) = []) Example.ops2
  /\ NoDup (c_files c)
  /\ NoDup (map (fun p => Key (heap !!! p)) (c_files c)).
Proof.
  intros c heap.
  assert (Hv : Forall (fun op => Instances (fst op) = []) Example.ops2)
    by (repeat constructor).
  split; [exact Hv|].
  destruct (combiner_adds [] Example.ops2 Hv) as (_ & H1 & H2 & _).
  split; [exact H1|exact H2].
Defined.

Lemma read_empty_response_alone_witness :
  let req :=
    Example.request 6 "get-content" ["b.log"] "" [] Example.noRange in
  let x :=
    mkResponse (mkMeta 6 "get-content" "node1" ["b.log"]) [] [] "" false in
  x ∈ fst (read (H := Example.collaborators) Example.h req Example.node1
                "b.log" None Example.free)
  /\ Lines x = []
  /\ fst (read (H := Example.collaborators) Example.h req Example.node1
               "b.log" None Example.free) = [x].
Proof.
  intros req x.
  assert (Hx : x ∈ fst (read (H := Example.collaborators) Example.h req
                             Example.node1 "b.log" None Example.free))
    by (apply list_elem_of_In; left; reflexivity).
  split; [exact Hx|]. split; [reflexivity|].
  exact (proj1 (read_empty_response_alone (H := Example.collaborators)
                  Example.h req Example.node1 "b.log" None Example.free x
                  Hx eq_refl)).
Defined.

Lemma read_cancelled_prefix_witness :
  let req :=
    Example.request 8 "get-content" ["big.log"] "" [] Example.noRange in
  let sc := mkScanned (repeat "x" (Z.to_nat 6000)) false in
  let sent (t : Task) :=
    fst (read (H := Example.collaborators) Example.h3 req Example.node3
              "big.log" None t) in
  FS_Lstat Example.fs3 "big.log" = Some (mkFileInfo 12000 false)
  /\ FS_Open Example.fs3 "big.log" = Some sc
  /\ Z.max 0 (ContentBatchSize (h_Config Example.h3))
     <= SearchMaxSize (h_Config Example.h3)
  /\ neverCancelled Example.ticking
  /\ neverCancelled Example.free
  /\ map (fun x => length (Lines x)) (sent Example.cancelledLate)
     = [2001%nat]
  /\ map (fun x => length (Lines x)) (sent Example.free)
     = [2001%nat; 2001%nat; 1998%nat]
  /\ length (sent Example.ticking) = Z.to_nat 6000
  /\ (exists rest,
        allLines (sent Example.ticking)
        = allLines (sent Example.cancelledLate) ++ rest)
  /\ allLines (sent Example.ticking) = allLines (sent Example.free).
Proof.
  intros req sc sent.
  assert (Hcap : Z.max 0 (ContentBatchSize (h_Config Example.h3))
                 <= SearchMaxSize (h_Config Example.h3))
    by (vm_compute; discriminate).
  split; [reflexivity|]. split; [reflexivity|]. split; [exact Hcap|].
  split; [reflexivity|]. split; [reflexivity|].
  split; [vm_compute; reflexivity|]. split; [vm_compute; reflexivity|].
  split; [vm_compute; reflexivity|].
  split.
  - exact (proj1 (read_cancelled_prefix (H := Example.collaborators)
                    Example.h3 req Example.node3 "big.log" None
                    Example.cancelledLate Example.ticking
                    (mkFileInfo 12000 false) sc eq_refl eq_refl eq_refl
                    eq_refl Hcap eq_refl)).
  - exact (proj2 (read_cancelled_prefix (H := Example.collaborators)
                    Example.h3 req Example.node3 "big.log" None
                    Example.free Example.ticking
                    (mkFileInfo 12000 false) sc eq_refl eq_refl eq_refl
                    eq_refl Hcap eq_refl) eq_refl).
Defined.

Lemma read_positions_witness :
  let req :=
    Example.request 8 "get-content" ["a.log"] "" [] Example.noRange in
  let sc := mkScanned ["1 up"; "5 down"] false in
  let l := mkLog "5 down" "" (Some 5) "node1" "a.log" 2 4 in
  FS_Lstat Example.fs1 "a.log" = Some (mkFileInfo 7 false)
  /\ FS_Open Example.fs1 "a.log" = Some sc
  /\ Z.of_nat (length (scan_lines sc)) < 2 ^ 63 - 1
  /\ totalBytes (scan_lines sc) < 2 ^ 63
  /\ l ∈ allLines (fst (read (H := Example.collaborators) Example.h req
                             Example.node1 "a.log" None Example.free))
  /\ exists i p,
       parsedLines (H := Example.collaborators) Example.h "a.log"
                   (scan_lines sc) tt !! i = Some p
       /\ l = mkLog (Log_Msg p) (Log_Level p) (Log_Time p) "node1" "a.log"
                    (1 + Z.of_nat i) (totalBytes (take i (scan_lines sc))).
Proof.
  intros req sc l.
  assert (Hin : l ∈ allLines (fst (read (H := Example.collaborators)
                                        Example.h req Example.node1 "a.log"
                                        None Example.free)))
    by (apply list_elem_of_In; right; left; reflexivity).
  split; [reflexivity|]. split; [reflexivity|].
  split; [vm_compute; reflexivity|]. split; [vm_compute; reflexivity|].
  split; [exact Hin|].
  destruct (read_positions (H := Example.collaborators) Example.h req
              Example.node1 "a.log" None Example.free (mkFileInfo 7 false)
              sc l eq_refl eq_refl eq_refl eq_refl eq_refl eq_refl eq_refl
              Hin) as (i & p & H1 & _ & H2).
  exists i, p. split; [exact H1|exact H2].
Defined.

Lemma lines_from_passing_sources_witness :
  let req :=
    Example.request 8 "get-content" ["a.log"] "" ["node1"]
                    Example.noRange in
  let x :=
    mkResponse (mkMeta 8 "get-content" "node1" ["a.log"])
               [mkLog "1 up" "" (Some 1) "node1" "a.log" 1 0;
                mkLog "5 down" "" (Some 5) "node1" "a.log" 2 4]
               [] "" false in
  StoreOK Example.emptyStore
  /\ x ∈ fst (serve (H := Example.collaborators) Example.h req Example.env
                    Example.emptyStore)
  /\ Lines x <> []
  /\ exists src p,
       src ∈ h_source Example.h
       /\ passes (filterSourceMap req) (Name src) = true
       /\ ofRead req src p x
       /\ Forall (fun l => Log_FS l = Name src /\ Log_FileName l = p)
                 (Lines x).
Proof.
  intros req x.
  assert (Hx : x ∈ fst (serve (H := Example.collaborators) Example.h req
                              Example.env Example.emptyStore))
    by (apply list_elem_of_In; left; reflexivity).
  assert (Hl : Lines x <> []) by discriminate.
  split; [exact StoreOK_empty|]. split; [exact Hx|]. split; [exact Hl|].
  destruct (lines_from_passing_sources (H := Example.collaborators)
              Example.h req Example.env Example.emptyStore x StoreOK_empty
              Hx Hl) as (src & p & H1 & H2 & H3 & _ & _ & _ & H4 & _).
  exists src, p. auto.
Defined.

Lemma serve_store_frame_witness :
  let req :=
    Example.request 3 "get-file-tree" [] "" ["node2"] Example.noRange in
  let st' :=
    snd (serve (H := Example.collaborators) Example.h req Example.envLate
               Example.emptyStore) in
  StoreOK Example.emptyStore
  /\ (exists nf, files st' = files Example.emptyStore ++ nf)
  /\ (forall k,
        k <> filepath_Join (Collaborators := Example.collaborators)
               (Request_Path req) ->
        cache st' !! k = cache Example.emptyStore !! k).
Proof.
  intros req st'. split; [exact StoreOK_empty|].
  destruct (serve_store_frame (H := Example.collaborators) Example.h req
              Example.envLate Example.emptyStore StoreOK_empty)
    as (H1 & _ & _ & H2 & _).
  split; [exact H1|exact H2].
Defined.

Lemma tree_filters_share_cache_witness :
  let req1 :=
    Example.request 1 "get-file-tree" [] "" ["node2"] Example.noRange in
  let req2 :=
    Example.request 2 "get-file-tree" [] "" ["node1"] Example.noRange in
  let res1 :=
    serveTree (H := Example.collaborators) Example.h req1 Example.env
              Example.emptyStore in
  let res2 :=
    serveTree (H := Example.collaborators) Example.h req2 Example.env
              (snd res1) in
  let a1 :=
    mkFile "a.log" ["a.log"] false [mkFileInstance 7 "node1"] in
  let a2 :=
    mkFile "a.log" ["a.log"] false [mkFileInstance 3 "node2"] in
  let a12 :=
    mkFile "a.log" ["a.log"] false
           [mkFileInstance 7 "node1"; mkFileInstance 3 "node2"] in
  let b1 :=
    mkFile "b.log" ["b.log"] false [mkFileInstance 0 "node1"] in
  StoreOK Example.emptyStore
  /\ Request_Path req1 = Request_Path req2
  /\ cache Example.emptyStore
       !! filepath_Join (Collaborators := Example.collaborators)
            (Request_Path req1) = None
  /\ (forall i, neverCancelled (tasks Example.env i))
  /\ map (tree (snd res1)) (fst res1) = [[a2]]
  /\ map (tree (snd res2)) (fst res2) = [[a1; b1]]
  /\ map (fun kl => (fst kl,
                     tree (snd res1) (responses (snd res1) !!! snd kl)))
         (map_to_list (cache (snd res1)))
     = [("", [a12; b1])]
  /\ exists r1 st1 r2 st2 l r0,
       res1 = ([r1], st1)
       /\ res2 = ([r2], st2)
       /\ cache st1 !! "" = Some l
       /\ responses st1 !! l = Some r0
       /\ tree st1 r1 = filterTree (filterSourceMap req1) (tree st1 r0)
       /\ tree st2 r2 = filterTree (filterSourceMap req2) (tree st1 r0)
       /\ (forall k, k ∈ map Key (tree st1 r0)
                     <-> exists src, src ∈ h_source Example.h
                           /\ k ∈ walkedKeys (H := Example.collaborators)
                                              Example.h req1 src).
Proof.
  intros req1 req2 res1 res2 a1 a2 a12 b1.
  split; [exact StoreOK_empty|]. split; [reflexivity|].
  split; [reflexivity|]. split; [intros i; reflexivity|].
  split; [vm_compute; reflexivity|]. split; [vm_compute; reflexivity|].
  split; [vm_compute; reflexivity|].
  destruct (tree_filters_share_cache (H := Example.collaborators) Example.h
              req1 req2 Example.env Example.env Example.emptyStore
              StoreOK_empty eq_refl)
    as (r1 & st1 & r2 & st2 & l & r0 & H1 & H2 & H3 & H4 & H5 & H6 & _ & _
        & H7).
  destruct (H7 eq_refl) as (_ & _ & _ & H8).
  exists r1, st1, r2, st2, l, r0.
  split; [exact H1|].
  split; [unfold res2, res1; rewrite H1; exact H2|].
  split; [exact H3|]. split; [exact H4|]. split; [exact H5|].
  split; [exact H6|]. exact (H8 (fun i => eq_refl)).
Defined.

Lemma content_of_missing_file_witness :
  let req :=
    Example.request 10 "get-content" ["nope.log"] "" [] Example.noRange in
  Meta_Action (Request_Meta req) = "get-content"
  /\ (forall src, src ∈ h_source Example.h ->
        FS_Lstat (Source_FS src)
                 (FS_Join (Source_FS src) (Request_Path req)) = None)
  /\ serve (H := Example.collaborators) Example.h req Example.env
           Example.emptyStore
     = ([mkResponse (mkMeta 10 "get-content" "" []) [] [] "" true],
        Example.emptyStore).
Proof.
  intros req.
  assert (Hmiss : forall src, src ∈ h_source Example.h ->
            FS_Lstat (Source_FS src)
                     (FS_Join (Source_FS src) (Request_Path req)) = None).
  { intros src Hsrc. simpl in Hsrc.
    apply elem_of_cons in Hsrc as [->|Hsrc];
      [|apply elem_of_cons in Hsrc as [->|Hsrc];
        [|apply elem_of_nil in Hsrc; contradiction]]; reflexivity. }
  split; [reflexivity|]. split; [exact Hmiss|].
  apply (content_of_missing_file (H := Example.collaborators) Example.h req
           Example.env Example.emptyStore eq_refl).
  intros src Hsrc _. rewrite (Hmiss src Hsrc). exact I.
Defined.

Lemma search_without_match_witness :
  let req := Example.request 11 "search" [] "zzz" [] Example.noRange in
  Meta_Action (Request_Meta req) = "search"
  /\ regexp_Compile (Collaborators := Example.collaborators)
                    (Request_Regexp req) = inl "zzz"
  /\ (forall src p sc, src ∈ h_source Example.h ->
        FS_Open (Source_FS src) p = Some sc ->
        keptLines (H := Example.collaborators) Example.h req (Name src) p
                  (Some "zzz") (scan_lines sc) tt 1 0 = [])
  /\ serve (H := Example.collaborators) Example.h req Example.env
           Example.emptyStore
     = ([mkResponse (mkMeta 11 "search" "" []) [] [] "" true],
        Example.emptyStore).
Proof.
  intros req.
  assert (Hnone : forall src p sc, src ∈ h_source Example.h ->
            FS_Open (Source_FS src) p = Some sc ->
            keptLines (H := Example.collaborators) Example.h req (Name src)
                      p (Some "zzz") (scan_lines sc) tt 1 0 = []).
  { intros src p sc Hsrc Ho. simpl in Hsrc.
    apply elem_of_cons in Hsrc as [->|Hsrc];
      [|apply elem_of_cons in Hsrc as [->|Hsrc];
        [|apply elem_of_nil in Hsrc; contradiction]].
    - unfold Example.node1, Example.fs1 in Ho. simpl in Ho.
      destruct (String.eqb p "a.log");
        [injection Ho as <-; reflexivity|].
      destruct (String.eqb p "b.log");
        [injection Ho as <-; reflexivity|discriminate Ho].
    - unfold Example.node2, Example.fs2 in Ho. simpl in Ho.
      destruct (String.eqb p "a.log");
        [injection Ho as <-; reflexivity|discriminate Ho]. }
  split; [reflexivity|]. split; [reflexivity|]. split; [exact Hnone|].
  apply (search_without_match (H := Example.collaborators) Example.h req
           Example.env Example.emptyStore "zzz" eq_refl eq_refl).
  intros src p sc Hsrc _ Ho. exact (Hnone src p sc Hsrc Ho).
Defined.

Lemma tree_partial_sound_witness :
  let req := Example.request 12 "get-file-tree" [] "" [] Example.noRange in
  StoreOK Example.emptyStore
  /\ cache Example.emptyStore
       !! filepath_Join (Collaborators := Example.collaborators)
            (Request_Path req) = None
  /\ exists r st',
       serveTree (H := Example.collaborators) Example.h req Example.envLate
                 Example.emptyStore = ([r], st')
       /\ NoDup (map Key (tree st' r))
       /\ (forall f, f ∈ tree st' r ->
             forall i, i ∈ Instances f ->
               exists src, src ∈ h_source Example.h
                 /\ (Key f, i) ∈ walked (H := Example.collaborators)
                                        Example.h req src).
Proof.
  intros req. split; [exact StoreOK_empty|]. split; [reflexivity|].
  destruct (tree_partial_sound (H := Example.collaborators) Example.h req
              Example.envLate Example.emptyStore StoreOK_empty eq_refl)
    as (r & st' & H1 & H2 & H3).
  exists r, st'. split; [exact H1|]. split; [exact H2|].
  intros f Hf i Hi.
  destruct (H3 f Hf) as [_ H4].
  destruct (H4 i Hi) as (src & H5 & _ & _ & H6).
  exists src. auto.
Defined.

Lemma ServeHTTP_per_request_witness :
  let sent :=
    ServeHTTP (H := Example.collaborators) Example.h Example.servings
              [1%nat; 0%nat; 1%nat] in
  Forall (fun s => StoreOK (sv_store s)) Example.servings
  /\ NoDup (map (fun s => Meta_ID (Request_Meta (sv_request s)))
                Example.servings)
  /\ List.filter (fun x => Meta_ID (Response_Meta x) =? 1) sent
     = [mkResponse (mkMeta 1 "search" "" []) [] [] "" true]
  /\ length (List.filter Finished sent) = 2%nat.
Proof.
  intros sent.
  assert (Hok : Forall (fun s => StoreOK (sv_store s)) Example.servings)
    by (repeat constructor; exact StoreOK_empty).
  assert (Hnd : NoDup (map (fun s => Meta_ID (Request_Meta (sv_request s)))
                           Example.servings)).
  { apply (bool_decide_unpack _). vm_compute. exact I. }
  split; [exact Hok|]. split; [exact Hnd|].
  destruct (ServeHTTP_per_request (H := Example.collaborators) Example.h
              Example.servings [1%nat; 0%nat; 1%nat] 0%nat
              (mkServing (mkRequest (mkMeta 1 "search" "" []) [] "up" []
                                    Example.noRange ∅)
                         Example.envCancelled Example.emptyStore)
              Hok Hnd eq_refl) as (H1 & _ & H2).
  split; [exact H1|exact H2].
Defined.

Lemma read_full_batches_witness :
  let req :=
    Example.request 8 "get-content" ["big.log"] "" [] Example.noRange in
  let sent :=
    fst (read (H := Example.collaborators) Example.h3 req Example.node3
              "big.log" None Example.free) in
  (forall n m, clock Example.free n - clock Example.free m
               <= ContentBatchTime (h_Config Example.h3))
  /\ Z.max 0 (ContentBatchSize (h_Config Example.h3)) + 1 = 2001
  /\ map (fun x => Go.len (Lines x)) sent = [2001; 2001; 1998]
  /\ exists full rest,
       sent = full ++ rest
       /\ (2 <= length full)%nat
       /\ Forall (fun x => Go.len (Lines x)
                           = Z.max 0 (ContentBatchSize
                                        (h_Config Example.h3)) + 1) full
       /\ (length rest <= 1)%nat
       /\ Forall (fun x => Go.len (Lines x)
                           <= Z.max 0 (ContentBatchSize
                                         (h_Config Example.h3))) rest.
Proof.
  intros req sent.
  assert (Hclock : forall n m,
            clock Example.free n - clock Example.free m
            <= ContentBatchTime (h_Config Example.h3))
    by (intros n m; vm_compute; discriminate).
  assert (Hlen : length sent = 3%nat) by (vm_compute; reflexivity).
  split; [exact Hclock|]. split; [reflexivity|].
  split; [vm_compute; reflexivity|].
  destruct (read_full_batches (H := Example.collaborators) Example.h3 req
              Example.node3 "big.log" None Example.free Hclock)
    as (full & rest & H1 & H2 & H3 & H4).
  exists full, rest. split; [exact H1|].
  split; [|split; [exact H2|split; [exact H3|exact H4]]].
  fold sent in H1. rewrite H1, length_app in Hlen. lia.
Defined.
